(** * Reactive core of Vue 2: dependency tracking, scheduler, observer, render

    A shallow embedding of
      - core/observer/dep.js       (Dep, pushTarget, popTarget)
      - core/observer/watcher.js   (Watcher)
      - core/observer/scheduler.js (queueWatcher, flushSchedulerQueue)
      - core/util/next-tick.js     (nextTick, flushCallbacks)
      - core/observer/index.js     (Observer, observe, defineReactive, set)
      - core/instance/state.js     (computedGetter, getData)
      - core/instance/render.js    (Vue.prototype._render)

    Objects of the JavaScript heap that have a unique numeric [id] (Dep,
    Watcher) are named by that id; mutable state is threaded explicitly. *)

From Stdlib Require Import ZArith Lia.
From stdpp Require Import base option list sorting gmap strings.

Set Warnings "-register-all,-clear-no-such-hyp".
Open Scope nat_scope.

(* ===================================================================== *)
(** ** JavaScript values *)
(* ===================================================================== *)

Module JS.

(** Numbers keep the cases that [===] tells apart or merges: [NaN], the
    two zeros, the infinities and the other finite values (here the
    integers; [Fin 0] is [+0]). *)
Inductive number :=
| NaN
| NegZero
| PosInf
| NegInf
| Fin (z : Z).

Inductive value :=
| VUndefined
| VNull
| VBool (b : bool)
| VNum (n : number)
| VStr (s : string)
| VRef (r : nat).      (* an object or array on the heap *)

#[global] Instance number_eq_dec : EqDecision number.
Proof. solve_decision. Defined.

#[global] Instance value_eq_dec : EqDecision value.
Proof. solve_decision. Defined.

Definition number_eq (a b : number) : bool :=
  match a, b with
  | NaN, _ | _, NaN => false
  | NegZero, NegZero => true
  | NegZero, Fin z | Fin z, NegZero => Z.eqb z 0
  | PosInf, PosInf => true
  | NegInf, NegInf => true
  | Fin x, Fin y => Z.eqb x y
  | _, _ => false
  end.

(** [a === b] *)
Definition strict_eq (a b : value) : bool :=
  match a, b with
  | VUndefined, VUndefined => true
  | VNull, VNull => true
  | VBool x, VBool y => Bool.eqb x y
  | VNum x, VNum y => number_eq x y
  | VStr x, VStr y => bool_decide (x = y)
  | VRef x, VRef y => Nat.eqb x y
  | _, _ => false
  end.

(** [a !== b] *)
Definition strict_ne (a b : value) : bool := negb (strict_eq a b).

(** [typeof v === 'object' && v !== null]: only heap references. *)
Definition isObject (v : value) : bool :=
  match v with VRef _ => true | _ => false end.

Lemma number_eq_true a b :
  number_eq a b = true ->
  a = b \/ (a = NegZero /\ b = Fin 0) \/ (a = Fin 0 /\ b = NegZero).
Proof.
  destruct a, b; simpl; try discriminate; auto;
    intros H; apply Z.eqb_eq in H; subst; auto.
Qed.

Lemma strict_eq_self_false v : strict_eq v v = false <-> v = VNum NaN.
Proof.
  split.
  - destruct v as [| |b|n|s|r]; simpl; try discriminate.
    + destruct b; discriminate.
    + destruct n; simpl; try discriminate; auto.
      rewrite Z.eqb_refl. discriminate.
    + rewrite bool_decide_eq_false. congruence.
    + rewrite Nat.eqb_refl. discriminate.
  - intros ->. reflexivity.
Qed.

End JS.

(* ===================================================================== *)
(** ** Dependency tracking: Dep and Watcher *)
(* ===================================================================== *)

Module Tracking.
Import JS.

(** The fields of a [Watcher] that the tracking code reads or writes.
    [deps]/[newDeps] hold Dep objects, named here by their id. *)
Record Watcher := mkWatcher {
  deep : bool;
  user : bool;
  lazy : bool;
  sync : bool;
  dirty : bool;
  active : bool;
  deps : list nat;
  newDeps : list nat;
  depIds : gset nat;
  newDepIds : gset nat;
  value : JS.value
}.

(** The [options] argument of the constructor, after [!!]. *)
Record Options := mkOptions {
  opt_deep : bool; opt_user : bool; opt_lazy : bool; opt_sync : bool
}.

Definition no_options : Options := mkOptions false false false false.

(** The fields as the constructor leaves them before the first [get]. *)
Definition init_watcher (o : Options) : Watcher :=
  {| deep := opt_deep o; user := opt_user o; lazy := opt_lazy o;
     sync := opt_sync o;
     dirty := opt_lazy o;                       (* this.dirty = this.lazy *)
     active := true;
     deps := []; newDeps := []; depIds := ∅; newDepIds := ∅;
     value := VUndefined |}.

(** Ghost events: what an observer of the run would see. *)
Inductive event :=
| EGetter (w : nat)                 (* this.getter.call(vm, vm) of watcher w *)
| ETrack (w d : nat)                (* Dep.target.addDep(dep), in depend() of dep d *)
| ECallback (w : nat) (v old : JS.value)   (* this.cb.call(vm, value, oldValue) *)
| EHandleError (w : nat).           (* handleError(e, vm, ...) *)

Record State := mkState {
  subs : gmap nat (list nat);       (* dep.subs, per Dep id *)
  watchers : gmap nat Watcher;      (* the Watcher objects, per id *)
  target : option nat;              (* Dep.target *)
  targetStack : list nat;           (* targetStack; the last element is the top *)
  uid : nat;                        (* watcher.js: let uid = 0 *)
  log : list event
}.

Definition empty_state : State :=
  {| subs := ∅; watchers := ∅; target := None; targetStack := [];
     uid := 0; log := [] |}.

Definition subs_of (s : State) (d : nat) : list nat :=
  default [] (subs s !! d).

Definition watcher_of (s : State) (w : nat) : Watcher :=
  default (init_watcher no_options) (watchers s !! w).

Definition set_subs (d : nat) (l : list nat) (s : State) : State :=
  {| subs := <[d := l]> (subs s); watchers := watchers s; target := target s;
     targetStack := targetStack s; uid := uid s; log := log s |}.

Definition set_watcher (w : nat) (x : Watcher) (s : State) : State :=
  {| subs := subs s; watchers := <[w := x]> (watchers s); target := target s;
     targetStack := targetStack s; uid := uid s; log := log s |}.

Definition emit (e : event) (s : State) : State :=
  {| subs := subs s; watchers := watchers s; target := target s;
     targetStack := targetStack s; uid := uid s; log := log s ++ [e] |}.

(** *** dep.js *)

(** [addSub (sub) { this.subs.push(sub) }] *)
Definition addSub (d w : nat) (s : State) : State :=
  set_subs d (subs_of s d ++ [w]) s.

(** Modelled from the spec: [remove] of shared/util is not among the
    sources.  The spec says the cell "is unsubscribed"; as
    [arr.splice(arr.indexOf(item), 1)] does, the first entry equal to
    [item] leaves the array and nothing happens when there is none. *)
Fixpoint remove (l : list nat) (w : nat) : list nat :=
  match l with
  | [] => []
  | x :: r => if decide (x = w) then r else x :: remove r w
  end.

(** [removeSub (sub) { remove(this.subs, sub) }] *)
Definition removeSub (d w : nat) (s : State) : State :=
  set_subs d (remove (subs_of s d) w) s.

(** [pushTarget]: the current target is saved only when there is one. *)
Definition pushTarget (t : option nat) (s : State) : State :=
  {| subs := subs s; watchers := watchers s;
     target := t;
     targetStack := match target s with
                    | Some c => targetStack s ++ [c]
                    | None => targetStack s
                    end;
     uid := uid s; log := log s |}.

(** [popTarget]: [Dep.target = targetStack.pop()]; popping the empty
    array gives [undefined]. *)
Definition popTarget (s : State) : State :=
  {| subs := subs s; watchers := watchers s;
     target := last (targetStack s);
     targetStack := removelast (targetStack s);
     uid := uid s; log := log s |}.

(** *** watcher.js *)

(** Field updates of a watcher object. *)
Definition note_newDep (d : nat) (x : Watcher) : Watcher :=
  {| deep := deep x; user := user x; lazy := lazy x; sync := sync x;
     dirty := dirty x; active := active x;
     deps := deps x; newDeps := newDeps x ++ [d];
     depIds := depIds x; newDepIds := {[d]} ∪ newDepIds x;
     value := value x |}.

Definition swap_deps (x : Watcher) : Watcher :=
  {| deep := deep x; user := user x; lazy := lazy x; sync := sync x;
     dirty := dirty x; active := active x;
     deps := newDeps x; newDeps := [];
     depIds := newDepIds x; newDepIds := ∅;
     value := value x |}.

Definition with_dirty (b : bool) (x : Watcher) : Watcher :=
  {| deep := deep x; user := user x; lazy := lazy x; sync := sync x;
     dirty := b; active := active x;
     deps := deps x; newDeps := newDeps x;
     depIds := depIds x; newDepIds := newDepIds x;
     value := value x |}.

Definition with_value (v : JS.value) (x : Watcher) : Watcher :=
  {| deep := deep x; user := user x; lazy := lazy x; sync := sync x;
     dirty := dirty x; active := active x;
     deps := deps x; newDeps := newDeps x;
     depIds := depIds x; newDepIds := newDepIds x;
     value := v |}.

Definition with_active (b : bool) (x : Watcher) : Watcher :=
  {| deep := deep x; user := user x; lazy := lazy x; sync := sync x;
     dirty := dirty x; active := b;
     deps := deps x; newDeps := newDeps x;
     depIds := depIds x; newDepIds := newDepIds x;
     value := value x |}.

(** [addDep (dep)]: a dep not yet seen in this run is noted in
    [newDepIds]/[newDeps], and subscribed unless the previous run had
    already subscribed it. *)
Definition addDep (w d : nat) (s : State) : State :=
  let x := watcher_of s w in
  if decide (d ∈ newDepIds x) then s
  else
    let s1 := set_watcher w (note_newDep d x) s in
    if decide (d ∈ depIds x) then s1 else addSub d w s1.

(** [Dep.prototype.depend]: [if (Dep.target) Dep.target.addDep(this)].
    The ghost event records the call of [addDep] and the watcher it was
    made on. *)
Definition depend (d : nat) (s : State) : State :=
  match target s with
  | Some w => addDep w d (emit (ETrack w d) s)
  | None => s
  end.

(** The [while (i--)] loop of [cleanupDeps], which walks [this.deps] from
    its last entry to its first. *)
Definition cleanup_loop (w : nat) (keep : gset nat) (ds : list nat)
    (s : State) : State :=
  foldl (fun acc d => if decide (d ∈ keep) then acc else removeSub d w acc)
        s (reverse ds).

(** [cleanupDeps ()]: unsubscribe from the deps of the previous run that
    this run did not read, then swap the two id sets and the two arrays
    and empty the "new" ones. *)
Definition cleanupDeps (w : nat) (s : State) : State :=
  let x := watcher_of s w in
  let s1 := cleanup_loop w (newDepIds x) (deps x) s in
  set_watcher w (swap_deps x) s1.

(** What one invocation of a getter did, as far as this module can see.
    [Return v]/[Throw] is how it ended. *)
Inductive outcome := Return (v : JS.value) | Throw.

(** The reactive operations a getter performs, in order.  A nested
    evaluation carries the record of what the nested getter did. *)
Inductive action :=
| Depend (d : nat)
    (* a tracked read: reactiveGetter calls dep.depend() *)
| Evaluate (w : nat) (body : list action) (res : outcome) (trav : list nat)
    (* another watcher's get() runs inside this getter *)
| Computed (w : nat) (body : list action) (res : outcome) (trav : list nat)
    (* a computed property is read: computedGetter of state.js *)
| Untracked (body : list action).
    (* getData / callHook: pushTarget(); ...; popTarget() *)

(** One invocation of a watcher's getter: its reactive operations, how it
    ended, and the cells [traverse(value)] touches when the watcher is
    deep. *)
Record Getter := mkGetter {
  g_body : list action;
  g_res : outcome;
  g_trav : list nat
}.

(** Modelled from the spec: observer/traverse.js is not among the sources.
    A deep watcher "also touches nested values to subscribe to nested
    shape changes": every touched cell calls [dep.depend()].  A getter
    that threw leaves [value] undefined, which has nothing to touch. *)
Definition traverse (res : outcome) (trav : list nat) (s : State) : State :=
  match res with
  | Return _ => foldl (fun acc d => depend d acc) s trav
  | Throw => s
  end.

Definition set_value_clean (w : nat) (v : JS.value) (s : State) : State :=
  set_watcher w (with_dirty false (with_value v (watcher_of s w))) s.

Section WithBody.
(** How the operations of a getter body are carried out. *)
Variable run_body : list action -> State -> State.

(** [get ()]: try { getter } catch { user ? handleError : rethrow }
    finally { deep ? traverse; popTarget(); cleanupDeps() }. *)
Definition get_with (w : nat) (body : list action) (res : outcome)
    (trav : list nat) (s : State) : State * outcome :=
  let s1 := pushTarget (Some w) s in
  let s2 := run_body body (emit (EGetter w) s1) in
  let s3 := match res with
            | Throw => if user (watcher_of s2 w)
                       then emit (EHandleError w) s2 else s2
            | Return _ => s2
            end in
  let s4 := if deep (watcher_of s3 w) then traverse res trav s3 else s3 in
  let s5 := cleanupDeps w (popTarget s4) in
  (s5, match res with
       | Return v => Return v
       | Throw => if user (watcher_of s2 w) then Return VUndefined else Throw
       end).

(** [evaluate ()]: [this.value = this.get(); this.dirty = false]; when
    [get] throws neither assignment happens. *)
Definition evaluate_with (w : nat) (body : list action) (res : outcome)
    (trav : list nat) (s : State) : State * outcome :=
  match get_with w body res trav s with
  | (s', Return v) => (set_value_clean w v s', Return v)
  | (s', Throw) => (s', Throw)
  end.
End WithBody.

(** [Watcher.prototype.depend]: every dep of the watcher, last to first. *)
Definition watcher_depend (w : nat) (s : State) : State :=
  foldl (fun acc d => depend d acc) s (reverse (deps (watcher_of s w))).

(** [computedGetter], for a key that has a computed watcher [w]. *)
Definition computedGetter_with (run_body : list action -> State -> State)
    (w : nat) (body : list action) (res : outcome) (trav : list nat)
    (s : State) : State * outcome :=
  let '(s1, r) :=
    if dirty (watcher_of s w) then evaluate_with run_body w body res trav s
    else (s, Return VUndefined) in
  match r with
  | Throw => (s1, Throw)
  | Return _ =>
      let s2 := match target s1 with
                | Some _ => watcher_depend w s1
                | None => s1
                end in
      (s2, Return (value (watcher_of s2 w)))
  end.

Fixpoint exec (a : action) (s : State) {struct a} : State :=
  let run := fix run (l : list action) (s : State) {struct l} : State :=
               match l with
               | [] => s
               | a :: l' => run l' (exec a s)
               end in
  match a with
  | Depend d => depend d s
  | Evaluate w body res trav => fst (get_with run w body res trav s)
  | Computed w body res trav => fst (computedGetter_with run w body res trav s)
  | Untracked body => popTarget (run body (pushTarget None s))
  end.

Fixpoint run_body (l : list action) (s : State) : State :=
  match l with
  | [] => s
  | a :: l' => run_body l' (exec a s)
  end.

Definition get (w : nat) (g : Getter) (s : State) : State * outcome :=
  get_with run_body w (g_body g) (g_res g) (g_trav g) s.

Definition evaluate (w : nat) (g : Getter) (s : State) : State * outcome :=
  evaluate_with run_body w (g_body g) (g_res g) (g_trav g) s.

Definition computedGetter (w : nat) (g : Getter) (s : State)
  : State * outcome :=
  computedGetter_with run_body w (g_body g) (g_res g) (g_trav g) s.

Lemma exec_Evaluate w body res trav s :
  exec (Evaluate w body res trav) s
  = fst (get w (mkGetter body res trav) s).
Proof. reflexivity. Qed.

Lemma exec_Computed w body res trav s :
  exec (Computed w body res trav) s
  = fst (computedGetter w (mkGetter body res trav) s).
Proof. reflexivity. Qed.

Lemma exec_Untracked body s :
  exec (Untracked body) s = popTarget (run_body body (pushTarget None s)).
Proof. reflexivity. Qed.

(** *** Frame facts for the state accessors *)

Lemma subs_of_set_subs d l s d' :
  subs_of (set_subs d l s) d' = if decide (d = d') then l else subs_of s d'.
Proof.
  unfold subs_of, set_subs; simpl. rewrite lookup_insert.
  destruct (decide (d = d')); reflexivity.
Qed.

Lemma watcher_of_set_watcher w x s w' :
  watcher_of (set_watcher w x s) w'
  = if decide (w = w') then x else watcher_of s w'.
Proof.
  unfold watcher_of, set_watcher; simpl. rewrite lookup_insert.
  destruct (decide (w = w')); reflexivity.
Qed.

Lemma watcher_of_set_subs d l s w :
  watcher_of (set_subs d l s) w = watcher_of s w.
Proof. reflexivity. Qed.

Lemma subs_of_set_watcher w x s d :
  subs_of (set_watcher w x s) d = subs_of s d.
Proof. reflexivity. Qed.

Ltac frame :=
  repeat first [ rewrite subs_of_set_subs | rewrite subs_of_set_watcher
               | rewrite watcher_of_set_subs | rewrite watcher_of_set_watcher ].

(** *** The list-level [remove] *)

Lemma elem_of_remove_ne (l : list nat) w w' :
  w' <> w -> w' ∈ remove l w <-> w' ∈ l.
Proof.
  intros Hne. induction l as [|x r IH]; simpl; [reflexivity|].
  destruct (decide (x = w)) as [->|Hx].
  - rewrite elem_of_cons. naive_solver.
  - rewrite !elem_of_cons, IH. reflexivity.
Qed.

Lemma remove_subseteq (l : list nat) w x : x ∈ remove l w -> x ∈ l.
Proof.
  induction l as [|y r IH]; simpl; [auto|].
  destruct (decide (y = w)); rewrite ?elem_of_cons; naive_solver.
Qed.

Lemma NoDup_remove (l : list nat) w : NoDup l -> NoDup (remove l w).
Proof.
  induction 1 as [|x r Hx Hr IH]; simpl; [constructor|].
  destruct (decide (x = w)); [assumption|].
  constructor; [|assumption].
  intros Hin. apply Hx. eapply remove_subseteq, Hin.
Qed.

Lemma not_elem_of_remove (l : list nat) w : NoDup l -> w ∉ remove l w.
Proof.
  induction 1 as [|x r Hx Hr IH]; simpl; [apply not_elem_of_nil|].
  destruct (decide (x = w)) as [->|Hne]; [assumption|].
  rewrite elem_of_cons. naive_solver.
Qed.

(** *** Induction over nested getter records *)

Lemma action_nested_ind (P : action -> Prop) :
  (forall d, P (Depend d)) ->
  (forall w body res trav, Forall P body -> P (Evaluate w body res trav)) ->
  (forall w body res trav, Forall P body -> P (Computed w body res trav)) ->
  (forall body, Forall P body -> P (Untracked body)) ->
  forall a, P a.
Proof.
  intros HD HE HC HU.
  refine (fix go (a : action) : P a :=
            let all := fix all (l : list action) : Forall P l :=
                         match l with
                         | [] => Forall_nil_2 _
                         | x :: r => Forall_cons_2 _ _ _ (go x) (all r)
                         end in
            match a with
            | Depend d => HD d
            | Evaluate w body res trav => HE w body res trav (all body)
            | Computed w body res trav => HC w body res trav (all body)
            | Untracked body => HU body (all body)
            end).
Qed.

(** [foreign w a]: no watcher evaluated inside [a] is [w] itself. *)
Fixpoint foreign (w : nat) (a : action) {struct a} : bool :=
  let all := fix all (l : list action) : bool :=
               match l with
               | [] => true
               | x :: r => foreign w x && all r
               end in
  match a with
  | Depend _ => true
  | Evaluate w' body _ _ => negb (Nat.eqb w' w) && all body
  | Computed w' body _ _ => negb (Nat.eqb w' w) && all body
  | Untracked body => all body
  end.

Definition all_foreign (w : nat) : list action -> bool :=
  fix all (l : list action) : bool :=
    match l with
    | [] => true
    | x :: r => foreign w x && all r
    end.

Lemma all_foreign_cons w x r :
  all_foreign w (x :: r) = foreign w x && all_foreign w r.
Proof. reflexivity. Qed.

Lemma foreign_Evaluate w w' body res trav :
  foreign w (Evaluate w' body res trav)
  = negb (Nat.eqb w' w) && all_foreign w body.
Proof. reflexivity. Qed.

Lemma foreign_Computed w w' body res trav :
  foreign w (Computed w' body res trav)
  = negb (Nat.eqb w' w) && all_foreign w body.
Proof. reflexivity. Qed.

Lemma foreign_Untracked w body :
  foreign w (Untracked body) = all_foreign w body.
Proof. reflexivity. Qed.

(** *** The subscription invariant

    Every subscriber list is duplicate free; a watcher is in [dep.subs]
    exactly when the dep is in its [depIds] or [newDepIds]; the id sets
    describe the two dep arrays. *)
Definition consistent (s : State) : Prop :=
  (forall d, NoDup (subs_of s d)) /\
  (forall d w, w ∈ subs_of s d <->
     d ∈ depIds (watcher_of s w) \/ d ∈ newDepIds (watcher_of s w)) /\
  (forall w d, d ∈ depIds (watcher_of s w) <-> d ∈ deps (watcher_of s w)) /\
  (forall w d, d ∈ newDepIds (watcher_of s w) <-> d ∈ newDeps (watcher_of s w)).

(** Two states with the same subscriber lists and dependency fields. *)
Definition same_tracking (s s' : State) : Prop :=
  (forall d, subs_of s' d = subs_of s d) /\
  (forall w, deps (watcher_of s' w) = deps (watcher_of s w) /\
             newDeps (watcher_of s' w) = newDeps (watcher_of s w) /\
             depIds (watcher_of s' w) = depIds (watcher_of s w) /\
             newDepIds (watcher_of s' w) = newDepIds (watcher_of s w)).

Lemma consistent_same s s' : same_tracking s s' -> consistent s -> consistent s'.
Proof.
  intros [Hs Hw] (H1 & H2 & H3 & H4). split; [|split; [|split]].
  - intros d. rewrite Hs. apply H1.
  - intros d w. destruct (Hw w) as (_ & _ & -> & ->). rewrite Hs. apply H2.
  - intros w d. destruct (Hw w) as (-> & _ & -> & _). apply H3.
  - intros w d. destruct (Hw w) as (_ & -> & _ & ->). apply H4.
Qed.

Lemma same_tracking_emit e s : same_tracking s (emit e s).
Proof. split; intros; repeat split; reflexivity. Qed.

Lemma same_tracking_pushTarget t s : same_tracking s (pushTarget t s).
Proof. split; intros; repeat split; reflexivity. Qed.

Lemma same_tracking_popTarget s : same_tracking s (popTarget s).
Proof. split; intros; repeat split; reflexivity. Qed.

Lemma same_tracking_set_value_clean w v s :
  same_tracking s (set_value_clean w v s).
Proof.
  split; intros; [reflexivity|].
  unfold set_value_clean. rewrite watcher_of_set_watcher.
  destruct (decide (w = w0)) as [->|]; repeat split; reflexivity.
Qed.

Lemma consistent_empty : consistent empty_state.
Proof.
  repeat split; intros; try apply NoDup_nil_2;
    unfold subs_of, watcher_of in *; simpl in *;
    rewrite ?lookup_empty in *; simpl in *; set_solver.
Qed.

Lemma consistent_addDep w d s : consistent s -> consistent (addDep w d s).
Proof.
  intros Hc. pose proof Hc as (H1 & H2 & H3 & H4). unfold addDep.
  destruct (decide (d ∈ newDepIds (watcher_of s w))) as [Hn|Hn]; [exact Hc|].
  destruct (decide (d ∈ depIds (watcher_of s w))) as [Hd|Hd].
  - split; [|split; [|split]].
    + intros d0. frame. apply H1.
    + intros d0 w0. frame.
      destruct (decide (w = w0)) as [<-|Hne]; simpl; [|apply H2].
      rewrite H2. set_solver.
    + intros w0 d0. frame.
      destruct (decide (w = w0)) as [<-|Hne]; simpl; apply H3.
    + intros w0 d0. frame.
      destruct (decide (w = w0)) as [<-|Hne]; simpl; [|apply H4].
      rewrite elem_of_app, list_elem_of_singleton, <- H4. set_solver.
  - assert (Hw : w ∉ subs_of s d) by (rewrite H2; tauto).
    unfold addSub. split; [|split; [|split]].
    + intros d0. frame.
      destruct (decide (d = d0)) as [<-|Hne]; [|apply H1].
      apply NoDup_app. split; [apply H1|].
      split; [|apply NoDup_singleton].
      intros y Hy Hy'. apply list_elem_of_singleton in Hy'. subst. tauto.
    + intros d0 w0. frame.
      destruct (decide (d = d0)) as [<-|Hd0];
        destruct (decide (w = w0)) as [<-|Hw0]; simpl.
      * rewrite elem_of_app, list_elem_of_singleton. set_solver.
      * rewrite elem_of_app, list_elem_of_singleton, H2. naive_solver.
      * rewrite H2. set_solver.
      * apply H2.
    + intros w0 d0. frame.
      destruct (decide (w = w0)) as [<-|Hne]; simpl; apply H3.
    + intros w0 d0. frame.
      destruct (decide (w = w0)) as [<-|Hne]; simpl; [|apply H4].
      rewrite elem_of_app, list_elem_of_singleton, <- H4. set_solver.
Qed.

Lemma consistent_depend d s : consistent s -> consistent (depend d s).
Proof.
  intros Hc. unfold depend. destruct (target s) as [w|]; [|exact Hc].
  apply consistent_addDep. eapply consistent_same; [|exact Hc].
  apply same_tracking_emit.
Qed.

Lemma consistent_foldl_depend ds s :
  consistent s -> consistent (foldl (fun acc d => depend d acc) s ds).
Proof.
  revert s. induction ds as [|d ds IH]; intros s Hc; simpl; [exact Hc|].
  apply IH, consistent_depend, Hc.
Qed.

(** The unsubscription loop removes [w] from the deps it visits that are
    not kept, and touches nothing else. *)
Lemma cleanup_loop_spec w keep ds s :
  (forall d, NoDup (subs_of s d)) ->
  let s' := cleanup_loop w keep ds s in
  (forall d, NoDup (subs_of s' d)) /\
  (forall d w', w' ∈ subs_of s' d <->
     w' ∈ subs_of s d /\ ~ (w' = w /\ d ∈ ds /\ d ∉ keep)) /\
  watchers s' = watchers s /\ target s' = target s /\
  targetStack s' = targetStack s /\ log s' = log s /\ uid s' = uid s.
Proof.
  unfold cleanup_loop.
  assert (Hgen : forall l s0,
    (forall d, NoDup (subs_of s0 d)) ->
    let s' := foldl (fun acc d => if decide (d ∈ keep) then acc
                                  else removeSub d w acc) s0 l in
    (forall d, NoDup (subs_of s' d)) /\
    (forall d w', w' ∈ subs_of s' d <->
       w' ∈ subs_of s0 d /\ ~ (w' = w /\ d ∈ l /\ d ∉ keep)) /\
    watchers s' = watchers s0 /\ target s' = target s0 /\
    targetStack s' = targetStack s0 /\ log s' = log s0 /\ uid s' = uid s0).
  { induction l as [|d l IH]; intros s0 Hnd; simpl.
    - split; [exact Hnd|]. split; [|auto].
      intros d w'. rewrite elem_of_nil. tauto.
    - destruct (decide (d ∈ keep)) as [Hk|Hk].
      + destruct (IH s0 Hnd) as (A & B & C). split; [exact A|].
        split; [|exact C]. intros d0 w'. rewrite B, elem_of_cons.
        naive_solver.
      + assert (Hnd' : forall d0, NoDup (subs_of (removeSub d w s0) d0)).
        { intros d0. unfold removeSub. rewrite subs_of_set_subs.
          destruct (decide (d = d0)); [apply NoDup_remove|]; apply Hnd. }
        destruct (IH _ Hnd') as (A & B & C). split; [exact A|].
        split; [|exact C]. intros d0 w'. rewrite B, elem_of_cons.
        unfold removeSub. rewrite subs_of_set_subs.
        destruct (decide (d = d0)) as [<-|Hne].
        * destruct (decide (w' = w)) as [->|Hw].
          -- split.
             ++ intros [Hin _]. exfalso.
                eapply not_elem_of_remove; [apply Hnd|exact Hin].
             ++ intros [_ Hn]. exfalso. apply Hn. auto.
          -- rewrite elem_of_remove_ne by exact Hw. tauto.
        * naive_solver. }
  intros Hnd. destruct (Hgen (reverse ds) s Hnd) as (A & B & C).
  split; [exact A|]. split; [|exact C].
  intros d w'. rewrite B, elem_of_reverse. reflexivity.
Qed.

Lemma consistent_cleanupDeps w s : consistent s -> consistent (cleanupDeps w s).
Proof.
  intros (H1 & H2 & H3 & H4). unfold cleanupDeps.
  destruct (cleanup_loop_spec w (newDepIds (watcher_of s w))
              (deps (watcher_of s w)) s H1) as (A & B & C & _).
  set (s1 := cleanup_loop _ _ _ _) in *.
  assert (Hw : forall w0, watcher_of s1 w0 = watcher_of s w0)
    by (intros w0; unfold watcher_of; rewrite C; reflexivity).
  split; [|split; [|split]].
  - intros d. frame. apply A.
  - intros d w0. frame. rewrite B.
    destruct (decide (w = w0)) as [<-|Hne]; simpl.
    + rewrite H2, <- H3.
      destruct (decide (d ∈ newDepIds (watcher_of s w))); set_solver.
    + rewrite Hw, H2. naive_solver.
  - intros w0 d. rewrite watcher_of_set_watcher.
    destruct (decide (w = w0)) as [<-|Hne]; simpl; [apply H4|].
    rewrite Hw. apply H3.
  - intros w0 d. rewrite watcher_of_set_watcher.
    destruct (decide (w = w0)) as [<-|Hne]; simpl; [|rewrite Hw; apply H4].
    rewrite elem_of_nil. set_solver.
Qed.

Lemma cleanup_loop_frame w keep ds s :
  watchers (cleanup_loop w keep ds s) = watchers s /\
  log (cleanup_loop w keep ds s) = log s /\
  target (cleanup_loop w keep ds s) = target s /\
  targetStack (cleanup_loop w keep ds s) = targetStack s.
Proof.
  unfold cleanup_loop. generalize (reverse ds). intros l. revert s.
  induction l as [|d l IH]; intros s; simpl; [auto|].
  destruct (decide (d ∈ keep)); [apply IH|].
  destruct (IH (removeSub d w s)) as (-> & -> & -> & ->). auto.
Qed.

Lemma cleanupDeps_log w s : log (cleanupDeps w s) = log s.
Proof. unfold cleanupDeps; simpl. apply cleanup_loop_frame. Qed.

Lemma cleanupDeps_target w s :
  target (cleanupDeps w s) = target s /\
  targetStack (cleanupDeps w s) = targetStack s.
Proof. unfold cleanupDeps; simpl. split; apply cleanup_loop_frame. Qed.

Lemma cleanupDeps_watcher w s w' :
  watcher_of (cleanupDeps w s) w'
  = if decide (w = w') then swap_deps (watcher_of s w) else watcher_of s w'.
Proof.
  unfold cleanupDeps. frame. destruct (decide (w = w')); [reflexivity|].
  unfold watcher_of.
  destruct (cleanup_loop_frame w (newDepIds (default (init_watcher no_options)
              (watchers s !! w))) (deps (default (init_watcher no_options)
              (watchers s !! w))) s) as (-> & _). reflexivity.
Qed.

(** *** Consistency is kept by every operation of a getter *)

Section Consistency.
Variable rb : list action -> State -> State.
Variable body : list action.
Hypothesis rb_consistent : forall s, consistent s -> consistent (rb body s).

Lemma consistent_get_with w res trav s :
  consistent s -> consistent (fst (get_with rb w body res trav s)).
Proof.
  intros Hc. unfold get_with; simpl.
  apply consistent_cleanupDeps.
  eapply consistent_same; [apply same_tracking_popTarget|].
  set (s2 := rb body _).
  assert (H2 : consistent s2).
  { apply rb_consistent.
    eapply consistent_same; [apply same_tracking_emit|].
    eapply consistent_same; [apply same_tracking_pushTarget|]. exact Hc. }
  set (s3 := match res with Throw => _ | Return _ => _ end).
  assert (H3 : consistent s3).
  { subst s3. destruct res; [exact H2|].
    destruct (user (watcher_of s2 w)); [|exact H2].
    eapply consistent_same; [apply same_tracking_emit|exact H2]. }
  destruct (deep (watcher_of s3 w)); [|exact H3].
  unfold traverse. destruct res; [|exact H3].
  apply consistent_foldl_depend, H3.
Qed.

Lemma consistent_evaluate_with w res trav s :
  consistent s -> consistent (fst (evaluate_with rb w body res trav s)).
Proof.
  intros Hc. unfold evaluate_with.
  pose proof (consistent_get_with w res trav s Hc) as Hg.
  destruct (get_with rb w body res trav s) as [s' [v|]]; simpl in *;
    [|exact Hg].
  eapply consistent_same; [apply same_tracking_set_value_clean|exact Hg].
Qed.

Lemma consistent_computedGetter_with w res trav s :
  consistent s ->
  consistent (fst (computedGetter_with rb w body res trav s)).
Proof.
  intros Hc. unfold computedGetter_with.
  destruct (dirty (watcher_of s w)).
  - pose proof (consistent_evaluate_with w res trav s Hc) as He.
    destruct (evaluate_with rb w body res trav s) as [s1 [v|]];
      simpl in *; [|exact He].
    destruct (target s1); [|exact He].
    apply consistent_foldl_depend, He.
  - simpl. destruct (target s); [|exact Hc].
    apply consistent_foldl_depend, Hc.
Qed.
End Consistency.

Lemma consistent_run_body body :
  Forall (fun a => forall s, consistent s -> consistent (exec a s)) body ->
  forall s, consistent s -> consistent (run_body body s).
Proof.
  induction 1 as [|a l Ha Hl IH]; intros s Hc; simpl; [exact Hc|].
  apply IH, Ha, Hc.
Qed.

Lemma consistent_exec a : forall s, consistent s -> consistent (exec a s).
Proof.
  induction a as [d|w body res trav IH|w body res trav IH|body IH]
    using action_nested_ind; intros s Hc.
  - apply consistent_depend, Hc.
  - rewrite exec_Evaluate. apply consistent_get_with; [|exact Hc].
    apply consistent_run_body, IH.
  - rewrite exec_Computed. apply consistent_computedGetter_with; [|exact Hc].
    apply consistent_run_body, IH.
  - rewrite exec_Untracked.
    eapply consistent_same; [apply same_tracking_popTarget|].
    apply consistent_run_body; [exact IH|].
    eapply consistent_same; [apply same_tracking_pushTarget|exact Hc].
Qed.

Lemma consistent_get w g s : consistent s -> consistent (fst (get w g s)).
Proof.
  intros Hc. apply consistent_get_with; [|exact Hc].
  intros s0. apply consistent_run_body, Forall_forall.
  intros a _. apply consistent_exec.
Qed.

(** *** get, split at cleanupDeps *)

(** What [get] does before [cleanupDeps]. *)
Definition get_until_cleanup (rb : list action -> State -> State)
    (w : nat) (body : list action) (res : outcome) (trav : list nat)
    (s : State) : State :=
  let s2 := rb body (emit (EGetter w) (pushTarget (Some w) s)) in
  let s3 := match res with
            | Throw => if user (watcher_of s2 w)
                       then emit (EHandleError w) s2 else s2
            | Return _ => s2
            end in
  let s4 := if deep (watcher_of s3 w) then traverse res trav s3 else s3 in
  popTarget s4.

Lemma get_with_split rb w body res trav s :
  fst (get_with rb w body res trav s)
  = cleanupDeps w (get_until_cleanup rb w body res trav s).
Proof. reflexivity. Qed.

(** *** run *)

(** [run ()].  [cb_throws] says whether the callback, when called, throws;
    a user watcher's callback is guarded by [handleError]. *)
Definition run (w : nat) (g : Getter) (cb_throws : bool) (s : State)
  : State * outcome :=
  if active (watcher_of s w) then
    match get w g s with
    | (s1, Throw) => (s1, Throw)
    | (s1, Return v) =>
        let x := watcher_of s1 w in
        if strict_ne v (value x) || isObject v || deep x then
          let s2 := emit (ECallback w v (value x))
                      (set_watcher w (with_value v x) s1) in
          if cb_throws then
            if user x then (emit (EHandleError w) s2, Return VUndefined)
            else (s2, Throw)
          else (s2, Return VUndefined)
        else (s1, Return VUndefined)
    end
  else (s, Return VUndefined).

Lemma same_tracking_refl s : same_tracking s s.
Proof. split; intros; repeat split; reflexivity. Qed.

Lemma same_tracking_with_value w v s :
  same_tracking s (set_watcher w (with_value v (watcher_of s w)) s).
Proof.
  split; intros; [reflexivity|]. frame.
  destruct (decide (w = w0)) as [->|]; repeat split; reflexivity.
Qed.

Lemma same_tracking_trans s1 s2 s3 :
  same_tracking s1 s2 -> same_tracking s2 s3 -> same_tracking s1 s3.
Proof.
  intros [A1 B1] [A2 B2]. split.
  - intros d. rewrite A2. apply A1.
  - intros w. destruct (B1 w) as (<- & <- & <- & <-). apply B2.
Qed.

(** A watcher that read cells 10 and 11 in its first run and reads 11 and
    12 in the next one. *)
Definition first_run : Getter :=
  mkGetter [Depend 10; Depend 11; Depend 10] (Return (VNum (Fin 1))) [].
Definition second_run : Getter :=
  mkGetter [Depend 11; Depend 12] (Return (VNum (Fin 2))) [].

Example second_run_subs :
  let s1 := fst (get 1 first_run empty_state) in
  let s2 := fst (run 1 second_run false s1) in
  (subs_of s1 10, subs_of s1 11, subs_of s1 12) = ([1], [1], []) /\
  (subs_of s2 10, subs_of s2 11, subs_of s2 12) = ([], [1], [1]).
Proof. vm_compute. auto. Qed.

(** *** The target stack *)

Lemma exec_Depend_target d s :
  target (exec (Depend d) s) = target s /\
  targetStack (exec (Depend d) s) = targetStack s.
Proof.
  simpl. unfold depend. destruct (target s) as [w|] eqn:E; [|auto].
  unfold addDep.
  destruct (decide (d ∈ newDepIds (watcher_of (emit (ETrack w d) s) w)));
    [simpl; auto|].
  destruct (decide (d ∈ depIds (watcher_of (emit (ETrack w d) s) w)));
    simpl; auto.
Qed.

Lemma foldl_depend_target ds s :
  target (foldl (fun acc d => depend d acc) s ds) = target s /\
  targetStack (foldl (fun acc d => depend d acc) s ds) = targetStack s.
Proof.
  revert s. induction ds as [|d ds IH]; intros s; simpl; [auto|].
  destruct (IH (depend d s)) as [-> ->]. apply (exec_Depend_target d s).
Qed.

(** When an active target is installed at entry, or nothing is on the
    stack, and the getter body itself leaves target and stack as it found
    them, [get] restores both, whether the getter returns or throws. *)
Lemma get_restores_target rb w body res trav s :
  (forall s0, target (rb body s0) = target s0 /\
              targetStack (rb body s0) = targetStack s0) ->
  target s <> None \/ targetStack s = [] ->
  let s' := fst (get_with rb w body res trav s) in
  target s' = target s /\ targetStack s' = targetStack s.
Proof.
  intros Hb Hs s'. subst s'. rewrite get_with_split.
  destruct (cleanupDeps_target w
              (get_until_cleanup rb w body res trav s)) as [-> ->].
  unfold get_until_cleanup.
  set (s2 := rb body _).
  assert (H2 : target s2 = Some w /\
               targetStack s2 = targetStack (pushTarget (Some w) s)).
  { subst s2. destruct (Hb (emit (EGetter w) (pushTarget (Some w) s)))
      as [-> ->]. auto. }
  set (s3 := match res with Throw => _ | Return _ => _ end).
  assert (H3 : target s3 = target s2 /\ targetStack s3 = targetStack s2).
  { subst s3. destruct res; [auto|].
    destruct (user (watcher_of s2 w)); auto. }
  set (s4 := if deep _ then _ else _).
  assert (H4 : target s4 = target s3 /\ targetStack s4 = targetStack s3).
  { subst s4. destruct (deep (watcher_of s3 w)); [|auto].
    unfold traverse. destruct res; [|auto]. apply foldl_depend_target. }
  destruct H2 as [_ E2], H3 as [_ E3], H4 as [_ E4]. simpl.
  rewrite E4, E3, E2. simpl.
  destruct (target s) as [t|] eqn:Et.
  - rewrite last_snoc, removelast_last. auto.
  - destruct Hs as [Hs|Hs]; [congruence|]. rewrite Hs. auto.
Qed.

(** The state inside a data function or lifecycle hook called while the
    render watcher 7 is being evaluated: [get] of watcher 7 has pushed it,
    then [getData]/[callHook] called [pushTarget()]. *)
Definition inside_hook : State :=
  pushTarget None (pushTarget (Some 7) empty_state).

Definition reads_nothing : Getter := mkGetter [] (Return VUndefined) [].

(** The render watcher 7 creates a child whose data function reads the
    computed property of watcher 3 (which reads cell 10); after that the
    render function reads cell 11. *)
Definition render_with_hook : Getter :=
  mkGetter
    [Untracked [Computed 3 [Depend 10] (Return (VNum (Fin 1))) []]; Depend 11]
    (Return VUndefined) [].

Definition with_computed_3 : State :=
  set_watcher 3 (init_watcher (mkOptions false false true false)) empty_state.

(** C9.  [get] does not restore the previous target on the states that
    [pushTarget()] of [getData]/[callHook] creates: entered with no
    target and the render watcher 7 on the stack, it leaves watcher 7
    installed and the stack empty, for a getter that returns as for one
    that throws.  Seen from the render watcher: the read inside the hook
    subscribes it (cell 10), the read after the hook does not (cell 11). *)
Theorem get_pops_other_target_inside_hook :
  (target inside_hook, targetStack inside_hook) = (None, [7]) /\
  (let s' := fst (get 3 reads_nothing inside_hook) in
   (target s', targetStack s') = (Some 7, [])) /\
  (let s' := fst (get 3 (mkGetter [] Throw []) inside_hook) in
   (target s', targetStack s') = (Some 7, [])) /\
  (let s' := fst (get 7 render_with_hook with_computed_3) in
   (subs_of s' 10, subs_of s' 11) = ([3; 7], [])).
Proof. vm_compute. auto. Qed.

(** *** What the evaluation of other watchers leaves alone *)

Section Frame.
Variable w : nat.
Variable R : State -> State -> Prop.
Hypothesis R_refl : forall s, R s s.
Hypothesis R_trans : forall s1 s2 s3, R s1 s2 -> R s2 s3 -> R s1 s3.
Hypothesis R_depend : forall d s, R s (depend d s).
Hypothesis R_pushTarget : forall t s, R s (pushTarget t s).
Hypothesis R_popTarget : forall s, R s (popTarget s).
Hypothesis R_getter : forall w' s, w' <> w -> R s (emit (EGetter w') s).
Hypothesis R_error : forall w' s, w' <> w -> R s (emit (EHandleError w') s).
Hypothesis R_cleanupDeps : forall w' s, w' <> w -> R s (cleanupDeps w' s).
Hypothesis R_set_value_clean :
  forall w' v s, w' <> w -> R s (set_value_clean w' v s).

Lemma frame_foldl_depend ds s : R s (foldl (fun acc d => depend d acc) s ds).
Proof.
  revert s. induction ds as [|d ds IH]; intros s; simpl; [apply R_refl|].
  eapply R_trans; [apply R_depend|apply IH].
Qed.

Lemma frame_get_with rb body w' res trav s :
  (forall s0, R s0 (rb body s0)) -> w' <> w ->
  R s (fst (get_with rb w' body res trav s)).
Proof.
  intros Hb Hne. rewrite get_with_split.
  eapply R_trans; [|apply R_cleanupDeps, Hne].
  unfold get_until_cleanup.
  eapply R_trans; [apply (R_pushTarget (Some w'))|].
  eapply R_trans; [apply (R_getter w'), Hne|].
  eapply R_trans; [apply Hb|].
  set (s2 := rb body _).
  eapply R_trans; [|eapply R_trans; [|apply R_popTarget]].
  - instantiate (1 := match res with
                      | Throw => if user (watcher_of s2 w')
                                 then emit (EHandleError w') s2 else s2
                      | Return _ => s2
                      end).
    destruct res; [apply R_refl|].
    destruct (user (watcher_of s2 w')); [|apply R_refl].
    apply R_error, Hne.
  - match goal with |- R ?a _ => set (s3 := a) end.
    destruct (deep (watcher_of s3 w')); [|apply R_refl].
    unfold traverse. destruct res; [|apply R_refl].
    apply frame_foldl_depend.
Qed.

Lemma frame_computedGetter_with rb body w' res trav s :
  (forall s0, R s0 (rb body s0)) -> w' <> w ->
  R s (fst (computedGetter_with rb w' body res trav s)).
Proof.
  intros Hb Hne. unfold computedGetter_with, evaluate_with.
  destruct (dirty (watcher_of s w')).
  - pose proof (frame_get_with rb body w' res trav s Hb Hne) as Hg.
    destruct (get_with rb w' body res trav s) as [s1 [v|]]; simpl in *;
      [|exact Hg].
    assert (Hs : R s (set_value_clean w' v s1))
      by (eapply R_trans; [exact Hg|apply R_set_value_clean, Hne]).
    destruct (target s1); [|exact Hs].
    eapply R_trans; [exact Hs|apply frame_foldl_depend].
  - simpl. destruct (target s); [|apply R_refl]. apply frame_foldl_depend.
Qed.

Lemma frame_run_body body :
  Forall (fun a => foreign w a = true -> forall s, R s (exec a s)) body ->
  all_foreign w body = true ->
  forall s, R s (run_body body s).
Proof.
  induction 1 as [|a l Ha Hl IH]; intros Hf s; simpl; [apply R_refl|].
  rewrite all_foreign_cons in Hf. apply andb_true_iff in Hf as [Hf1 Hf2].
  eapply R_trans; [apply Ha, Hf1|apply IH, Hf2].
Qed.

Lemma frame_exec a : foreign w a = true -> forall s, R s (exec a s).
Proof.
  induction a as [d|w' body res trav IH|w' body res trav IH|body IH]
    using action_nested_ind; intros Hf s.
  - apply R_depend.
  - rewrite foreign_Evaluate in Hf. apply andb_true_iff in Hf as [Hw Hb].
    apply negb_true_iff, Nat.eqb_neq in Hw.
    rewrite exec_Evaluate. apply frame_get_with; [|exact Hw].
    intros s0. apply frame_run_body; assumption.
  - rewrite foreign_Computed in Hf. apply andb_true_iff in Hf as [Hw Hb].
    apply negb_true_iff, Nat.eqb_neq in Hw.
    rewrite exec_Computed. apply frame_computedGetter_with; [|exact Hw].
    intros s0. apply frame_run_body; assumption.
  - rewrite foreign_Untracked in Hf. rewrite exec_Untracked.
    eapply R_trans; [apply (R_pushTarget None)|].
    eapply R_trans; [|apply R_popTarget].
    apply frame_run_body; assumption.
Qed.

Lemma frame_body body :
  all_foreign w body = true -> forall s, R s (run_body body s).
Proof.
  intros Hf. apply frame_run_body; [|exact Hf].
  apply Forall_forall. intros a _. apply frame_exec.
Qed.
End Frame.

#[global] Instance event_eq_dec : EqDecision event.
Proof. solve_decision. Defined.

(** How often the getter of [w] was invoked among the events [l]. *)
Definition getter_calls (w : nat) (l : list event) : nat :=
  length (filter (fun e => e = EGetter w) l).

(** [quiet w s s']: between [s] and [s'] the getter of [w] was not invoked,
    and the flags and the value of [w] are the same. *)
Definition quiet (w : nat) (s s' : State) : Prop :=
  (exists l, log s' = log s ++ l /\ getter_calls w l = 0) /\
  dirty (watcher_of s' w) = dirty (watcher_of s w) /\
  lazy (watcher_of s' w) = lazy (watcher_of s w) /\
  value (watcher_of s' w) = value (watcher_of s w).

Lemma getter_calls_app w l1 l2 :
  getter_calls w (l1 ++ l2) = getter_calls w l1 + getter_calls w l2.
Proof. unfold getter_calls. rewrite filter_app, length_app. reflexivity. Qed.

Lemma quiet_refl w s : quiet w s s.
Proof.
  split; [|auto]. exists []. split; [symmetry; apply app_nil_r|reflexivity].
Qed.

Lemma quiet_trans w s1 s2 s3 : quiet w s1 s2 -> quiet w s2 s3 -> quiet w s1 s3.
Proof.
  intros [(l1 & E1 & C1) (D1 & L1 & V1)] [(l2 & E2 & C2) (D2 & L2 & V2)].
  split; [|repeat split; congruence].
  exists (l1 ++ l2). split; [rewrite E2, E1, app_assoc; reflexivity|].
  rewrite getter_calls_app. lia.
Qed.

Lemma quiet_same w s s' :
  log s' = log s -> watcher_of s' w = watcher_of s w -> quiet w s s'.
Proof.
  intros El Ew. split; [|rewrite Ew; auto].
  exists []. split; [rewrite El; symmetry; apply app_nil_r|reflexivity].
Qed.

Lemma quiet_emit w e s : e <> EGetter w -> quiet w s (emit e s).
Proof.
  intros He. split; [|auto]. exists [e]. split; [reflexivity|].
  unfold getter_calls. rewrite filter_cons, filter_nil.
  destruct (decide (e = EGetter w)); [congruence|reflexivity].
Qed.

Lemma quiet_addDep w w' d s : quiet w s (addDep w' d s).
Proof.
  unfold addDep.
  destruct (decide (d ∈ newDepIds (watcher_of s w'))); [apply quiet_refl|].
  assert (H : forall s1, log s1 = log s ->
            watcher_of s1 w
            = (if decide (w' = w) then note_newDep d (watcher_of s w')
               else watcher_of s w) -> quiet w s s1).
  { intros s1 El Ew. split.
    - exists []. split; [rewrite El; symmetry; apply app_nil_r|reflexivity].
    - rewrite Ew. destruct (decide (w' = w)) as [->|]; auto. }
  destruct (decide (d ∈ depIds (watcher_of s w'))); apply H;
    try reflexivity; unfold addSub; frame; reflexivity.
Qed.

Lemma quiet_depend w d s : quiet w s (depend d s).
Proof.
  unfold depend. destruct (target s) as [w'|]; [|apply quiet_refl].
  eapply quiet_trans; [apply (quiet_emit w (ETrack w' d)); discriminate|].
  apply quiet_addDep.
Qed.

Lemma quiet_cleanupDeps w w' s : quiet w s (cleanupDeps w' s).
Proof.
  split; [|rewrite cleanupDeps_watcher;
           destruct (decide (w' = w)) as [->|]; auto].
  exists []. split; [rewrite cleanupDeps_log; symmetry; apply app_nil_r|].
  reflexivity.
Qed.

Lemma quiet_set_value_clean w w' v s :
  w' <> w -> quiet w s (set_value_clean w' v s).
Proof.
  intros Hne. apply quiet_same; [reflexivity|].
  unfold set_value_clean. frame. destruct (decide (w' = w)); [tauto|reflexivity].
Qed.

Lemma quiet_popTarget w s : quiet w s (popTarget s).
Proof. apply quiet_same; reflexivity. Qed.

Lemma quiet_pushTarget w t s : quiet w s (pushTarget t s).
Proof. apply quiet_same; reflexivity. Qed.

(** A getter body that does not evaluate [w] again is quiet for [w]. *)
Lemma quiet_body w body s :
  all_foreign w body = true -> quiet w s (run_body body s).
Proof.
  intros Hf. apply (frame_body w (quiet w)); auto.
  - apply quiet_refl.
  - apply quiet_trans.
  - apply quiet_depend.
  - intros t s0. apply quiet_same; reflexivity.
  - intros s0. apply quiet_same; reflexivity.
  - intros w' s0 Hne. apply quiet_emit. congruence.
  - intros w' s0 Hne. apply quiet_emit. discriminate.
  - intros w' s0 _. apply quiet_cleanupDeps.
  - intros w' v s0 Hne. apply quiet_set_value_clean, Hne.
Qed.

Lemma quiet_foldl_depend w ds s :
  quiet w s (foldl (fun acc d => depend d acc) s ds).
Proof.
  revert s. induction ds as [|d ds IH]; intros s; simpl; [apply quiet_refl|].
  eapply quiet_trans; [apply quiet_depend|apply IH].
Qed.

(** *** Lazy watchers: the constructor and computedGetter *)

(** [new Watcher(vm, expOrFn, cb, options)]: [this.id = ++uid], the fields
    are initialised, and [this.value = this.lazy ? undefined : this.get()].
    The result names the new watcher. *)
Definition new_Watcher (o : Options) (g : Getter) (s : State)
  : State * nat * outcome :=
  let id := S (uid s) in
  let s1 := set_watcher id (init_watcher o)
              {| subs := subs s; watchers := watchers s; target := target s;
                 targetStack := targetStack s; uid := id; log := log s |} in
  if opt_lazy o then (s1, id, Return VUndefined)
  else
    match get id g s1 with
    | (s2, Return v) =>
        (set_watcher id (with_value v (watcher_of s2 id)) s2, id, Return v)
    | (s2, Throw) => (s2, id, Throw)
    end.

(** How often the getter of [w] was invoked between [s] and [s']. *)
Definition calls_between (w : nat) (s s' : State) : nat :=
  getter_calls w (drop (length (log s)) (log s')).

Lemma calls_between_app w s s' l :
  log s' = log s ++ l -> calls_between w s s' = getter_calls w l.
Proof. intros E. unfold calls_between. rewrite E, drop_app_length. reflexivity. Qed.

Lemma quiet_get_tail w g s :
  all_foreign w (g_body g) = true ->
  quiet w (emit (EGetter w) (pushTarget (Some w) s)) (fst (get w g s)).
Proof.
  intros Hf. unfold get. rewrite get_with_split.
  eapply quiet_trans; [|apply quiet_cleanupDeps].
  unfold get_until_cleanup.
  eapply quiet_trans; [apply quiet_body, Hf|].
  set (s2 := run_body _ _).
  eapply quiet_trans; [|eapply quiet_trans; [|apply quiet_popTarget]].
  - instantiate (1 := match g_res g with
                      | Throw => if user (watcher_of s2 w)
                                 then emit (EHandleError w) s2 else s2
                      | Return _ => s2
                      end).
    destruct (g_res g); [apply quiet_refl|].
    destruct (user (watcher_of s2 w)); [|apply quiet_refl].
    apply quiet_emit. discriminate.
  - match goal with |- quiet _ ?a _ => set (s3 := a) end.
    destruct (deep (watcher_of s3 w)); [|apply quiet_refl].
    unfold traverse. destruct (g_res g); [|apply quiet_refl].
    apply quiet_foldl_depend.
Qed.

(** One [get] invokes the getter once, and leaves [dirty] as it was. *)
Lemma get_calls_once w g s :
  all_foreign w (g_body g) = true ->
  calls_between w s (fst (get w g s)) = 1 /\
  (exists l, log (fst (get w g s)) = log s ++ l) /\
  dirty (watcher_of (fst (get w g s)) w) = dirty (watcher_of s w).
Proof.
  intros Hf. destruct (quiet_get_tail w g s Hf) as [(l & El & Cl) (D & _ & _)].
  change (log (emit (EGetter w) (pushTarget (Some w) s)))
    with (log s ++ [EGetter w]) in El.
  change (watcher_of (emit (EGetter w) (pushTarget (Some w) s)) w)
    with (watcher_of s w) in D.
  assert (E : log (fst (get w g s)) = log s ++ (EGetter w :: l))
    by (rewrite El, <- app_assoc; reflexivity).
  split; [|split; [eauto|exact D]].
  rewrite (calls_between_app _ _ _ _ E).
  change (EGetter w :: l) with ([EGetter w] ++ l).
  rewrite getter_calls_app, Cl. unfold getter_calls.
  rewrite filter_cons, filter_nil.
  destruct (decide (EGetter w = EGetter w)); [reflexivity|congruence].
Qed.



(** *** Reads inside a data function or a lifecycle hook *)

(** A tracked read, as opposed to a nested evaluation or hook. *)
Definition is_read (a : action) : bool :=
  match a with Depend _ => true | _ => false end.

(** [hook_safe a]: the data functions and hooks called inside [a] only
    read cells; they evaluate no watcher and call no further hook. *)
Fixpoint hook_safe (a : action) {struct a} : bool :=
  let all := fix all (l : list action) : bool :=
               match l with
               | [] => true
               | x :: r => hook_safe x && all r
               end in
  match a with
  | Depend _ => true
  | Evaluate _ body _ _ => all body
  | Computed _ body _ _ => all body
  | Untracked body => forallb is_read body
  end.

Definition all_hook_safe : list action -> bool :=
  fix all (l : list action) : bool :=
    match l with
    | [] => true
    | x :: r => hook_safe x && all r
    end.

Lemma all_hook_safe_cons x r :
  all_hook_safe (x :: r) = hook_safe x && all_hook_safe r.
Proof. reflexivity. Qed.

Lemma hook_safe_Evaluate w body res trav :
  hook_safe (Evaluate w body res trav) = all_hook_safe body.
Proof. reflexivity. Qed.

Lemma hook_safe_Computed w body res trav :
  hook_safe (Computed w body res trav) = all_hook_safe body.
Proof. reflexivity. Qed.

Lemma depend_no_target d s : target s = None -> depend d s = s.
Proof. intros H. unfold depend. rewrite H. reflexivity. Qed.

Lemma run_body_reads_no_target body : forall s,
  forallb is_read body = true -> target s = None -> run_body body s = s.
Proof.
  induction body as [|a body IH]; intros s Hb Ht; simpl; [reflexivity|].
  simpl in Hb. apply andb_true_iff in Hb as [Ha Hb].
  destruct a as [d| | |]; try discriminate. simpl.
  rewrite (depend_no_target d s Ht). apply IH; assumption.
Qed.

(** The target in force when a watcher is being evaluated, or when no
    evaluation is going on at all. *)
Definition target_settled (s : State) : Prop :=
  target s <> None \/ targetStack s = [].

Lemma exec_Untracked_reads body s :
  forallb is_read body = true ->
  target_settled s ->
  exec (Untracked body) s = s.
Proof.
  intros Hb Hs. rewrite exec_Untracked.
  rewrite run_body_reads_no_target by (exact Hb || reflexivity).
  destruct s as [sb ws t st u l]. unfold popTarget, pushTarget; simpl.
  destruct t as [c|]; simpl.
  - rewrite last_snoc, removelast_last. reflexivity.
  - destruct Hs as [Hs|Hs]; simpl in Hs; [congruence|]. subst st. reflexivity.
Qed.

(** X1.  Reads made between [pushTarget()] and [popTarget()], as in
    [getData] and [callHook], subscribe nobody: when a watcher is being
    evaluated (or nothing is on the target stack), a data function or hook
    that only reads reactive cells leaves the whole tracking state as it
    found it, the target and its stack included. *)
Theorem untracked_reads_subscribe_nobody body s :
  forallb is_read body = true ->
  target_settled s ->
  exec (Untracked body) s = s.
Proof. apply exec_Untracked_reads. Qed.

(** A render watcher 7 that has read cell 10 and is being evaluated. *)
Definition rendering_7 : State :=
  emit (EGetter 7)
    (pushTarget (Some 7)
       (fst (get 7 (mkGetter [Depend 10] (Return VUndefined) [])
               empty_state))).

Lemma untracked_reads_subscribe_nobody_witness :
  exec (Untracked [Depend 10; Depend 11]) rendering_7 = rendering_7.
Proof.
  apply (untracked_reads_subscribe_nobody [Depend 10; Depend 11] rendering_7).
  - reflexivity.
  - left. vm_compute. discriminate.
Defined.

(** *** When get restores the target *)

Lemma get_with_restores rb w body res trav s :
  (forall s0, target s0 <> None ->
     target (rb body s0) = target s0 /\
     targetStack (rb body s0) = targetStack s0) ->
  target_settled s ->
  let s' := fst (get_with rb w body res trav s) in
  target s' = target s /\ targetStack s' = targetStack s.
Proof.
  intros Hb Hs s'. subst s'. rewrite get_with_split.
  destruct (cleanupDeps_target w
              (get_until_cleanup rb w body res trav s)) as [-> ->].
  unfold get_until_cleanup.
  set (s2 := rb body _).
  assert (H2 : targetStack s2 = targetStack (pushTarget (Some w) s)).
  { subst s2. destruct (Hb (emit (EGetter w) (pushTarget (Some w) s)))
      as [_ ->]; [discriminate|reflexivity]. }
  set (s3 := match res with Throw => _ | Return _ => _ end).
  assert (H3 : targetStack s3 = targetStack s2).
  { subst s3. destruct res; [auto|].
    destruct (user (watcher_of s2 w)); auto. }
  set (s4 := if deep _ then _ else _).
  assert (H4 : targetStack s4 = targetStack s3).
  { subst s4. destruct (deep (watcher_of s3 w)); [|auto].
    unfold traverse. destruct res; [|auto]. apply foldl_depend_target. }
  simpl. rewrite H4, H3, H2. simpl.
  destruct (target s) as [t|] eqn:Et.
  - rewrite last_snoc, removelast_last. auto.
  - destruct Hs as [Hs|Hs]; [congruence|]. rewrite Hs. auto.
Qed.

Lemma computedGetter_with_restores rb w body res trav s :
  (forall s0, target s0 <> None ->
     target (rb body s0) = target s0 /\
     targetStack (rb body s0) = targetStack s0) ->
  target_settled s ->
  let s' := fst (computedGetter_with rb w body res trav s) in
  target s' = target s /\ targetStack s' = targetStack s.
Proof.
  intros Hb Hs. unfold computedGetter_with, evaluate_with.
  destruct (dirty (watcher_of s w)).
  - pose proof (get_with_restores rb w body res trav s Hb Hs) as Hg.
    destruct (get_with rb w body res trav s) as [s1 [v|]]; simpl in *;
      [|exact Hg].
    destruct Hg as [Ht Hst]. rewrite Ht.
    destruct (target s); simpl; [|auto]. unfold watcher_depend.
    destruct (foldl_depend_target
                (reverse (deps (watcher_of (set_value_clean w v s1) w)))
                (set_value_clean w v s1)) as [-> ->].
    simpl. auto.
  - simpl. destruct (target s) eqn:Et; simpl; [|auto]. unfold watcher_depend.
    destruct (foldl_depend_target (reverse (deps (watcher_of s w))) s)
      as [-> ->]. auto.
Qed.

Lemma restores_run_body body :
  Forall (fun a => hook_safe a = true -> forall s, target_settled s ->
            target (exec a s) = target s /\
            targetStack (exec a s) = targetStack s) body ->
  all_hook_safe body = true ->
  forall s, target_settled s ->
    target (run_body body s) = target s /\
    targetStack (run_body body s) = targetStack s.
Proof.
  induction 1 as [|a l Ha Hl IH]; intros Hf s Hs; simpl; [auto|].
  rewrite all_hook_safe_cons in Hf. apply andb_true_iff in Hf as [Hf1 Hf2].
  destruct (Ha Hf1 s Hs) as [E1 E2].
  destruct (IH Hf2 (exec a s)) as [-> ->]; [|auto].
  unfold target_settled. rewrite E1, E2. exact Hs.
Qed.

Lemma restores_exec a :
  hook_safe a = true -> forall s, target_settled s ->
  target (exec a s) = target s /\ targetStack (exec a s) = targetStack s.
Proof.
  induction a as [d|w body res trav IH|w body res trav IH|body IH]
    using action_nested_ind; intros Hf s Hs.
  - apply exec_Depend_target.
  - rewrite hook_safe_Evaluate in Hf. rewrite exec_Evaluate.
    apply (get_with_restores run_body w body res trav s); [|exact Hs].
    intros s0 H0. apply restores_run_body; [exact IH|exact Hf|left; exact H0].
  - rewrite hook_safe_Computed in Hf. rewrite exec_Computed.
    apply (computedGetter_with_restores run_body w body res trav s);
      [|exact Hs].
    intros s0 H0. apply restores_run_body; [exact IH|exact Hf|left; exact H0].
  - simpl in Hf. rewrite (exec_Untracked_reads body s Hf Hs). auto.
Qed.

Lemma restores_body body s :
  all_hook_safe body = true -> target_settled s ->
  target (run_body body s) = target s /\
  targetStack (run_body body s) = targetStack s.
Proof.
  intros Hf. apply restores_run_body; [|exact Hf].
  apply Forall_forall. intros a _. apply restores_exec.
Qed.

Lemma get_restores w g s :
  all_hook_safe (g_body g) = true -> target_settled s ->
  target (fst (get w g s)) = target s /\
  targetStack (fst (get w g s)) = targetStack s.
Proof.
  intros Hf Hs. apply (get_with_restores run_body); [|exact Hs].
  intros s0 H0. apply restores_body; [exact Hf|left; exact H0].
Qed.

(** X2.  Outside data functions and hooks [get] is balanced: entered while
    a watcher is being evaluated, or with an empty target stack, it leaves
    [Dep.target] and the stack as it found them, whether the getter
    returns or throws, provided the hooks called by the getter (at any
    depth) only read cells.  The same holds for [run] and for reading a
    computed property. *)
Theorem get_restores_target_outside_hooks w g cb_throws s :
  all_hook_safe (g_body g) = true ->
  target_settled s ->
  (let s' := fst (get w g s) in
   target s' = target s /\ targetStack s' = targetStack s) /\
  (let s' := fst (run w g cb_throws s) in
   target s' = target s /\ targetStack s' = targetStack s) /\
  (let s' := fst (computedGetter w g s) in
   target s' = target s /\ targetStack s' = targetStack s).
Proof.
  intros Hf Hs. pose proof (get_restores w g s Hf Hs) as Hg.
  split; [exact Hg|]. split.
  - unfold run. destruct (active (watcher_of s w)); [|auto].
    destruct (get w g s) as [s1 [v|]]; simpl in *; [|exact Hg].
    destruct (strict_ne v (value (watcher_of s1 w)) || isObject v
              || deep (watcher_of s1 w)); simpl; [|exact Hg].
    destruct cb_throws; [destruct (user (watcher_of s1 w))|]; exact Hg.
  - apply (computedGetter_with_restores run_body); [|exact Hs].
    intros s0 H0. apply restores_body; [exact Hf|left; exact H0].
Qed.

(** The render watcher 7 reads the computed property of watcher 3, whose
    getter throws, and a hook that reads cell 11. *)
Definition render_with_throwing_computed : Getter :=
  mkGetter [Computed 3 [Depend 10] Throw []; Untracked [Depend 11]]
           (Return VUndefined) [].

Lemma get_restores_target_outside_hooks_witness :
  let s := pushTarget (Some 5) with_computed_3 in
  (let s' := fst (get 7 render_with_throwing_computed s) in
   target s' = target s /\ targetStack s' = targetStack s) /\
  (let s' := fst (run 7 render_with_throwing_computed false s) in
   target s' = target s /\ targetStack s' = targetStack s) /\
  (let s' := fst (computedGetter 7 render_with_throwing_computed s) in
   target s' = target s /\ targetStack s' = targetStack s).
Proof.
  intros s.
  apply (get_restores_target_outside_hooks 7 render_with_throwing_computed
           false s).
  - reflexivity.
  - left. discriminate.
Defined.

(** *** teardown *)

(** [teardown ()].  [vm_watchers] is [this.vm._watchers] and
    [being_destroyed] is [this.vm._isBeingDestroyed]; the result carries
    the list as the call leaves it. *)
Definition teardown (w : nat) (being_destroyed : bool)
    (vm_watchers : list nat) (s : State) : list nat * State :=
  let x := watcher_of s w in
  if active x then
    let ws := if being_destroyed then vm_watchers
              else remove vm_watchers w in
    let s1 := foldl (fun acc d => removeSub d w acc) s (reverse (deps x)) in
    (ws, set_watcher w (with_active false (watcher_of s1 w)) s1)
  else (vm_watchers, s).

Lemma teardown_loop_cleanup w ds s :
  foldl (fun acc d => removeSub d w acc) s (reverse ds)
  = cleanup_loop w ∅ ds s.
Proof.
  unfold cleanup_loop. generalize (reverse ds). intros l. revert s.
  induction l as [|d l IH]; intros s; simpl; [reflexivity|].
  destruct (decide (d ∈ (∅ : gset nat))) as [Hd|_]; [set_solver|]. apply IH.
Qed.

(** X3.  [teardown] of an active watcher that is not in the middle of an
    evaluation takes it out of the subscriber list of every dep and marks
    it inactive; the subscriptions of other watchers stay.  The watcher is
    removed from [vm._watchers] unless the instance is being destroyed.  A
    second [teardown] does nothing, and a later [run] (from the scheduler
    or a sync update) returns without calling the getter or the
    callback. *)
Theorem teardown_unsubscribes w being_destroyed vm_watchers s :
  consistent s ->
  newDepIds (watcher_of s w) = ∅ ->
  active (watcher_of s w) = true ->
  let ws := fst (teardown w being_destroyed vm_watchers s) in
  let s' := snd (teardown w being_destroyed vm_watchers s) in
  (forall d, w ∉ subs_of s' d) /\
  (forall d w', w' <> w -> w' ∈ subs_of s' d <-> w' ∈ subs_of s d) /\
  (forall d, NoDup (subs_of s' d)) /\
  active (watcher_of s' w) = false /\
  log s' = log s /\
  ws = (if being_destroyed then vm_watchers else remove vm_watchers w) /\
  teardown w being_destroyed ws s' = (ws, s') /\
  (forall g cb_throws, run w g cb_throws s' = (s', Return VUndefined)).
Proof.
  intros (H1 & H2 & H3 & H4) Hn Ha ws s'. subst ws s'.
  unfold teardown. rewrite Ha. simpl.
  rewrite teardown_loop_cleanup.
  destruct (cleanup_loop_spec w ∅ (deps (watcher_of s w)) s H1)
    as (A & B & C & _ & _ & L & _).
  set (s1 := cleanup_loop _ _ _ _) in *.
  assert (Hact : active (watcher_of
            (set_watcher w (with_active false (watcher_of s1 w)) s1) w)
          = false).
  { rewrite watcher_of_set_watcher.
    destruct (decide (w = w)); [reflexivity|congruence]. }
  split; [|split; [|split; [|split; [|split; [|split; [|split]]]]]].
  - intros d. frame. rewrite B. intros [Hin Hnot]. apply Hnot.
    split; [reflexivity|]. split; [|set_solver].
    apply H3. apply H2 in Hin. rewrite Hn in Hin. set_solver.
  - intros d w' Hne. frame. rewrite B. naive_solver.
  - intros d. frame. apply A.
  - exact Hact.
  - exact L.
  - reflexivity.
  - rewrite Hact. reflexivity.
  - intros g cb_throws. unfold run. rewrite Hact. reflexivity.
Qed.

Lemma teardown_unsubscribes_witness :
  let s := fst (get 1 first_run empty_state) in
  let ws := fst (teardown 1 false [1; 2] s) in
  let s' := snd (teardown 1 false [1; 2] s) in
  (forall d, 1 ∉ subs_of s' d) /\
  (forall d w', w' <> 1 -> w' ∈ subs_of s' d <-> w' ∈ subs_of s d) /\
  (forall d, NoDup (subs_of s' d)) /\
  active (watcher_of s' 1) = false /\
  log s' = log s /\
  ws = remove [1; 2] 1 /\
  teardown 1 false ws s' = (ws, s') /\
  (forall g cb_throws, run 1 g cb_throws s' = (s', Return VUndefined)).
Proof.
  intros s.
  apply (teardown_unsubscribes 1 false [1; 2] s).
  - apply consistent_get, consistent_empty.
  - vm_compute. reflexivity.
  - reflexivity.
Defined.

(** *** When run calls the callback *)

Definition is_callback (e : event) : bool :=
  match e with ECallback _ _ _ => true | _ => false end.

(** The callback invocations between the states [s] and [s'], and how
    often an error of watcher [w] was handed to [handleError]. *)
Definition callbacks_between (s s' : State) : list event :=
  filter (fun e => is_callback e = true) (drop (length (log s)) (log s')).

Definition errors_between (w : nat) (s s' : State) : nat :=
  length (filter (fun e => e = EHandleError w)
                 (drop (length (log s)) (log s'))).

(** What [steady] asks of the events in between. *)
Definition silent (w : nat) (l : list event) : Prop :=
  Forall (fun e => is_callback e = false /\ e <> EHandleError w) l.

(** [steady w s s']: between [s] and [s'] no callback was called and no
    error of [w] was handed to [handleError], and the value and the flags
    of [w] are the same. *)
Definition steady (w : nat) (s s' : State) : Prop :=
  (exists l, log s' = log s ++ l /\ silent w l) /\
  value (watcher_of s' w) = value (watcher_of s w) /\
  deep (watcher_of s' w) = deep (watcher_of s w) /\
  user (watcher_of s' w) = user (watcher_of s w) /\
  active (watcher_of s' w) = active (watcher_of s w).

Lemma steady_refl w s : steady w s s.
Proof.
  split; [|auto]. exists []. split; [symmetry; apply app_nil_r|constructor].
Qed.

Lemma steady_trans w s1 s2 s3 :
  steady w s1 s2 -> steady w s2 s3 -> steady w s1 s3.
Proof.
  intros [(l1 & E1 & C1) (V1 & D1 & U1 & A1)]
         [(l2 & E2 & C2) (V2 & D2 & U2 & A2)].
  split; [|repeat split; congruence].
  exists (l1 ++ l2). split; [rewrite E2, E1, app_assoc; reflexivity|].
  apply Forall_app; auto.
Qed.

Lemma steady_same w s s' :
  log s' = log s -> watcher_of s' w = watcher_of s w -> steady w s s'.
Proof.
  intros El Ew. split; [|rewrite Ew; auto].
  exists []. split; [rewrite El; symmetry; apply app_nil_r|constructor].
Qed.

Lemma steady_emit w e s :
  is_callback e = false -> e <> EHandleError w -> steady w s (emit e s).
Proof.
  intros H1 H2. split; [|auto]. exists [e]. split; [reflexivity|].
  repeat constructor; assumption.
Qed.

Lemma steady_addDep w w' d s : steady w s (addDep w' d s).
Proof.
  unfold addDep.
  destruct (decide (d ∈ newDepIds (watcher_of s w'))); [apply steady_refl|].
  assert (H : forall s1, log s1 = log s ->
            watcher_of s1 w
            = (if decide (w' = w) then note_newDep d (watcher_of s w')
               else watcher_of s w) -> steady w s s1).
  { intros s1 El Ew. split.
    - exists []. split; [rewrite El; symmetry; apply app_nil_r|constructor].
    - rewrite Ew. destruct (decide (w' = w)) as [->|]; auto. }
  destruct (decide (d ∈ depIds (watcher_of s w'))); apply H;
    try reflexivity; unfold addSub; frame; reflexivity.
Qed.

Lemma steady_depend w d s : steady w s (depend d s).
Proof.
  unfold depend. destruct (target s) as [w'|]; [|apply steady_refl].
  eapply steady_trans;
    [apply (steady_emit w (ETrack w' d)); [reflexivity|discriminate]|].
  apply steady_addDep.
Qed.

Lemma steady_foldl_depend w ds s :
  steady w s (foldl (fun acc d => depend d acc) s ds).
Proof.
  revert s. induction ds as [|d ds IH]; intros s; simpl; [apply steady_refl|].
  eapply steady_trans; [apply steady_depend|apply IH].
Qed.

Lemma steady_cleanupDeps w w' s : steady w s (cleanupDeps w' s).
Proof.
  split; [|rewrite cleanupDeps_watcher;
           destruct (decide (w' = w)) as [->|]; auto].
  exists []. split; [rewrite cleanupDeps_log; symmetry; apply app_nil_r|].
  constructor.
Qed.

Lemma steady_set_value_clean w w' v s :
  w' <> w -> steady w s (set_value_clean w' v s).
Proof.
  intros Hne. apply steady_same; [reflexivity|].
  unfold set_value_clean. frame. destruct (decide (w' = w)); [tauto|reflexivity].
Qed.

(** The state in which the getter of [w] has run, up to the [catch]
    clause of [get]. *)
Definition after_getter (w : nat) (g : Getter) (s : State) : State :=
  run_body (g_body g) (emit (EGetter w) (pushTarget (Some w) s)).

Lemma steady_after_getter w g s :
  all_foreign w (g_body g) = true -> steady w s (after_getter w g s).
Proof.
  intros Hf. unfold after_getter.
  eapply steady_trans; [apply (steady_same w s (pushTarget (Some w) s));
                        reflexivity|].
  eapply steady_trans;
    [apply (steady_emit w (EGetter w)); [reflexivity|discriminate]|].
  apply (frame_body w (steady w)); auto.
  - apply steady_refl.
  - apply steady_trans.
  - apply steady_depend.
  - intros t s0. apply steady_same; reflexivity.
  - intros s0. apply steady_same; reflexivity.
  - intros w' s0 _. apply steady_emit; [reflexivity|discriminate].
  - intros w' s0 Hne. apply steady_emit; [reflexivity|congruence].
  - intros w' s0 _. apply steady_cleanupDeps.
  - intros w' v s0 Hne. apply steady_set_value_clean, Hne.
Qed.

(** What [get] does after the [catch] clause: [traverse] for a deep
    watcher, [popTarget] and [cleanupDeps]. *)
Lemma steady_get_finally w g s2 :
  let s4 := if deep (watcher_of s2 w)
            then traverse (g_res g) (g_trav g) s2 else s2 in
  steady w s2 (cleanupDeps w (popTarget s4)).
Proof.
  intros s4. eapply steady_trans; [|apply steady_cleanupDeps].
  eapply steady_trans;
    [|apply (steady_same w s4 (popTarget s4)); reflexivity].
  subst s4. destruct (deep (watcher_of s2 w)); [|apply steady_refl].
  unfold traverse. destruct (g_res g); [|apply steady_refl].
  apply steady_foldl_depend.
Qed.

(** A [get] whose getter returns, or throws in a watcher that is not a
    user watcher, is steady. *)
Lemma steady_get w g s :
  all_foreign w (g_body g) = true ->
  g_res g <> Throw \/ user (watcher_of s w) = false ->
  steady w s (fst (get w g s)).
Proof.
  intros Hf Hres. pose proof (steady_after_getter w g s Hf) as H2.
  unfold get, get_with. fold (after_getter w g s). simpl.
  set (s2 := after_getter w g s) in *.
  assert (Hu : user (watcher_of s2 w) = user (watcher_of s w))
    by apply H2.
  set (s3 := match g_res g with Throw => _ | Return _ => _ end).
  assert (E3 : s3 = s2).
  { subst s3. destruct (g_res g); [reflexivity|].
    destruct Hres as [Hres|Hres]; [congruence|].
    rewrite Hu, Hres. reflexivity. }
  rewrite E3. eapply steady_trans; [exact H2|]. apply steady_get_finally.
Qed.

Lemma get_outcome w g s :
  all_foreign w (g_body g) = true ->
  snd (get w g s)
  = match g_res g with
    | Return v => Return v
    | Throw => if user (watcher_of s w) then Return VUndefined else Throw
    end.
Proof.
  intros Hf. pose proof (steady_after_getter w g s Hf) as H2.
  unfold get, get_with. fold (after_getter w g s). simpl.
  destruct (g_res g); [reflexivity|].
  destruct H2 as (_ & _ & _ & -> & _). reflexivity.
Qed.

Lemma steady_get_user_throw w g s :
  all_foreign w (g_body g) = true ->
  g_res g = Throw -> user (watcher_of s w) = true ->
  steady w (emit (EHandleError w) (after_getter w g s)) (fst (get w g s)).
Proof.
  intros Hf Hres Hu. pose proof (steady_after_getter w g s Hf) as H2.
  assert (Hu2 : user (watcher_of (after_getter w g s) w) = true).
  { destruct H2 as (_ & _ & _ & -> & _). exact Hu. }
  unfold get, get_with. fold (after_getter w g s). simpl.
  rewrite Hres, Hu2. rewrite <- Hres. apply steady_get_finally.
Qed.

Lemma steady_callbacks w s s' :
  steady w s s' -> callbacks_between s s' = [] /\ errors_between w s s' = 0.
Proof.
  intros [(l & El & Hl) _]. unfold callbacks_between, errors_between.
  rewrite El, drop_app_length. clear El.
  induction Hl as [|e l [H1 H2] Hl [IH1 IH2]]; [auto|].
  rewrite !filter_cons.
  destruct (decide (is_callback e = true)); [congruence|].
  destruct (decide (e = EHandleError w)); [congruence|]. auto.
Qed.

Lemma between_log s s' l :
  log s' = log s ++ l ->
  callbacks_between s s' = filter (fun e => is_callback e = true) l /\
  forall w, errors_between w s s'
            = length (filter (fun e => e = EHandleError w) l).
Proof.
  intros El. unfold callbacks_between, errors_between.
  rewrite El, drop_app_length. auto.
Qed.

Lemma silent_filter w l :
  silent w l ->
  filter (fun e => is_callback e = true) l = [] /\
  filter (fun e => e = EHandleError w) l = [].
Proof.
  induction 1 as [|e l [H1 H2] Hl [IH1 IH2]]; [auto|].
  rewrite !filter_cons.
  destruct (decide (is_callback e = true)); [congruence|].
  destruct (decide (e = EHandleError w)); [congruence|]. auto.
Qed.

(** The events of a [run] after its [get]. *)
Lemma run_after_get w g cb_throws s s1 v :
  active (watcher_of s w) = true ->
  get w g s = (s1, Return v) ->
  let x := watcher_of s1 w in
  let fire := strict_ne v (value x) || isObject v || deep x in
  let r := run w g cb_throws s in
  log (fst r)
  = log s1 ++ (if fire
               then ECallback w v (value x)
                    :: (if cb_throws && user x then [EHandleError w] else [])
               else []) /\
  value (watcher_of (fst r) w) = (if fire then v else value x) /\
  snd r = (if fire && cb_throws && negb (user x)
           then Throw else Return VUndefined).
Proof.
  intros Ha Hg x fire r. subst r. unfold run. rewrite Ha, Hg.
  fold x. fold fire. destruct fire; simpl.
  - assert (Hv : forall s', watchers s' = watchers
                (set_watcher w (with_value v x) s1) ->
              value (watcher_of s' w) = v).
    { intros s' E. unfold watcher_of. rewrite E.
      fold (watcher_of (set_watcher w (with_value v x) s1) w).
      rewrite watcher_of_set_watcher.
      destruct (decide (w = w)); [reflexivity|congruence]. }
    destruct cb_throws; [destruct (user x)|]; simpl;
      rewrite ?app_nil_r, <- ?app_assoc; repeat split;
      try (apply Hv; reflexivity).
  - rewrite app_nil_r. auto.
Qed.

(** X4.  [run] of an active watcher whose getter returns [v]: the
    callback is called, once and with the new and the old value, exactly
    when [v !== old], or [v] is an object, or the watcher is deep; the
    stored value is replaced in that case only.  (A getter that returns
    NaN thus fires on every run, since NaN !== NaN.)  An exception of the
    callback is handed to [handleError] for a user watcher and leaves
    [run] otherwise. *)
Theorem run_calls_back_iff_changed w g cb_throws s v :
  active (watcher_of s w) = true ->
  all_foreign w (g_body g) = true ->
  g_res g = Return v ->
  let old := value (watcher_of s w) in
  let fire := strict_ne v old || isObject v || deep (watcher_of s w) in
  let r := run w g cb_throws s in
  callbacks_between s (fst r) = (if fire then [ECallback w v old] else []) /\
  value (watcher_of (fst r) w) = (if fire then v else old) /\
  snd r = (if fire && cb_throws && negb (user (watcher_of s w))
           then Throw else Return VUndefined) /\
  errors_between w s (fst r)
  = (if fire && cb_throws && user (watcher_of s w) then 1 else 0).
Proof.
  intros Ha Hf Hres old fire r.
  assert (Hst : steady w s (fst (get w g s)))
    by (apply steady_get; [exact Hf|left; congruence]).
  pose proof (get_outcome w g s Hf) as Ho. rewrite Hres in Ho.
  destruct (get w g s) as [s1 o] eqn:Hg. simpl in Ho, Hst. subst o.
  destruct (run_after_get w g cb_throws s s1 v Ha Hg) as (El & Ev & Er).
  destruct Hst as [(l & El1 & Hl) (V & D & U & _)].
  rewrite ?V, ?D, ?U in El. rewrite ?V, ?D, ?U in Ev.
  rewrite ?V, ?D, ?U in Er.
  fold old in El, Ev, Er. fold fire in El, Ev, Er. fold r in El, Ev, Er.
  rewrite El1, <- app_assoc in El.
  destruct (between_log s (fst r) _ El) as [Hc He].
  destruct (silent_filter w l Hl) as [F1 F2].
  rewrite Hc, (He w), !filter_app, F1, F2. simpl.
  split; [|split; [exact Ev|split; [exact Er|]]].
  - destruct fire; [|reflexivity]. simpl.
    destruct (cb_throws && user (watcher_of s w)); reflexivity.
  - destruct fire; [|reflexivity]. simpl.
    destruct cb_throws, (user (watcher_of s w)); simpl; try reflexivity.
    rewrite !filter_cons.
    destruct (decide (ECallback w v old = EHandleError w)); [discriminate|].
    destruct (decide (EHandleError w = EHandleError w)); [|congruence].
    reflexivity.
Qed.

(** A user watcher on [count] whose value was 1. *)
Definition counting_1 : State :=
  fst (fst (new_Watcher (mkOptions false true false false)
              (mkGetter [Depend 10] (Return (VNum (Fin 1))) []) empty_state)).

Lemma run_calls_back_iff_changed_witness :
  let g := mkGetter [Depend 10] (Return (VNum NaN)) [] in
  let r := run 1 g true counting_1 in
  callbacks_between counting_1 (fst r)
  = [ECallback 1 (VNum NaN) (VNum (Fin 1))] /\
  value (watcher_of (fst r) 1) = VNum NaN /\
  snd r = Return VUndefined /\
  errors_between 1 counting_1 (fst r) = 1.
Proof.
  intros g.
  apply (run_calls_back_iff_changed 1 g true counting_1 (VNum NaN));
    reflexivity.
Defined.

(** X5.  [run] of an active watcher whose getter throws.  For a watcher
    that is not a user watcher the exception leaves [run]: no callback is
    called and the stored value stays.  For a user watcher the exception
    is handed to [handleError] and the run goes on with the value
    [undefined]: the callback is called with [undefined] and the old value
    when the old value was not [undefined] (or the watcher is deep), and
    [run] returns normally. *)
Theorem run_when_getter_throws w g cb_throws s :
  active (watcher_of s w) = true ->
  all_foreign w (g_body g) = true ->
  g_res g = Throw ->
  let old := value (watcher_of s w) in
  let r := run w g cb_throws s in
  (user (watcher_of s w) = false ->
   snd r = Throw /\ callbacks_between s (fst r) = [] /\
   errors_between w s (fst r) = 0 /\
   value (watcher_of (fst r) w) = old) /\
  (user (watcher_of s w) = true ->
   let fire := strict_ne VUndefined old || deep (watcher_of s w) in
   snd r = Return VUndefined /\
   callbacks_between s (fst r)
   = (if fire then [ECallback w VUndefined old] else []) /\
   errors_between w s (fst r) = (if fire && cb_throws then 2 else 1) /\
   value (watcher_of (fst r) w) = (if fire then VUndefined else old)).
Proof.
  intros Ha Hf Hres old r.
  pose proof (get_outcome w g s Hf) as Ho. rewrite Hres in Ho.
  split; intros Hu; rewrite Hu in Ho.
  - assert (Hst : steady w s (fst (get w g s)))
      by (apply steady_get; [exact Hf|right; exact Hu]).
    destruct (get w g s) as [s1 o] eqn:Hget. simpl in Ho, Hst. subst o.
    subst r. unfold run. rewrite Ha, Hget. simpl.
    destruct (steady_callbacks w s s1 Hst) as [-> ->].
    destruct Hst as (_ & -> & _). auto.
  - pose proof (steady_after_getter w g s Hf) as H2.
    pose proof (steady_get_user_throw w g s Hf Hres Hu) as H3.
    destruct (get w g s) as [s1 o] eqn:Hget. simpl in Ho.
    change (fst (s1, o)) with s1 in H3. subst o.
    destruct (run_after_get w g cb_throws s s1 VUndefined Ha Hget)
      as (El & Ev & Er).
    fold r in El, Ev, Er.
    destruct H2 as [(l2 & El2 & Hl2) (V2 & D2 & U2 & _)].
    destruct H3 as [(l3 & El3 & Hl3) (V3 & D3 & U3 & _)].
    change (watcher_of (emit (EHandleError w) (after_getter w g s)) w)
      with (watcher_of (after_getter w g s) w) in V3, D3, U3.
    rewrite ?V3, ?V2, ?D3, ?D2, ?U3, ?U2, ?Hu in El.
    rewrite ?V3, ?V2, ?D3, ?D2, ?U3, ?U2, ?Hu in Ev.
    rewrite ?V3, ?V2, ?D3, ?D2, ?U3, ?U2, ?Hu in Er.
    fold old in El, Ev, Er. simpl in El, Ev, Er.
    rewrite orb_false_r in El, Ev, Er.
    change (log (emit (EHandleError w) (after_getter w g s)))
      with (log (after_getter w g s) ++ [EHandleError w]) in El3.
    rewrite El3, El2, <- !app_assoc in El.
    destruct (between_log s (fst r) _ El) as [Hc He].
    destruct (silent_filter w l2 Hl2) as [F1 F2].
    destruct (silent_filter w l3 Hl3) as [G1 G2].
    rewrite Hc, (He w), !filter_app, F1, F2, G1, G2. simpl.
    rewrite !andb_false_r in Er.
    split; [exact Er|]. split; [|split; [|exact Ev]].
    + destruct (strict_ne VUndefined old || deep (watcher_of s w));
        [|reflexivity].
      destruct (cb_throws && true); reflexivity.
    + rewrite !filter_cons.
      destruct (decide (EHandleError w = EHandleError w)); [|congruence].
      rewrite filter_nil. simpl.
      destruct (strict_ne VUndefined old || deep (watcher_of s w));
        [|reflexivity]. simpl.
      rewrite filter_cons.
      destruct (decide (ECallback w VUndefined old = EHandleError w));
        [discriminate|].
      destruct cb_throws; simpl; [|reflexivity].
      rewrite filter_cons.
      destruct (decide (EHandleError w = EHandleError w)); [|congruence].
      reflexivity.
Qed.

Lemma run_when_getter_throws_witness :
  let g := mkGetter [Depend 10] Throw [] in
  let r := run 1 g false counting_1 in
  (true = false ->
   snd r = Throw /\ callbacks_between counting_1 (fst r) = [] /\
   errors_between 1 counting_1 (fst r) = 0 /\
   value (watcher_of (fst r) 1) = VNum (Fin 1)) /\
  (true = true ->
   snd r = Return VUndefined /\
   callbacks_between counting_1 (fst r)
   = [ECallback 1 VUndefined (VNum (Fin 1))] /\
   errors_between 1 counting_1 (fst r) = 1 /\
   value (watcher_of (fst r) 1) = VUndefined).
Proof.
  intros g.
  apply (run_when_getter_throws 1 g false counting_1); reflexivity.
Defined.

(** *** Reading a computed property inside another watcher *)

Lemma addDep_deps w d s w' :
  deps (watcher_of (addDep w d s) w') = deps (watcher_of s w').
Proof.
  unfold addDep.
  destruct (decide (d ∈ newDepIds (watcher_of s w))); [reflexivity|].
  assert (H : deps (watcher_of (set_watcher w (note_newDep d (watcher_of s w)) s)
                      w') = deps (watcher_of s w')).
  { frame. destruct (decide (w = w')) as [->|]; reflexivity. }
  destruct (decide (d ∈ depIds (watcher_of s w))); [exact H|].
  unfold addSub. rewrite watcher_of_set_subs. exact H.
Qed.

Lemma addDep_newDepIds w d s d' :
  d' ∈ newDepIds (watcher_of (addDep w d s) w) <->
  d' = d \/ d' ∈ newDepIds (watcher_of s w).
Proof.
  unfold addDep.
  destruct (decide (d ∈ newDepIds (watcher_of s w))) as [Hd|Hd].
  - split; [auto|]. intros [->|H]; assumption.
  - assert (H : newDepIds (watcher_of
                  (set_watcher w (note_newDep d (watcher_of s w)) s) w)
                = {[d]} ∪ newDepIds (watcher_of s w)).
    { frame. destruct (decide (w = w)); [reflexivity|congruence]. }
    destruct (decide (d ∈ depIds (watcher_of s w)));
      [|unfold addSub; rewrite watcher_of_set_subs]; rewrite H; set_solver.
Qed.

Lemma foldl_depend_subscribes r ds : forall s,
  target s = Some r ->
  let s' := foldl (fun acc d => depend d acc) s ds in
  (forall d, d ∈ ds \/ d ∈ newDepIds (watcher_of s r) ->
             d ∈ newDepIds (watcher_of s' r)) /\
  (forall w, deps (watcher_of s' w) = deps (watcher_of s w)).
Proof.
  induction ds as [|d0 ds IH]; intros s Ht; simpl.
  - split; [|auto]. intros d [H|H]; [|exact H].
    apply elem_of_nil in H. destruct H.
  - assert (Hd : depend d0 s = addDep r d0 (emit (ETrack r d0) s))
      by (unfold depend; rewrite Ht; reflexivity).
    destruct (IH (depend d0 s)) as [A B].
    { destruct (exec_Depend_target d0 s) as [E _]. simpl in E. congruence. }
    split.
    + intros d Hin. apply A. rewrite Hd, addDep_newDepIds.
      change (watcher_of (emit (ETrack r d0) s) r) with (watcher_of s r).
      rewrite elem_of_cons in Hin. tauto.
    + intros w. rewrite B, Hd, addDep_deps. reflexivity.
Qed.

(** X6.  Reading a computed property while a watcher [r] is being
    evaluated makes [r] a subscriber of every dep of the computed
    property's watcher ([watcher.depend()]), whether the value had to be
    recomputed or not: a later change of any of them reaches [r].  The
    getter of the computed property returns, and the data functions and
    hooks it calls only read plain cells. *)
Theorem computed_read_subscribes_reader w g r s :
  consistent s ->
  target s = Some r ->
  all_hook_safe (g_body g) = true ->
  snd (computedGetter w g s) <> Throw ->
  let s' := fst (computedGetter w g s) in
  consistent s' /\
  forall d, d ∈ deps (watcher_of s' w) -> r ∈ subs_of s' d.
Proof.
  intros Hc Ht Hf Hout s'.
  assert (Hc' : consistent s').
  { apply consistent_computedGetter_with; [|exact Hc].
    intros s0. apply consistent_run_body, Forall_forall.
    intros a _. apply consistent_exec. }
  split; [exact Hc'|].
  assert (Hgen : forall s1, target s1 = Some r -> s' = watcher_depend w s1 ->
            forall d, d ∈ deps (watcher_of s' w) -> r ∈ subs_of s' d).
  { intros s1 Ht1 Es' d Hd.
    destruct (foldl_depend_subscribes r (reverse (deps (watcher_of s1 w)))
                s1 Ht1) as [A B].
    fold (watcher_depend w s1) in A, B. rewrite <- Es' in A, B.
    destruct Hc' as (_ & H2 & _). apply H2. right. apply A. left.
    rewrite elem_of_reverse, <- B. exact Hd. }
  subst s'. revert Hout Hgen. unfold computedGetter, computedGetter_with.
  destruct (dirty (watcher_of s w)).
  - unfold evaluate_with. fold (get w g s).
    destruct (get_restores w g s Hf) as [Ht1 _]; [left; congruence|].
    destruct (get w g s) as [s1 [v|]]; simpl in *; [|congruence].
    rewrite Ht1, Ht. intros _ Hgen.
    apply (Hgen (set_value_clean w v s1)); [|reflexivity].
    simpl. congruence.
  - simpl. rewrite Ht. intros _ Hgen. apply (Hgen s Ht). reflexivity.
Qed.

Lemma computed_read_subscribes_reader_witness :
  let s := pushTarget (Some 7) with_computed_3 in
  let g := mkGetter [Depend 10; Depend 11] (Return (VNum (Fin 3))) [] in
  let s' := fst (computedGetter 3 g s) in
  consistent s' /\
  forall d, d ∈ deps (watcher_of s' 3) -> 7 ∈ subs_of s' d.
Proof.
  intros s g.
  apply (computed_read_subscribes_reader 3 g 7 s).
  - eapply consistent_same; [apply same_tracking_pushTarget|].
    eapply consistent_same; [|apply consistent_empty].
    split; intros; [reflexivity|]. unfold with_computed_3. frame.
    destruct (decide (3 = w)); repeat split; reflexivity.
  - reflexivity.
  - reflexivity.
  - vm_compute. discriminate.
Defined.

(** *** The constructor *)

Lemma depend_uid d s : uid (depend d s) = uid s.
Proof.
  unfold depend. destruct (target s) as [w|]; [|reflexivity].
  unfold addDep.
  destruct (decide (d ∈ newDepIds (watcher_of (emit (ETrack w d) s) w)));
    [reflexivity|].
  destruct (decide (d ∈ depIds (watcher_of (emit (ETrack w d) s) w)));
    reflexivity.
Qed.

Lemma foldl_depend_uid ds s :
  uid (foldl (fun acc d => depend d acc) s ds) = uid s.
Proof.
  revert s. induction ds as [|d ds IH]; intros s; simpl; [reflexivity|].
  rewrite IH. apply depend_uid.
Qed.

Lemma cleanupDeps_uid w s : uid (cleanupDeps w s) = uid s.
Proof.
  unfold cleanupDeps, cleanup_loop; simpl.
  generalize (reverse (deps (watcher_of s w))).
  generalize (newDepIds (watcher_of s w)). intros keep l. revert s.
  induction l as [|d l IH]; intros s; simpl; [reflexivity|].
  destruct (decide (d ∈ keep)); [apply IH|]. rewrite IH. reflexivity.
Qed.

Lemma get_uid w g s :
  all_foreign w (g_body g) = true -> uid (fst (get w g s)) = uid s.
Proof.
  intros Hf. unfold get. rewrite get_with_split, cleanupDeps_uid.
  unfold get_until_cleanup.
  set (s2 := run_body _ _).
  assert (H2 : uid s2 = uid s).
  { subst s2.
    change (uid s) with (uid (emit (EGetter w) (pushTarget (Some w) s))).
    apply (frame_body w (fun a b => uid b = uid a)); auto.
    - intros s1 s3 s4 E1 E2. congruence.
    - intros d s0. apply depend_uid.
    - intros w' s0 _. apply cleanupDeps_uid. }
  set (s3 := match g_res g with Throw => _ | Return _ => _ end).
  assert (H3 : uid s3 = uid s2).
  { subst s3. destruct (g_res g); [reflexivity|].
    destruct (user (watcher_of s2 w)); reflexivity. }
  simpl. destruct (deep (watcher_of s3 w)); [|congruence].
  unfold traverse. destruct (g_res g); [|congruence].
  rewrite foldl_depend_uid. congruence.
Qed.

(** *** The cells a getter reads *)

(** What one operation in the getter of the watcher being evaluated reads,
    when it is carried out in [s]: a tracked read reads its cell; reading
    a computed property that returns reads the cells its watcher depends
    on once the value is there ([watcher.depend()] walks [this.deps]).
    What a data function or hook reads, and what the getter of another
    watcher reads, are not reads of this watcher. *)
Definition reads_of_action (a : action) (s : State) : list nat :=
  match a with
  | Depend d => [d]
  | Computed w' body res trav =>
      match snd (computedGetter w' (mkGetter body res trav) s) with
      | Return _ => deps (watcher_of (exec a s) w')
      | Throw => []
      end
  | Evaluate _ _ _ _ | Untracked _ => []
  end.

Fixpoint reads_of_body (body : list action) (s : State) : list nat :=
  match body with
  | [] => []
  | a :: rest => reads_of_action a s ++ reads_of_body rest (exec a s)
  end.

(** The cells one run of the getter [g] of watcher [w] reads, begun in
    [s]: those of the getter body and, for a deep watcher whose getter
    returned, those [traverse] touches. *)
Definition getter_reads (w : nat) (g : Getter) (s : State) : list nat :=
  reads_of_body (g_body g) (emit (EGetter w) (pushTarget (Some w) s)) ++
  (if deep (watcher_of s w)
   then match g_res g with Return _ => g_trav g | Throw => [] end
   else []).

Lemma reads_of_body_top d body : forall s,
  Depend d ∈ body -> d ∈ reads_of_body body s.
Proof.
  induction body as [|a rest IH]; intros s Hin.
  - apply elem_of_nil in Hin. destruct Hin.
  - simpl. apply elem_of_app. apply elem_of_cons in Hin as [<-|Hin].
    + left. apply list_elem_of_singleton. reflexivity.
    + right. apply IH, Hin.
Qed.

(** [watcher w] while another watcher is the target. *)
Lemma addDep_other w w' d s :
  w' <> w -> watcher_of (addDep w' d s) w = watcher_of s w.
Proof.
  intros Hne. unfold addDep.
  destruct (decide (d ∈ newDepIds (watcher_of s w'))); [reflexivity|].
  destruct (decide (d ∈ depIds (watcher_of s w'))); unfold addSub; frame;
    destruct (decide (w' = w)); congruence.
Qed.

Lemma depend_other w d s :
  target s <> Some w -> watcher_of (depend d s) w = watcher_of s w.
Proof.
  intros Ht. unfold depend. destruct (target s) as [t|]; [|reflexivity].
  rewrite addDep_other by congruence. reflexivity.
Qed.

Lemma foldl_depend_other w ds : forall s,
  target s <> Some w ->
  watcher_of (foldl (fun acc d => depend d acc) s ds) w = watcher_of s w.
Proof.
  induction ds as [|d ds IH]; intros s Ht; simpl; [reflexivity|].
  rewrite IH, depend_other by
    (try (destruct (exec_Depend_target d s) as [E _]; simpl in E; rewrite E);
     exact Ht).
  reflexivity.
Qed.

Lemma foldl_depend_newDepIds w ds : forall s,
  target s = Some w ->
  forall d, d ∈ newDepIds (watcher_of (foldl (fun acc d => depend d acc) s ds) w)
            <-> d ∈ newDepIds (watcher_of s w) \/ d ∈ ds.
Proof.
  induction ds as [|d0 ds IH]; intros s Ht d; simpl.
  - rewrite elem_of_nil. tauto.
  - assert (Hd : depend d0 s = addDep w d0 (emit (ETrack w d0) s))
      by (unfold depend; rewrite Ht; reflexivity).
    rewrite IH.
    + rewrite Hd, addDep_newDepIds, elem_of_cons.
      change (watcher_of (emit (ETrack w d0) s) w) with (watcher_of s w).
      tauto.
    + destruct (exec_Depend_target d0 s) as [E _]. simpl in E. congruence.
Qed.

(** The watcher [w] is not the target, and some watcher is. *)
Definition other_target (w : nat) (s : State) : Prop :=
  exists t, target s = Some t /\ t <> w.

Lemma other_target_settled w s : other_target w s -> target_settled s.
Proof. intros (t & Ht & _). left. congruence. Qed.

Lemma other_target_not w s : other_target w s -> target s <> Some w.
Proof. intros (t & Ht & Hne). congruence. Qed.

(** [leaves w s s']: the watcher object [w] is the same in [s'], and so is
    the target. *)
Definition leaves (w : nat) (s s' : State) : Prop :=
  watcher_of s' w = watcher_of s w /\ target s' = target s.

Lemma leaves_refl w s : leaves w s s.
Proof. split; reflexivity. Qed.

Lemma leaves_trans w s1 s2 s3 : leaves w s1 s2 -> leaves w s2 s3 -> leaves w s1 s3.
Proof. intros [A1 B1] [A2 B2]. split; congruence. Qed.

Section Leaves.
Variable w : nat.
Variable body : list action.
Hypothesis body_leaves :
  forall s0, other_target w s0 -> leaves w s0 (run_body body s0).
Hypothesis body_restores :
  forall s0, target s0 <> None ->
    target (run_body body s0) = target s0 /\
    targetStack (run_body body s0) = targetStack s0.

(** [get] of another watcher [w'] does not touch the watcher object
    [w]. *)
Lemma get_with_leaves w' res trav s :
  w' <> w ->
  watcher_of (fst (get_with run_body w' body res trav s)) w = watcher_of s w.
Proof.
  intros Hne. rewrite get_with_split, cleanupDeps_watcher.
  destruct (decide (w' = w)); [congruence|].
  unfold get_until_cleanup.
  set (s0 := emit (EGetter w') (pushTarget (Some w') s)).
  assert (H0 : other_target w s0) by (exists w'; auto).
  destruct (body_leaves s0 H0) as [E2 T2].
  set (s2 := run_body body s0) in *.
  set (s3 := match res with Throw => _ | Return _ => s2 end).
  assert (H3 : watcher_of s3 w = watcher_of s2 w /\ target s3 = target s2).
  { unfold s3. destruct res; [auto|]. destruct (user _); auto. }
  destruct H3 as [E3 T3].
  set (s4 := if deep (watcher_of s3 w') then _ else s3).
  assert (E4 : watcher_of s4 w = watcher_of s3 w).
  { unfold s4. destruct (deep _); [|reflexivity].
    unfold traverse. destruct res; [|reflexivity].
    apply foldl_depend_other. rewrite T3, T2. simpl. congruence. }
  change (watcher_of (popTarget s4) w) with (watcher_of s4 w).
  rewrite E4, E3, E2. reflexivity.
Qed.

Lemma computedGetter_with_leaves w' res trav s :
  w' <> w -> other_target w s ->
  leaves w s (fst (computedGetter_with run_body w' body res trav s)).
Proof.
  intros Hne Ho. unfold computedGetter_with, evaluate_with.
  destruct (dirty (watcher_of s w')).
  - pose proof (get_with_leaves w' res trav s Hne) as Hg.
    destruct (get_with_restores run_body w' body res trav s body_restores
                (other_target_settled w s Ho)) as [Tg _].
    destruct (get_with run_body w' body res trav s) as [s1 [v|]];
      simpl in *; [|split; assumption].
    assert (Hs : leaves w s (set_value_clean w' v s1)).
    { split; [|exact Tg]. unfold set_value_clean. frame.
      destruct (decide (w' = w)); [congruence|exact Hg]. }
    change (target s1) with (target (set_value_clean w' v s1)).
    destruct Hs as [Es Ts].
    assert (Hnt : target (set_value_clean w' v s1) <> Some w)
      by (rewrite Ts; apply other_target_not, Ho).
    destruct (target (set_value_clean w' v s1)) eqn:Et;
      [|split; assumption].
    unfold watcher_depend. split.
    + rewrite foldl_depend_other; [exact Es|rewrite Et; exact Hnt].
    + destruct (foldl_depend_target
                  (reverse (deps (watcher_of (set_value_clean w' v s1) w')))
                  (set_value_clean w' v s1)) as [-> _].
      rewrite Et. exact Ts.
  - simpl. pose proof (other_target_not w s Ho) as Hnt.
    destruct (target s) eqn:Et; [|apply leaves_refl].
    unfold watcher_depend. split.
    + apply foldl_depend_other. rewrite Et. exact Hnt.
    + apply foldl_depend_target.
Qed.
End Leaves.

Lemma run_body_leaves w body :
  Forall (fun a => foreign w a = true -> hook_safe a = true ->
            forall s, other_target w s -> leaves w s (exec a s)) body ->
  all_foreign w body = true -> all_hook_safe body = true ->
  forall s, other_target w s -> leaves w s (run_body body s).
Proof.
  induction 1 as [|a l Ha Hl IH]; intros Hf Hh s Ho; simpl;
    [apply leaves_refl|].
  rewrite all_foreign_cons in Hf. apply andb_true_iff in Hf as [Hf1 Hf2].
  rewrite all_hook_safe_cons in Hh. apply andb_true_iff in Hh as [Hh1 Hh2].
  pose proof (Ha Hf1 Hh1 s Ho) as H1.
  eapply leaves_trans; [exact H1|]. apply IH; [assumption..|].
  destruct Ho as (t & Ht & Hne). exists t. destruct H1 as [_ T1].
  split; congruence.
Qed.

Lemma exec_leaves w a :
  foreign w a = true -> hook_safe a = true ->
  forall s, other_target w s -> leaves w s (exec a s).
Proof.
  induction a as [d|w' body res trav IH|w' body res trav IH|body IH]
    using action_nested_ind; intros Hf Hh s Ho.
  - split; [apply depend_other, other_target_not, Ho|].
    apply (exec_Depend_target d s).
  - rewrite foreign_Evaluate in Hf. apply andb_true_iff in Hf as [Hw Hb].
    apply negb_true_iff, Nat.eqb_neq in Hw.
    rewrite hook_safe_Evaluate in Hh. rewrite exec_Evaluate. split.
    + apply (get_with_leaves w body); [|exact Hw].
      intros s0. apply run_body_leaves; assumption.
    + apply (get_with_restores run_body);
        [|apply (other_target_settled w), Ho].
      intros s0 H0. apply restores_body; [exact Hh|left; exact H0].
  - rewrite foreign_Computed in Hf. apply andb_true_iff in Hf as [Hw Hb].
    apply negb_true_iff, Nat.eqb_neq in Hw.
    rewrite hook_safe_Computed in Hh. rewrite exec_Computed.
    apply (computedGetter_with_leaves w body); [| |exact Hw|exact Ho].
    + intros s0. apply run_body_leaves; assumption.
    + intros s0 H0. apply restores_body; [exact Hh|left; exact H0].
  - simpl in Hh. rewrite (exec_Untracked_reads body s Hh);
      [apply leaves_refl|apply (other_target_settled w), Ho].
Qed.

Lemma body_leaves w body :
  all_foreign w body = true -> all_hook_safe body = true ->
  forall s, other_target w s -> leaves w s (run_body body s).
Proof.
  intros Hf Hh. apply run_body_leaves; [|exact Hf|exact Hh].
  apply Forall_forall. intros a _. apply exec_leaves.
Qed.

(** Reading a computed property at the top level of the getter of [w]. *)
Lemma computed_read_tracks w w' body res trav s :
  w' <> w ->
  all_foreign w body = true -> all_hook_safe body = true ->
  target s = Some w ->
  let r := computedGetter_with run_body w' body res trav s in
  target (fst r) = Some w /\
  forall d, d ∈ newDepIds (watcher_of (fst r) w) <->
            d ∈ newDepIds (watcher_of s w) \/
            d ∈ match snd r with
                | Return _ => deps (watcher_of (fst r) w')
                | Throw => []
                end.
Proof.
  intros Hne Hf Hh Ht.
  assert (Hsettled : target_settled s) by (left; congruence).
  assert (Hdep : forall s1, target s1 = Some w ->
            target (watcher_depend w' s1) = Some w /\
            forall d, d ∈ newDepIds (watcher_of (watcher_depend w' s1) w) <->
                      d ∈ newDepIds (watcher_of s1 w) \/
                      d ∈ deps (watcher_of (watcher_depend w' s1) w')).
  { intros s1 H1. unfold watcher_depend. split.
    - destruct (foldl_depend_target (reverse (deps (watcher_of s1 w'))) s1)
        as [-> _]. exact H1.
    - intros d. rewrite (foldl_depend_newDepIds w _ s1 H1).
      rewrite foldl_depend_other by congruence.
      rewrite elem_of_reverse. reflexivity. }
  unfold computedGetter_with, evaluate_with.
  destruct (dirty (watcher_of s w')).
  - pose proof (get_with_leaves w body (body_leaves w body Hf Hh)
                  w' res trav s Hne) as Hg.
    destruct (get_with_restores run_body w' body res trav s) as [Tg _];
      [intros s0 H0; apply restores_body; [exact Hh|left; exact H0]
      |exact Hsettled|].
    destruct (get_with run_body w' body res trav s) as [s1 [v|]];
      simpl in *.
    + assert (Hw : watcher_of (set_value_clean w' v s1) w = watcher_of s w).
      { unfold set_value_clean. frame.
        destruct (decide (w' = w)); [congruence|exact Hg]. }
      assert (H1 : target (set_value_clean w' v s1) = Some w)
        by (simpl; congruence).
      change (target s1) with (target (set_value_clean w' v s1)).
      rewrite H1. destruct (Hdep _ H1) as [A B]. split; [exact A|].
      intros d. rewrite B, Hw. reflexivity.
    + split; [congruence|]. intros d. rewrite Hg, elem_of_nil. tauto.
  - simpl. rewrite Ht. apply Hdep, Ht.
Qed.

(** The getter body of [w], run while [w] is the target, notes in
    [newDepIds] exactly the cells it reads. *)
Lemma body_reads w body :
  all_foreign w body = true -> all_hook_safe body = true ->
  forall s, target s = Some w ->
    target (run_body body s) = Some w /\
    forall d, d ∈ newDepIds (watcher_of (run_body body s) w) <->
              d ∈ newDepIds (watcher_of s w) \/ d ∈ reads_of_body body s.
Proof.
  induction body as [|a rest IH]; intros Hf Hh s Ht; simpl.
  - split; [exact Ht|]. intros d. rewrite elem_of_nil. tauto.
  - rewrite all_foreign_cons in Hf. apply andb_true_iff in Hf as [Hf1 Hf2].
    rewrite all_hook_safe_cons in Hh. apply andb_true_iff in Hh as [Hh1 Hh2].
    assert (Ha : target (exec a s) = Some w /\
                 forall d, d ∈ newDepIds (watcher_of (exec a s) w) <->
                           d ∈ newDepIds (watcher_of s w) \/
                           d ∈ reads_of_action a s).
    { destruct a as [d0|w' body res trav|w' body res trav|body].
      - split.
        + destruct (exec_Depend_target d0 s) as [-> _]. exact Ht.
        + intros d. simpl. unfold depend. rewrite Ht.
          rewrite addDep_newDepIds, list_elem_of_singleton.
          change (watcher_of (emit (ETrack w d0) s) w) with (watcher_of s w).
          tauto.
      - rewrite foreign_Evaluate in Hf1.
        apply andb_true_iff in Hf1 as [Hw Hb].
        apply negb_true_iff, Nat.eqb_neq in Hw.
        rewrite hook_safe_Evaluate in Hh1. split.
        + destruct (restores_exec (Evaluate w' body res trav)) with (s := s)
            as [-> _]; [exact Hh1|left; congruence|exact Ht].
        + intros d. rewrite exec_Evaluate. unfold get.
          cbn [g_body g_res g_trav reads_of_action].
          rewrite (get_with_leaves w body (body_leaves w body Hb Hh1)
                     w' res trav s Hw).
          rewrite elem_of_nil. tauto.
      - rewrite foreign_Computed in Hf1.
        apply andb_true_iff in Hf1 as [Hw Hb].
        apply negb_true_iff, Nat.eqb_neq in Hw.
        rewrite hook_safe_Computed in Hh1.
        apply (computed_read_tracks w w' body res trav s Hw Hb Hh1 Ht).
      - simpl in Hh1.
        rewrite (exec_Untracked_reads body s Hh1) by (left; congruence).
        split; [exact Ht|]. intros d. simpl. rewrite elem_of_nil. tauto. }
    destruct Ha as [Ta Na].
    destruct (IH Hf2 Hh2 (exec a s) Ta) as [Tr Nr].
    split; [exact Tr|]. intros d. rewrite Nr, Na, elem_of_app. tauto.
Qed.

(** The flags of a watcher are not written by any evaluation. *)
Lemma deep_get_until_cleanup w g s :
  all_foreign w (g_body g) = true ->
  deep (watcher_of (run_body (g_body g)
                      (emit (EGetter w) (pushTarget (Some w) s))) w)
  = deep (watcher_of s w).
Proof.
  intros Hf.
  change (deep (watcher_of s w))
    with (deep (watcher_of (emit (EGetter w) (pushTarget (Some w) s)) w)).
  apply (frame_body w (fun s s' => deep (watcher_of s' w)
                                   = deep (watcher_of s w)));
    try (intros; reflexivity); try exact Hf.
  - intros s1 s2 s3 H1 H2. congruence.
  - intros d s0. unfold depend. destruct (target s0) as [t|]; [|reflexivity].
    unfold addDep.
    change (watcher_of (emit (ETrack t d) s0)) with (watcher_of s0).
    destruct (decide _); [reflexivity|].
    destruct (decide _); unfold addSub; frame;
      destruct (decide (t = w)) as [->|]; reflexivity.
  - intros w' s0 _. rewrite cleanupDeps_watcher.
    destruct (decide (w' = w)) as [->|]; reflexivity.
  - intros w' v s0 _. unfold set_value_clean. frame.
    destruct (decide (w' = w)) as [->|]; reflexivity.
Qed.

(** After [get], outside hooks that evaluate watchers, [w] is subscribed
    to exactly the cells its getter read in this run. *)
Lemma get_reads w g s :
  consistent s ->
  newDepIds (watcher_of s w) = ∅ ->
  all_foreign w (g_body g) = true ->
  all_hook_safe (g_body g) = true ->
  let s' := fst (get w g s) in
  consistent s' /\ newDepIds (watcher_of s' w) = ∅ /\
  forall d, w ∈ subs_of s' d <-> d ∈ getter_reads w g s.
Proof.
  intros Hc Hn Hf Hh s'.
  pose proof (consistent_get w g s Hc) as Hc'. fold s' in Hc'.
  split; [exact Hc'|].
  assert (Hs' : s' = cleanupDeps w
            (get_until_cleanup run_body w (g_body g) (g_res g) (g_trav g) s))
    by reflexivity.
  set (s4 := get_until_cleanup _ _ _ _ _ _) in Hs'.
  assert (Ew : watcher_of s' w = swap_deps (watcher_of s4 w)).
  { rewrite Hs', cleanupDeps_watcher.
    destruct (decide (w = w)); [reflexivity|congruence]. }
  split; [rewrite Ew; reflexivity|].
  assert (H4 : forall d, d ∈ newDepIds (watcher_of s4 w)
                         <-> d ∈ getter_reads w g s).
  { unfold s4, get_until_cleanup, getter_reads.
    set (s0 := emit (EGetter w) (pushTarget (Some w) s)).
    destruct (body_reads w (g_body g) Hf Hh s0 eq_refl) as [T2 N2].
    pose proof (deep_get_until_cleanup w g s Hf) as D2. fold s0 in D2.
    set (s2 := run_body (g_body g) s0) in *.
    set (s3 := match g_res g with Throw => _ | Return _ => s2 end).
    assert (H3 : watcher_of s3 w = watcher_of s2 w /\ target s3 = Some w).
    { unfold s3. destruct (g_res g); [auto|]. destruct (user _); auto. }
    destruct H3 as [E3 T3].
    change (watcher_of s0 w) with (watcher_of s w) in N2.
    intros d. change (watcher_of (popTarget ?x) w) with (watcher_of x w).
    rewrite E3, D2, elem_of_app.
    destruct (deep (watcher_of s w)).
    - unfold traverse. destruct (g_res g) eqn:Er.
      + rewrite (foldl_depend_newDepIds w _ s3 T3), E3, N2, Hn.
        set_solver.
      + rewrite E3, N2, Hn. set_solver.
    - rewrite E3, N2, Hn. set_solver. }
  intros d. destruct Hc' as (_ & H2 & _). rewrite H2, Ew. simpl.
  rewrite H4. set_solver.
Qed.

Lemma run_same_tracking w g cb_throws s :
  active (watcher_of s w) = true ->
  same_tracking (fst (get w g s)) (fst (run w g cb_throws s)).
Proof.
  intros Ha. unfold run. rewrite Ha.
  destruct (get w g s) as [s1 [v|]]; simpl; [|apply same_tracking_refl].
  destruct (strict_ne v (value (watcher_of s1 w)) || isObject v
            || deep (watcher_of s1 w)); simpl; [|apply same_tracking_refl].
  pose proof (same_tracking_with_value w v s1) as Hs.
  destruct cb_throws; [destruct (user (watcher_of s1 w))|]; simpl;
    repeat (eapply same_tracking_trans;
            [|apply same_tracking_emit]); exact Hs.
Qed.

Lemma evaluate_same_tracking w g s :
  same_tracking (fst (get w g s)) (fst (evaluate w g s)).
Proof.
  unfold evaluate, evaluate_with. fold (get w g s).
  destruct (get w g s) as [s1 [v|]]; simpl; [|apply same_tracking_refl].
  apply same_tracking_set_value_clean.
Qed.

(** What [get_reads] gives for a state with the tracking of the state
    after [get]. *)
Lemma reads_after_get w g s s' :
  consistent s ->
  newDepIds (watcher_of s w) = ∅ ->
  all_foreign w (g_body g) = true ->
  all_hook_safe (g_body g) = true ->
  same_tracking (fst (get w g s)) s' ->
  (forall d, NoDup (subs_of s' d)) /\
  (forall d, w ∈ subs_of s' d <-> d ∈ getter_reads w g s) /\
  (forall d, Depend d ∈ g_body g -> w ∈ subs_of s' d) /\
  (forall d, w ∈ subs_of s d -> d ∉ getter_reads w g s -> w ∉ subs_of s' d).
Proof.
  intros Hc Hn Hf Hh Hs.
  destruct (get_reads w g s Hc Hn Hf Hh) as (Hc1 & _ & Hr).
  pose proof (consistent_same _ _ Hs Hc1) as (Hnd & _).
  destruct Hs as [Hsub _].
  assert (Hiff : forall d, w ∈ subs_of s' d <-> d ∈ getter_reads w g s)
    by (intros d; rewrite Hsub; apply Hr).
  split; [exact Hnd|]. split; [exact Hiff|]. split.
  - intros d Hin. apply Hiff. unfold getter_reads. apply elem_of_app.
    left. apply reads_of_body_top, Hin.
  - intros d _ Hnr Hin. apply Hnr, Hiff, Hin.
Qed.

(** X26.  Outside the hooks that evaluate watchers, a run subscribes a
    watcher to exactly what it read.  After [run()] or [evaluate()] of an
    active watcher that is not already being evaluated, whose getter
    calls only data functions and hooks that read plain cells, the deps
    whose subscriber list holds the watcher are exactly the cells the
    getter read in this run: the cells of its own tracked reads, the deps
    of the computed properties it read and, for a deep watcher, the cells
    [traverse] touched.  No subscriber list has a duplicate entry, and a
    cell subscribed before but not read in this run has lost the
    watcher. *)
Theorem run_subscribes_the_reads w g cb_throws s :
  consistent s ->
  newDepIds (watcher_of s w) = ∅ ->
  active (watcher_of s w) = true ->
  all_foreign w (g_body g) = true ->
  all_hook_safe (g_body g) = true ->
  forall s',
    s' = fst (run w g cb_throws s) \/ s' = fst (evaluate w g s) ->
    (forall d, NoDup (subs_of s' d)) /\
    (forall d, w ∈ subs_of s' d <-> d ∈ getter_reads w g s) /\
    (forall d, Depend d ∈ g_body g -> w ∈ subs_of s' d) /\
    (forall d, w ∈ subs_of s d -> d ∉ getter_reads w g s ->
               w ∉ subs_of s' d).
Proof.
  intros Hc Hn Ha Hf Hh s' [->| ->];
    apply reads_after_get; try assumption.
  - apply run_same_tracking, Ha.
  - apply evaluate_same_tracking.
Qed.

(** A render watcher 7 that read cells 10 and 11 in its first run reads
    the computed property of watcher 3 (which read cell 10) and cell 12 in
    the next one. *)
Definition reads_computed : Getter :=
  mkGetter [Computed 3 [Depend 10] (Return (VNum (Fin 1))) []; Depend 12]
           (Return (VNum (Fin 2))) [].

Definition after_first_run : State :=
  fst (get 7 (mkGetter [Depend 10; Depend 11] (Return VUndefined) [])
         (set_watcher 7 (init_watcher no_options) with_computed_3)).

Lemma run_subscribes_the_reads_witness :
  let s' := fst (run 7 reads_computed false after_first_run) in
  getter_reads 7 reads_computed after_first_run = [10; 12] /\
  (forall d, NoDup (subs_of s' d)) /\
  (forall d, 7 ∈ subs_of s' d <-> d ∈ [10; 12]) /\
  (7 ∈ subs_of after_first_run 11 /\ 7 ∉ subs_of s' 11).
Proof.
  intros s'.
  assert (Hr : getter_reads 7 reads_computed after_first_run = [10; 12])
    by (vm_compute; reflexivity).
  destruct (run_subscribes_the_reads 7 reads_computed false after_first_run)
    with (s' := s') as (Hnd & Hiff & _ & Hdrop).
  - apply consistent_get.
    eapply consistent_same; [|apply consistent_empty].
    split; intros; [reflexivity|]. unfold with_computed_3. frame.
    destruct (decide (7 = w)); destruct (decide (3 = w));
      repeat split; reflexivity.
  - vm_compute. reflexivity.
  - reflexivity.
  - reflexivity.
  - reflexivity.
  - left. reflexivity.
  - rewrite Hr in Hiff, Hdrop. split; [exact Hr|]. split; [exact Hnd|].
    split; [exact Hiff|].
    assert (H11 : 7 ∈ subs_of after_first_run 11)
      by (vm_compute; apply elem_of_cons; auto).
    split; [exact H11|]. apply Hdrop; [exact H11|].
    rewrite !elem_of_cons, elem_of_nil. intros [H|[H|H]];
      try discriminate; exact H.
Defined.

(** C1.  The invariant fails for a getter that calls a data function or
    hook in which a computed property is evaluated.  The render watcher 7
    is consistent, active and not being evaluated; its
    getter calls such a hook and then reads cell 11 itself.  After
    [run()], and after [evaluate()], cell 11 has no subscriber: the read
    of cell 11 took place while [Dep.target] was [undefined], because
    [get] of the computed watcher had popped watcher 7 off the target
    stack inside the hook. *)
Theorem run_misses_read_after_hook :
  let s := with_computed_3 in
  let g := render_with_hook in
  consistent s /\
  newDepIds (watcher_of s 7) = ∅ /\ active (watcher_of s 7) = true /\
  all_foreign 7 (g_body g) = true /\
  Depend 11 ∈ g_body g /\ 11 ∈ getter_reads 7 g s /\
  subs_of (fst (run 7 g false s)) 11 = [] /\
  subs_of (fst (evaluate 7 g s)) 11 = [] /\
  subs_of (fst (run 7 g false s)) 10 = [3; 7].
Proof.
  intros s g. split.
  { eapply consistent_same; [|apply consistent_empty].
    split; intros; [reflexivity|]. unfold s, with_computed_3. frame.
    destruct (decide (3 = w)); repeat split; reflexivity. }
  split; [vm_compute; reflexivity|]. split; [reflexivity|].
  split; [reflexivity|].
  split; [apply elem_of_cons; right; apply elem_of_cons; auto|].
  split; [vm_compute; apply elem_of_cons; auto|].
  vm_compute. auto.
Qed.

(** *** The constructor *)

(** The state when the constructor has taken its id and set the fields,
    before [this.get()]. *)
Definition fresh_watcher (o : Options) (s : State) : State :=
  set_watcher (S (uid s)) (init_watcher o)
    {| subs := subs s; watchers := watchers s; target := target s;
       targetStack := targetStack s; uid := S (uid s); log := log s |}.

(** X7.  [new Watcher] takes the next id.  A lazy watcher is not
    evaluated by its constructor: nothing is read and nobody is
    subscribed.  Any other watcher is evaluated once, and when the
    constructor returns it is subscribed to exactly the cells its getter
    read, provided the data functions and hooks the getter calls only
    read plain cells. *)
Theorem new_Watcher_subscribes o g s :
  consistent s ->
  watchers s !! S (uid s) = None ->
  all_foreign (S (uid s)) (g_body g) = true ->
  all_hook_safe (g_body g) = true ->
  let s' := fst (fst (new_Watcher o g s)) in
  let id := snd (fst (new_Watcher o g s)) in
  id = S (uid s) /\ uid s' = id /\ consistent s' /\
  calls_between id s s' = (if opt_lazy o then 0 else 1) /\
  (opt_lazy o = false ->
   (forall d, id ∈ subs_of s' d
              <-> d ∈ getter_reads id g (fresh_watcher o s)) /\
   (forall d, Depend d ∈ g_body g -> id ∈ subs_of s' d)) /\
  (opt_lazy o = true ->
   log s' = log s /\ subs s' = subs s /\ forall d, id ∉ subs_of s' d).
Proof.
  intros Hc Hfresh Hf Hh s' id. subst s' id. unfold new_Watcher.
  fold (fresh_watcher o s).
  set (id := S (uid s)) in *.
  set (s1 := fresh_watcher o s).
  assert (Hw1 : forall w, w <> id -> watcher_of s1 w = watcher_of s w).
  { intros w Hne. subst s1. unfold fresh_watcher.
    rewrite watcher_of_set_watcher.
    destruct (decide (S (uid s) = w)) as [E|]; [|reflexivity].
    destruct Hne. symmetry. exact E. }
  assert (Hid1 : watcher_of s1 id = init_watcher o).
  { subst s1. unfold fresh_watcher. rewrite watcher_of_set_watcher.
    destruct (decide (S (uid s) = id)) as [|E]; [reflexivity|].
    destruct E. reflexivity. }
  assert (Hid0 : watcher_of s id = init_watcher no_options).
  { unfold watcher_of. rewrite Hfresh. reflexivity. }
  assert (Hc1 : consistent s1).
  { eapply consistent_same; [|exact Hc]. split; [reflexivity|].
    intros w. destruct (decide (w = id)) as [->|Hne].
    - rewrite Hid1, Hid0. repeat split; reflexivity.
    - rewrite (Hw1 w Hne). repeat split; reflexivity. }
  assert (Hnone : forall d, id ∉ subs_of s d).
  { intros d Hin. destruct Hc as (_ & H2 & _). apply H2 in Hin.
    rewrite Hid0 in Hin. simpl in Hin. set_solver. }
  destruct (opt_lazy o) eqn:Hl.
  - cbn [fst snd].
    split; [reflexivity|]. split; [reflexivity|]. split; [exact Hc1|].
    unfold calls_between. simpl. rewrite drop_all.
    split; [reflexivity|]. split; [discriminate|]. intros _.
    split; [reflexivity|]. split; [reflexivity|]. exact Hnone.
  - assert (Hn1 : newDepIds (watcher_of s1 id) = ∅)
      by (rewrite Hid1; reflexivity).
    destruct (get_calls_once id g s1 Hf) as (Hcalls & _ & _).
    pose proof (get_uid id g s1 Hf) as Huid.
    change (uid s1) with id in Huid.
    assert (Hcalls' : calls_between id s (fst (get id g s1)) = 1)
      by exact Hcalls.
    assert (Hgen : forall s2, same_tracking (fst (get id g s1)) s2 ->
              consistent s2 /\
              (forall d, id ∈ subs_of s2 d <-> d ∈ getter_reads id g s1) /\
              (forall d, Depend d ∈ g_body g -> id ∈ subs_of s2 d)).
    { intros s2 Hs.
      destruct (reads_after_get id g s1 s2 Hc1 Hn1 Hf Hh Hs)
        as (_ & A & B & _).
      split; [|auto]. eapply consistent_same; [exact Hs|].
      apply consistent_get, Hc1. }
    destruct (get id g s1) as [s2 [v|]]; cbn [fst snd] in *.
    + destruct (Hgen _ (same_tracking_with_value id v s2)) as (C & A & B).
      split; [reflexivity|]. split; [exact Huid|]. split; [exact C|].
      split; [exact Hcalls'|]. split; [auto|discriminate].
    + destruct (Hgen _ (same_tracking_refl s2)) as (C & A & B).
      split; [reflexivity|]. split; [exact Huid|]. split; [exact C|].
      split; [exact Hcalls'|]. split; [auto|discriminate].
Qed.

Lemma new_Watcher_subscribes_witness :
  let s := fst (get 1 first_run
                  (set_watcher 1 (init_watcher no_options)
                     (mkState ∅ ∅ None [] 1 []))) in
  let s' := fst (fst (new_Watcher no_options second_run s)) in
  let id := snd (fst (new_Watcher no_options second_run s)) in
  id = 2 /\ uid s' = id /\ consistent s' /\
  calls_between id s s' = 1 /\
  (forall d, id ∈ subs_of s' d <-> d ∈ [11; 12]) /\
  (subs_of s' 10, subs_of s' 11, subs_of s' 12) = ([1], [1; 2], [2]).
Proof.
  intros s.
  destruct (new_Watcher_subscribes no_options second_run s)
    as (A & B & C & D & E & _).
  - apply consistent_get.
    eapply consistent_same; [|apply consistent_empty].
    split; intros; [reflexivity|]. frame.
    destruct (decide (1 = w)); repeat split; reflexivity.
  - vm_compute. reflexivity.
  - reflexivity.
  - reflexivity.
  - destruct (E eq_refl) as [E1 _].
    split; [exact A|]. split; [exact B|]. split; [exact C|].
    split; [exact D|]. split; [exact E1|]. vm_compute. reflexivity.
Defined.

End Tracking.

(* ===================================================================== *)
(** ** The scheduler and nextTick *)
(* ===================================================================== *)

Module Scheduler.

Definition MAX_UPDATE_COUNT : nat := 100.

(** What [nextTick] has been asked to call. *)
Inductive callback :=
| CbFlushSchedulerQueue
| CbOther (n : nat).

(** The module variables of scheduler.js and next-tick.js.  Watchers in
    [queue] are named by their id.  [has[id]] is only tested with
    [== null]/[!= null], so the ids whose marker is [true] form a set and
    [has[id] = null] removes the id. *)
Record Sched := mkSched {
  queue : list nat;
  has : gset nat;
  circular : gmap nat nat;
  waiting : bool;
  flushing : bool;
  index : nat;
  callbacks : list callback;     (* next-tick.js *)
  pending : bool;                (* next-tick.js *)
  timers : nat                   (* how often a timer function was called *)
}.

(** The state the module variables are initialised to. *)
Definition idle : Sched :=
  mkSched [] ∅ ∅ false false 0 [] false 0.

(** [nextTick (cb)]: the callback is appended, and a timer function is
    called unless one is already pending. *)
Definition nextTick (cb : callback) (s : Sched) : Sched :=
  mkSched (queue s) (has s) (circular s) (waiting s) (flushing s) (index s)
          (callbacks s ++ [cb]) true
          (if pending s then timers s else S (timers s)).

(** The [while (i > index && queue[i].id > watcher.id) i--] loop of
    [queueWatcher].  The argument [n] is [i + 1] and the result is the
    final [i + 1], the position the watcher is spliced at. *)
Fixpoint scan (n : nat) (q : list nat) (idx id : nat) : nat :=
  match n with
  | 0 => 0
  | S i =>
      if (idx <? i) && (match q !! i with Some x => id <? x | None => false end)
      then scan i q idx id
      else S i
  end.

(** [queue.splice(pos, 0, w)] *)
Definition splice (pos : nat) (w : nat) (q : list nat) : list nat :=
  take pos q ++ w :: drop pos q.

(** [queueWatcher (watcher)] *)
Definition queueWatcher (id : nat) (s : Sched) : Sched :=
  if decide (id ∈ has s) then s
  else
    let q := if flushing s
             then splice (scan (length (queue s)) (queue s) (index s) id)
                         id (queue s)
             else queue s ++ [id] in
    let s1 := mkSched q ({[id]} ∪ has s) (circular s) (waiting s)
                      (flushing s) (index s) (callbacks s) (pending s)
                      (timers s) in
    if waiting s then s1
    else nextTick CbFlushSchedulerQueue
           (mkSched q ({[id]} ∪ has s) (circular s) true
                    (flushing s) (index s) (callbacks s) (pending s)
                    (timers s)).

(** [resetSchedulerState ()]; [circular] is cleared in development builds
    only. *)
Definition resetSchedulerState (production : bool) (s : Sched) : Sched :=
  mkSched [] ∅ (if production then circular s else ∅) false false 0
          (callbacks s) (pending s) (timers s).

Section Flush.
(** The state of user code, and what [watcher.run()] does: the module
    variables of the scheduler are private, so a run reaches them only
    through [queueWatcher]; the list gives the watchers it hands to
    [queueWatcher], in order. *)
Context {U : Type}.
Variable run : nat -> U -> U * list nat.
(** [process.env.NODE_ENV === 'production'] *)
Variable production : bool.

Record Flush := mkFlush {
  sched : Sched;
  ustate : U;
  ran : list nat;          (* the watchers whose run() was called, in order *)
  warned : list nat        (* the watchers an infinite-loop warning named *)
}.

Definition with_index (i : nat) (s : Sched) : Sched :=
  mkSched (queue s) (has s) (circular s) (waiting s) (flushing s) i
          (callbacks s) (pending s) (timers s).

Definition clear_has (id : nat) (s : Sched) : Sched :=
  mkSched (queue s) (has s ∖ {[id]}) (circular s) (waiting s) (flushing s)
          (index s) (callbacks s) (pending s) (timers s).

Definition with_circular (c : gmap nat nat) (s : Sched) : Sched :=
  mkSched (queue s) (has s) c (waiting s) (flushing s)
          (index s) (callbacks s) (pending s) (timers s).

(** The body of the [for] loop for the watcher [id] at [queue[index]].
    The boolean tells whether the loop was left by [break]. *)
Definition iteration (id : nat) (st : Flush) : Flush * bool :=
  let s1 := clear_has id (sched st) in                  (* has[id] = null *)
  let '(u, enq) := run id (ustate st) in                (* watcher.run() *)
  let s2 := foldl (fun acc w => queueWatcher w acc) s1 enq in
  let ran' := ran st ++ [id] in
  if negb production && bool_decide (id ∈ has s2) then
    let c := S (default 0 (circular s2 !! id)) in
    let s3 := with_circular (<[id := c]> (circular s2)) s2 in
    if MAX_UPDATE_COUNT <? c
    then (mkFlush s3 u ran' (warned st ++ [id]), true)
    else (mkFlush s3 u ran' (warned st), false)
  else (mkFlush s2 u ran' (warned st), false).

(** [for (index = 0; index < queue.length; index++)], from the current
    [index] on.  The loop need not end; [fuel] bounds the number of
    iterations, and the boolean tells whether the loop was left (by its
    test or by [break]) within that bound. *)
Fixpoint loop (fuel : nat) (st : Flush) : Flush * bool :=
  match queue (sched st) !! index (sched st) with
  | None => (st, true)
  | Some id =>
      match fuel with
      | 0 => (st, false)
      | S fuel' =>
          let '(st1, brk) := iteration id st in
          if brk then (st1, true)
          else loop fuel'
                 (mkFlush (with_index (S (index (sched st1))) (sched st1))
                          (ustate st1) (ran st1) (warned st1))
      end
  end.

(** [queue.sort((a, b) => a.id - b.id)] *)
Definition sort_queue (q : list nat) : list nat := merge_sort (≤) q.

(** [flushSchedulerQueue ()], up to the reset of the scheduler state;
    the hooks called afterwards do not belong to the flush. *)
Definition flushSchedulerQueue (fuel : nat) (s : Sched) (u : U)
  : Flush * bool :=
  let s0 := mkSched (sort_queue (queue s)) (has s) (circular s) (waiting s)
                    true 0 (callbacks s) (pending s) (timers s) in
  let '(st, fin) := loop fuel (mkFlush s0 u [] []) in
  (mkFlush (resetSchedulerState production (sched st))
           (ustate st) (ran st) (warned st), fin).
End Flush.

Arguments Flush : clear implicits.

(** *** Where [queueWatcher] splices during a flush *)

(** Insertion from the right end: the new id goes behind the last entry
    that is not greater than it.  [ins_rev] works on the reversed list. *)
Fixpoint ins_rev (x : nat) (r : list nat) : list nat :=
  match r with
  | [] => [x]
  | y :: r' => if x <? y then y :: ins_rev x r' else x :: y :: r'
  end.

Definition ins_right (x : nat) (l : list nat) : list nat :=
  reverse (ins_rev x (reverse l)).

Lemma ins_right_nil x : ins_right x [] = [x].
Proof. reflexivity. Qed.

Lemma ins_right_snoc x l y :
  ins_right x (l ++ [y])
  = if x <? y then ins_right x l ++ [y] else l ++ [y; x].
Proof.
  unfold ins_right. rewrite reverse_snoc. simpl.
  destruct (x <? y).
  - rewrite reverse_cons. reflexivity.
  - rewrite !reverse_cons, reverse_involutive, <- app_assoc. reflexivity.
Qed.

Lemma elem_of_ins_rev x r y : y ∈ ins_rev x r <-> y = x \/ y ∈ r.
Proof.
  induction r as [|z r IH]; simpl.
  - rewrite list_elem_of_singleton, elem_of_nil. tauto.
  - destruct (x <? z); rewrite !elem_of_cons, ?IH; tauto.
Qed.

Lemma elem_of_ins_right x l y : y ∈ ins_right x l <-> y = x \/ y ∈ l.
Proof.
  unfold ins_right. rewrite elem_of_reverse, elem_of_ins_rev, elem_of_reverse.
  reflexivity.
Qed.

Lemma ins_rev_sorted x r :
  StronglySorted (flip le) r -> StronglySorted (flip le) (ins_rev x r).
Proof.
  induction 1 as [|y r Hr IH Hy]; simpl.
  - repeat constructor.
  - destruct (x <? y) eqn:E.
    + apply Nat.ltb_lt in E. constructor; [exact IH|].
      apply Forall_forall. intros z Hz. apply elem_of_ins_rev in Hz.
      destruct Hz as [->|Hz]; [unfold flip; lia|].
      rewrite Forall_forall in Hy. apply Hy, Hz.
    + apply Nat.ltb_ge in E. constructor; [constructor; assumption|].
      constructor; [exact E|].
      eapply Forall_impl; [exact Hy|]. unfold flip. intros; lia.
Qed.

Lemma ins_right_sorted x l :
  StronglySorted le l -> StronglySorted le (ins_right x l).
Proof.
  intros Hl. unfold ins_right.
  apply Sorted_StronglySorted; [apply _|].
  rewrite <- (reverse_involutive (reverse (ins_rev x (reverse l)))).
  assert (H : Sorted (flip le) (ins_rev x (reverse l))).
  { apply StronglySorted_Sorted, ins_rev_sorted.
    apply Sorted_StronglySorted; [apply _|].
    apply Sorted_reverse, StronglySorted_Sorted, Hl. }
  apply Sorted_reverse in H. rewrite reverse_involutive.
  exact H.
Qed.

Lemma scan_le n q idx id : scan n q idx id <= n.
Proof.
  induction n as [|i IH]; simpl; [lia|].
  destruct (_ && _); lia.
Qed.

Lemma scan_app n q1 q2 idx id :
  n <= length q1 -> scan n (q1 ++ q2) idx id = scan n q1 idx id.
Proof.
  induction n as [|i IH]; intros Hn; simpl; [reflexivity|].
  rewrite lookup_app_l by lia. rewrite IH by lia. reflexivity.
Qed.

(** The splice of [queueWatcher] leaves the entries up to [index] alone
    and inserts from the right into the entries behind it. *)
Lemma splice_scan done pend idx x :
  length done = S idx ->
  splice (scan (length (done ++ pend)) (done ++ pend) idx x) x (done ++ pend)
  = done ++ ins_right x pend.
Proof.
  intros Hd. induction pend as [|y l IH] using rev_ind.
  - rewrite app_nil_r, Hd. simpl. rewrite Nat.ltb_irrefl. simpl.
    unfold splice. rewrite <- Hd, take_ge, drop_ge by lia. reflexivity.
  - rewrite ins_right_snoc.
    replace (length (done ++ l ++ [y])) with (S (length (done ++ l)))
      by (rewrite !length_app; simpl; lia).
    simpl.
    assert (Hlt : (idx <? length (done ++ l)) = true)
      by (apply Nat.ltb_lt; rewrite length_app; lia).
    rewrite Hlt. simpl.
    assert (Hy : (done ++ l ++ [y]) !! length (done ++ l) = Some y).
    { rewrite app_assoc. rewrite lookup_app_r by lia.
      rewrite Nat.sub_diag. reflexivity. }
    rewrite Hy. destruct (x <? y).
    + rewrite (app_assoc done l [y]), scan_app by lia.
      pose proof (scan_le (length (done ++ l)) (done ++ l) idx x) as Hle.
      set (pos := scan _ _ _ _) in *.
      unfold splice in *.
      rewrite take_app_le, drop_app_le by lia.
      rewrite app_comm_cons, (app_assoc (take pos (done ++ l))), IH.
      rewrite <- !app_assoc. reflexivity.
    + unfold splice.
      rewrite take_ge, drop_ge by (rewrite !length_app; simpl; lia).
      rewrite <- !app_assoc. reflexivity.
Qed.

Lemma queueWatcher_flushing x s done pend :
  flushing s = true ->
  queue s = done ++ pend ->
  length done = S (index s) ->
  let s' := queueWatcher x s in
  flushing s' = true /\ index s' = index s /\
  exists pend', queue s' = done ++ pend' /\
                (pend' = pend \/ pend' = ins_right x pend).
Proof.
  intros Hf Hq Hd. unfold queueWatcher.
  destruct (decide (x ∈ has s)); [simpl; eauto 6|].
  rewrite Hf, Hq, splice_scan by exact Hd.
  destruct (waiting s); simpl; eauto 6.
Qed.

Lemma foldl_queueWatcher_flushing enq : forall s done pend,
  flushing s = true ->
  queue s = done ++ pend ->
  length done = S (index s) ->
  let s' := foldl (fun acc w => queueWatcher w acc) s enq in
  flushing s' = true /\ index s' = index s /\
  exists pend', queue s' = done ++ pend' /\
                (StronglySorted le pend -> StronglySorted le pend') /\
                (forall y, y ∈ pend' -> y ∈ pend \/ y ∈ enq).
Proof.
  induction enq as [|x enq IH]; intros s done pend Hf Hq Hd; simpl.
  - split; [exact Hf|]. split; [reflexivity|]. exists pend. auto.
  - destruct (queueWatcher_flushing x s done pend Hf Hq Hd)
      as (Hf1 & Hi1 & pend1 & Hq1 & Hp1).
    destruct (IH (queueWatcher x s) done pend1 Hf1 Hq1) as
      (Hf2 & Hi2 & pend2 & Hq2 & Hs2 & Hm2); [congruence|].
    split; [exact Hf2|]. split; [congruence|].
    exists pend2. split; [exact Hq2|]. split.
    + intros Hs. apply Hs2. destruct Hp1 as [->| ->]; [exact Hs|].
      apply ins_right_sorted, Hs.
    + intros y Hy. rewrite elem_of_cons.
      destruct (Hm2 y Hy) as [H|H]; [|auto].
      destruct Hp1 as [->| ->]; [auto|].
      apply elem_of_ins_right in H. tauto.
Qed.

Section Order.
Context {U : Type}.
Variable run : nat -> U -> U * list nat.
Variable production : bool.




End Order.


(** Watcher 1 writes state that watcher 4 reads; nothing else happens. *)
Definition run_1_enqueues_4 (w : nat) (u : unit) : unit * list nat :=
  (u, if w =? 1 then [4] else []).


Example flush_1_3_4 :
  ran (fst (flushSchedulerQueue run_1_enqueues_4 false 10
              (queueWatcher 1 (queueWatcher 3 idle)) tt)) = [1; 3; 4].
Proof. vm_compute. reflexivity. Qed.

(** Watcher 5 writes state that watcher 3 reads. *)
Definition run_5_enqueues_3 (w : nat) (u : unit) : unit * list nat :=
  (u, if w =? 5 then [3] else []).


(** *** The guard against circular updates *)

(** How often [w] was run. *)
Definition runs_of (w : nat) (l : list nat) : nat :=
  length (filter (fun x => x = w) l).

Lemma runs_of_snoc w l x :
  runs_of w (l ++ [x]) = runs_of w l + (if decide (x = w) then 1 else 0).
Proof.
  unfold runs_of. rewrite filter_app, length_app. f_equal.
  rewrite filter_cons, filter_nil. destruct (decide (x = w)); reflexivity.
Qed.

Lemma queueWatcher_circular x s : circular (queueWatcher x s) = circular s.
Proof.
  unfold queueWatcher. destruct (decide (x ∈ has s)); [reflexivity|].
  destruct (waiting s); reflexivity.
Qed.

Lemma foldl_queueWatcher_circular enq s :
  circular (foldl (fun acc w => queueWatcher w acc) s enq) = circular s.
Proof.
  revert s. induction enq as [|x enq IH]; intros s; simpl; [reflexivity|].
  rewrite IH. apply queueWatcher_circular.
Qed.

Lemma has_queueWatcher x s y :
  y ∈ has (queueWatcher x s) <-> y = x \/ y ∈ has s.
Proof.
  unfold queueWatcher. destruct (decide (x ∈ has s)) as [Hx|Hx].
  - split; [auto|]. intros [->|H]; assumption.
  - destruct (waiting s); simpl; set_solver.
Qed.

Lemma has_foldl_queueWatcher enq : forall s y,
  y ∈ has (foldl (fun acc w => queueWatcher w acc) s enq)
  <-> y ∈ enq \/ y ∈ has s.
Proof.
  induction enq as [|x enq IH]; intros s y; simpl.
  - rewrite elem_of_nil. tauto.
  - rewrite IH, has_queueWatcher, elem_of_cons. tauto.
Qed.

Section Again.
Context {U : Type}.
Variable run : nat -> U -> U * list nat.
Variable production : bool.

(** The test [has[id] != null] right after [watcher.run()] in the
    iteration for [id]: the watcher was made pending again by its own
    run. *)
Definition pending_again (id : nat) (st : Flush U) : bool :=
  bool_decide
    (id ∈ has (foldl (fun acc w => queueWatcher w acc)
                 (clear_has id (sched st)) (snd (run id (ustate st))))).

(** The state in which the loop goes on after an iteration. *)
Definition step_on (st1 : Flush U) : Flush U :=
  mkFlush (with_index (S (index (sched st1))) (sched st1))
          (ustate st1) (ran st1) (warned st1).

(** The watchers found pending again right after their own run, one entry
    per such run, in the order of the runs of [loop]. *)
Fixpoint found_again (fuel : nat) (st : Flush U) : list nat :=
  match queue (sched st) !! index (sched st) with
  | None => []
  | Some id =>
      match fuel with
      | 0 => []
      | S fuel' =>
          (if pending_again id st then [id] else []) ++
          (if snd (iteration run production id st) then []
           else found_again fuel'
                  (step_on (fst (iteration run production id st))))
      end
  end.

(** It was: the run handed the watcher itself to [queueWatcher]. *)
Lemma pending_again_spec id st :
  pending_again id st = bool_decide (id ∈ snd (run id (ustate st))).
Proof.
  unfold pending_again. apply bool_decide_ext.
  rewrite has_foldl_queueWatcher. simpl. set_solver.
Qed.
End Again.

Section GuardAgain.
Context {U : Type}.
Variable run : nat -> U -> U * list nat.

(** No warning yet; the counters of [circular] are the numbers of times
    the watchers were found pending again, none above the ceiling. *)
Definition counting (acc : list nat) (st : Flush U) : Prop :=
  warned st = [] /\
  forall w, default 0 (circular (sched st) !! w) = runs_of w acc /\
            runs_of w acc <= MAX_UPDATE_COUNT.

Lemma loop_found fuel : forall st acc,
  counting acc st ->
  let again := acc ++ found_again run false fuel st in
  let r := loop run false fuel st in
  (forall w, runs_of w again <= S MAX_UPDATE_COUNT) /\
  (forall w, MAX_UPDATE_COUNT < runs_of w again ->
     snd r = true /\ warned (fst r) = [w] /\
     last (ran (fst r)) = Some w /\ last again = Some w) /\
  ((forall w, runs_of w again <= MAX_UPDATE_COUNT) -> warned (fst r) = []).
Proof.
  induction fuel as [|fuel IH]; intros st acc [Hw Hc]; simpl.
  - assert (Hle : forall w, runs_of w acc <= MAX_UPDATE_COUNT)
      by (intros w; apply Hc).
    destruct (queue (sched st) !! index (sched st)); simpl;
      rewrite app_nil_r; (split; [intros w; specialize (Hle w); lia|]);
      (split; [intros w Hm; specialize (Hle w); lia|auto]).
  - assert (Hle : forall w, runs_of w acc <= MAX_UPDATE_COUNT)
      by (intros w; apply Hc).
    destruct (queue (sched st) !! index (sched st)) as [id|]; simpl.
    2:{ rewrite app_nil_r. split; [intros w; specialize (Hle w); lia|].
        split; [intros w Hm; specialize (Hle w); lia|auto]. }
    unfold pending_again, iteration.
    destruct (run id (ustate st)) as [u enq]. cbn [snd].
    set (s2 := foldl _ (clear_has id (sched st)) enq).
    assert (Hcirc : circular s2 = circular (sched st))
      by (subst s2; rewrite foldl_queueWatcher_circular; reflexivity).
    simpl negb. rewrite andb_true_l.
    destruct (bool_decide (id ∈ has s2)).
    + rewrite Hcirc. destruct (Hc id) as [Hid Hid'].
      rewrite Hid.
      destruct (MAX_UPDATE_COUNT <? S (runs_of id acc)) eqn:E; cbn [fst snd].
      * apply Nat.ltb_lt in E. rewrite app_nil_r.
        assert (Hr : forall w, runs_of w (acc ++ [id])
                     = runs_of w acc + (if decide (id = w) then 1 else 0))
          by (intros w; apply runs_of_snoc).
        split.
        { intros w. rewrite Hr. specialize (Hle w).
          destruct (decide (id = w)); lia. }
        split.
        { intros w Hm. rewrite Hr in Hm. specialize (Hle w).
          destruct (decide (id = w)) as [<-|]; [|lia].
          simpl. rewrite Hw, !last_snoc. auto. }
        intros Hall. specialize (Hall id). rewrite Hr in Hall.
        destruct (decide (id = id)); [lia|congruence].
      * apply Nat.ltb_ge in E.
        set (st1 := step_on _).
        assert (H1 : counting (acc ++ [id]) st1).
        { split; [exact Hw|]. intros w. simpl.
          rewrite runs_of_snoc, lookup_insert.
          destruct (decide (id = w)) as [<-|Hne]; simpl.
          - lia.
          - specialize (Hc w). lia. }
        specialize (IH st1 (acc ++ [id]) H1).
        rewrite <- app_assoc in IH. exact IH.
    + cbn [fst snd]. simpl app.
      set (st1 := step_on _).
      assert (H1 : counting acc st1).
      { split; [exact Hw|]. intros w. simpl. rewrite Hcirc. apply Hc. }
      exact (IH st1 acc H1).
Qed.
End GuardAgain.

(** The watchers found pending again right after their own run, in the
    flush of [s]. *)
Definition found_again_in_flush {U : Type} (run : nat -> U -> U * list nat)
    (production : bool) (fuel : nat) (s : Sched) (u : U) : list nat :=
  found_again run production fuel
    (mkFlush (mkSched (sort_queue (queue s)) (has s) (circular s) (waiting s)
                      true 0 (callbacks s) (pending s) (timers s))
             u [] []).

(** C4, as amended.  In a development build, as soon as one watcher has
    been found pending again right after its own run more than
    [MAX_UPDATE_COUNT] times in a flush, the warning names it and the
    loop is left: that run is the last run of the flush, and no watcher
    is ever found pending again more than [MAX_UPDATE_COUNT + 1] times.
    Nothing is reported as long as no watcher is above the ceiling.  The
    reset of the scheduler state that follows empties the queue, so the
    watchers still pending there are not run. *)
Theorem cycle_guard_ends_flush {U : Type}
    (run : nat -> U -> U * list nat) (fuel : nat) (s : Sched) (u : U) :
  circular s = ∅ ->
  let again := found_again_in_flush run false fuel s u in
  let r := flushSchedulerQueue run false fuel s u in
  (forall w, runs_of w again <= S MAX_UPDATE_COUNT) /\
  (forall w, MAX_UPDATE_COUNT < runs_of w again ->
     snd r = true /\ warned (fst r) = [w] /\
     last (ran (fst r)) = Some w /\ last again = Some w) /\
  ((forall w, runs_of w again <= MAX_UPDATE_COUNT) -> warned (fst r) = []) /\
  (forall id st, pending_again run id st
                 = bool_decide (id ∈ snd (run id (ustate st)))) /\
  queue (sched (fst r)) = [] /\ has (sched (fst r)) = ∅ /\
  circular (sched (fst r)) = ∅ /\
  waiting (sched (fst r)) = false /\ flushing (sched (fst r)) = false /\
  index (sched (fst r)) = 0.
Proof.
  intros Hc again r. subst again r.
  unfold found_again_in_flush, flushSchedulerQueue.
  set (st0 := mkFlush _ _ _ _).
  assert (H0 : counting [] st0).
  { split; [reflexivity|]. intros w. simpl. rewrite Hc, lookup_empty.
    simpl. unfold runs_of. simpl. lia. }
  pose proof (loop_found run fuel st0 [] H0) as H. simpl in H.
  destruct (loop run false fuel st0) as [st fin]; simpl in *.
  destruct H as (A & B & C).
  split; [exact A|]. split; [exact B|]. split; [exact C|].
  split; [apply pending_again_spec|]. repeat split.
Qed.

(** Watcher 1 writes, in every run, state that it reads itself. *)
Definition run_1_enqueues_itself (w : nat) (u : nat) : nat * list nat :=
  (S u, if w =? 1 then [1] else []).

Lemma cycle_guard_ends_flush_witness :
  let again := found_again_in_flush run_1_enqueues_itself false 200
                 (queueWatcher 2 (queueWatcher 1 idle)) 0 in
  let r := flushSchedulerQueue run_1_enqueues_itself false 200
             (queueWatcher 2 (queueWatcher 1 idle)) 0 in
  runs_of 1 again = 101 /\
  snd r = true /\ warned (fst r) = [1] /\
  last (ran (fst r)) = Some 1 /\ last again = Some 1 /\
  queue (sched (fst r)) = [].
Proof.
  intros again r.
  assert (E : runs_of 1 again = 101) by (vm_compute; reflexivity).
  assert (Hc : circular (queueWatcher 2 (queueWatcher 1 idle)) = ∅)
    by reflexivity.
  destruct (cycle_guard_ends_flush run_1_enqueues_itself 200
              (queueWatcher 2 (queueWatcher 1 idle)) 0 Hc)
    as (_ & B & _ & _ & Q & _).
  split; [exact E|].
  destruct (B 1) as (b1 & b2 & b3 & b4).
  { fold again. rewrite E. unfold MAX_UPDATE_COUNT. lia. }
  auto 10.
Defined.

(** C4 as stated fails: watchers 1 and 2 are pending and watcher 1
    re-enqueues itself in every run.  The flush ends after the 101st run
    of watcher 1 with one warning; watcher 2, which was pending all along,
    is never run and is gone from the queue afterwards. *)
Lemma cycle_guard_counterexample :
  let r := flushSchedulerQueue run_1_enqueues_itself false 200
             (queueWatcher 2 (queueWatcher 1 idle)) 0 in
  snd r = true /\ warned (fst r) = [1] /\
  ran (fst r) = replicate 101 1 /\
  (2 ∉ ran (fst r)) /\ queue (sched (fst r)) = [].
Proof.
  intros r.
  assert (E : ran (fst r) = replicate 101 1) by (vm_compute; reflexivity).
  split; [vm_compute; reflexivity|]. split; [vm_compute; reflexivity|].
  split; [exact E|]. split; [|vm_compute; reflexivity].
  rewrite E. intros H. apply elem_of_replicate in H. lia.
Qed.

(** *** Enqueuing outside a flush *)

(** The scheduler between two flushes: every pending watcher is in the
    queue once, and [has] marks exactly the pending ones. *)
Definition at_rest (s : Sched) : Prop :=
  flushing s = false /\ NoDup (queue s) /\
  (forall x, x ∈ has s <-> x ∈ queue s).

Lemma at_rest_idle : at_rest idle.
Proof.
  split; [reflexivity|]. split; [constructor|].
  intros x. simpl. set_solver.
Qed.

Lemma queueWatcher_pending x s : x ∈ has s -> queueWatcher x s = s.
Proof.
  intros H. unfold queueWatcher. destruct (decide (x ∈ has s)); tauto.
Qed.

Lemma queueWatcher_at_rest x s :
  at_rest s -> x ∉ has s ->
  let s' := queueWatcher x s in
  at_rest s' /\ queue s' = queue s ++ [x] /\ waiting s' = true /\
  callbacks s'
  = callbacks s ++ (if waiting s then [] else [CbFlushSchedulerQueue]) /\
  pending s' = (if waiting s then pending s else true) /\
  timers s' = (if waiting s || pending s then timers s else S (timers s)).
Proof.
  intros (Hf & Hnd & Hh) Hx. unfold queueWatcher.
  destruct (decide (x ∈ has s)); [tauto|]. rewrite Hf.
  assert (Hr : NoDup (queue s ++ [x]) /\
               forall y, y ∈ {[x]} ∪ has s <-> y ∈ queue s ++ [x]).
  { split.
    - apply NoDup_app. split; [exact Hnd|]. split; [|apply NoDup_singleton].
      intros y Hy Hy'. apply list_elem_of_singleton in Hy'. subst y.
      apply Hx, Hh, Hy.
    - intros y. rewrite elem_of_app, list_elem_of_singleton, elem_of_union,
        elem_of_singleton, Hh. tauto. }
  destruct (waiting s) eqn:Hw; simpl.
  - rewrite app_nil_r. repeat split; try tauto; apply Hr.
  - destruct (pending s); repeat split; try tauto; apply Hr.
Qed.

Lemma foldl_queueWatcher_at_rest ids : forall s,
  at_rest s ->
  let s' := foldl (fun acc w => queueWatcher w acc) s ids in
  at_rest s' /\
  exists fresh, queue s' = queue s ++ fresh /\ sublist fresh ids /\
    (forall x, x ∈ fresh <-> x ∈ ids /\ x ∉ queue s) /\
    (if decide (fresh = []) then s' = s
     else waiting s' = true /\
          callbacks s'
          = callbacks s
            ++ (if waiting s then [] else [CbFlushSchedulerQueue]) /\
          timers s'
          = (if waiting s || pending s then timers s else S (timers s))).
Proof.
  induction ids as [|x ids IH]; intros s Hs; simpl.
  - split; [exact Hs|]. exists []. rewrite app_nil_r.
    split; [reflexivity|]. split; [constructor|].
    split; [intros x; rewrite !elem_of_nil; tauto|]. reflexivity.
  - destruct (decide (x ∈ has s)) as [Hx|Hx].
    + rewrite (queueWatcher_pending x s Hx).
      destruct (IH s Hs) as (Hr & fresh & Hq & Hsub & Hm & Hc).
      split; [exact Hr|]. exists fresh. split; [exact Hq|].
      split; [apply sublist_cons, Hsub|]. split; [|exact Hc].
      intros y. rewrite Hm, elem_of_cons.
      destruct Hs as (_ & _ & Hh). apply Hh in Hx.
      split; [tauto|]. intros [[->|H] Hn]; tauto.
    + destruct (queueWatcher_at_rest x s Hs Hx)
        as (Hs1 & Hq1 & Hw1 & Hc1 & Hp1 & Ht1).
      destruct (IH (queueWatcher x s) Hs1) as (Hr & fresh & Hq & Hsub & Hm & Hc).
      split; [exact Hr|]. exists (x :: fresh).
      split; [rewrite Hq, Hq1, <- app_assoc; reflexivity|].
      split; [apply sublist_skip, Hsub|]. split.
      * intros y. rewrite !elem_of_cons, Hm, Hq1, elem_of_app,
          list_elem_of_singleton.
        destruct Hs as (_ & _ & Hh). rewrite Hh in Hx.
        destruct (decide (y = x)) as [->|Hne]; tauto.
      * destruct (decide (x :: fresh = [])); [discriminate|].
        destruct (decide (fresh = [])) as [->|Hne].
        -- rewrite Hc. auto.
        -- destruct Hc as (Hw & Hcb & Ht). rewrite Hw1 in Hcb, Ht.
           simpl in Hcb, Ht. rewrite app_nil_r in Hcb.
           split; [exact Hw|]. split; congruence.
Qed.

(** X8.  Outside a flush, handing watchers to [queueWatcher] any number
    of times queues each watcher that was not already pending exactly
    once, in the order of the first requests, and asks [nextTick] for one
    flush at most: only when no flush was waiting already.  Requests for
    watchers that are all pending change nothing. *)
Theorem queueWatcher_coalesces ids s :
  at_rest s ->
  let s' := foldl (fun acc w => queueWatcher w acc) s ids in
  at_rest s' /\
  exists fresh, queue s' = queue s ++ fresh /\ sublist fresh ids /\
    (forall x, x ∈ fresh <-> x ∈ ids /\ x ∉ queue s) /\
    (if decide (fresh = []) then s' = s
     else waiting s' = true /\
          callbacks s'
          = callbacks s
            ++ (if waiting s then [] else [CbFlushSchedulerQueue]) /\
          timers s'
          = (if waiting s || pending s then timers s else S (timers s))).
Proof. apply foldl_queueWatcher_at_rest. Qed.

Lemma queueWatcher_coalesces_witness :
  let s' := foldl (fun acc w => queueWatcher w acc) idle [3; 1; 3; 1; 2] in
  at_rest s' /\
  exists fresh, queue s' = queue idle ++ fresh /\
    sublist fresh [3; 1; 3; 1; 2] /\
    (forall x, x ∈ fresh <-> x ∈ [3; 1; 3; 1; 2] /\ x ∉ queue idle) /\
    (if decide (fresh = []) then s' = idle
     else waiting s' = true /\
          callbacks s' = callbacks idle ++ [CbFlushSchedulerQueue] /\
          timers s' = S (timers idle)).
Proof.
  apply (queueWatcher_coalesces [3; 1; 3; 1; 2] idle). apply at_rest_idle.
Defined.

(** *** A flush whose runs enqueue nothing *)

Section Quiet.
Context {U : Type}.
Variable run : nat -> U -> U * list nat.
Variable production : bool.
Hypothesis run_quiet : forall w u, snd (run w u) = [].

Lemma iteration_quiet id st :
  iteration run production id st
  = (mkFlush (clear_has id (sched st)) (fst (run id (ustate st)))
             (ran st ++ [id]) (warned st), false).
Proof.
  unfold iteration. specialize (run_quiet id (ustate st)).
  destruct (run id (ustate st)) as [u enq]. simpl in *. subst enq. simpl.
  rewrite bool_decide_eq_false_2 by set_solver.
  rewrite andb_false_r. reflexivity.
Qed.

Lemma loop_quiet fuel : forall st,
  length (queue (sched st)) - index (sched st) <= fuel ->
  let pend := drop (index (sched st)) (queue (sched st)) in
  let r := loop run production fuel st in
  snd r = true /\
  ran (fst r) = ran st ++ pend /\
  ustate (fst r) = foldl (fun u w => fst (run w u)) (ustate st) pend /\
  warned (fst r) = warned st /\
  queue (sched (fst r)) = queue (sched st) /\
  circular (sched (fst r)) = circular (sched st) /\
  callbacks (sched (fst r)) = callbacks (sched st) /\
  pending (sched (fst r)) = pending (sched st) /\
  timers (sched (fst r)) = timers (sched st).
Proof.
  induction fuel as [|fuel IH]; intros st Hfuel pend r; subst pend r.
  - simpl. destruct (queue (sched st) !! index (sched st)) as [id|] eqn:Hid.
    + apply lookup_lt_Some in Hid. lia.
    + apply lookup_ge_None in Hid. rewrite drop_ge by exact Hid. simpl.
      rewrite app_nil_r. auto 10.
  - simpl. destruct (queue (sched st) !! index (sched st)) as [id|] eqn:Hid.
    + rewrite iteration_quiet. simpl.
      pose proof (lookup_lt_Some _ _ _ Hid) as Hlt.
      match goal with |- context [loop run production fuel ?st1] =>
        destruct (IH st1) as (A & B & C & D & E & F & G & H & I);
          [simpl; lia|];
        simpl in B, C, D, E, F, G, H, I
      end.
      rewrite (drop_S _ _ _ Hid). simpl.
      rewrite A, B, C, D, E, F, G, H, I, <- app_assoc. auto 10.
    + apply lookup_ge_None in Hid. rewrite drop_ge by exact Hid. simpl.
      rewrite app_nil_r. auto 10.
Qed.

Lemma flushSchedulerQueue_quiet fuel s u :
  length (queue s) <= fuel ->
  let r := flushSchedulerQueue run production fuel s u in
  snd r = true /\
  ran (fst r) = sort_queue (queue s) /\
  ustate (fst r) = foldl (fun u w => fst (run w u)) u (sort_queue (queue s)) /\
  warned (fst r) = [] /\
  sched (fst r)
  = mkSched [] ∅ (if production then circular s else ∅) false false 0
            (callbacks s) (pending s) (timers s).
Proof.
  intros Hfuel r. subst r. unfold flushSchedulerQueue.
  set (st0 := mkFlush _ _ _ _).
  destruct (loop_quiet fuel st0) as (A & B & C & D & _ & F & G & H & I).
  { simpl. unfold sort_queue. rewrite merge_sort_Permutation. lia. }
  destruct (loop run production fuel st0) as [st fin]; simpl in *.
  rewrite B, C, D. repeat split; try assumption.
  unfold resetSchedulerState. rewrite F, G, H, I. reflexivity.
Qed.
End Quiet.

(** X9.  When no run enqueues a watcher, the flush ends after as many
    iterations as the queue is long: every queued watcher is run exactly
    once, in ascending id order, each on the state the previous one left;
    nothing is reported, and the scheduler is reset. *)
Theorem flush_runs_each_once {U : Type}
    (run : nat -> U -> U * list nat) (production : bool)
    (fuel : nat) (s : Sched) (u : U) :
  (forall w u, snd (run w u) = []) ->
  length (queue s) <= fuel ->
  let r := flushSchedulerQueue run production fuel s u in
  snd r = true /\
  ran (fst r) = sort_queue (queue s) /\
  ran (fst r) ≡ₚ queue s /\
  ustate (fst r) = foldl (fun u w => fst (run w u)) u (sort_queue (queue s)) /\
  warned (fst r) = [] /\
  queue (sched (fst r)) = [] /\ has (sched (fst r)) = ∅ /\
  waiting (sched (fst r)) = false /\ flushing (sched (fst r)) = false.
Proof.
  intros Hq Hfuel r.
  destruct (flushSchedulerQueue_quiet run production Hq fuel s u Hfuel)
    as (A & B & C & D & E).
  fold r in A, B, C, D, E. rewrite E. simpl.
  repeat split; try assumption.
  rewrite B. unfold sort_queue. apply merge_sort_Permutation.
Qed.

(** Runs that only count how often they were called. *)
Definition run_counts (w : nat) (u : nat) : nat * list nat := (S u, []).

Lemma flush_runs_each_once_witness :
  let r := flushSchedulerQueue run_counts false 3
             (queueWatcher 1 (queueWatcher 5 (queueWatcher 3 idle))) 0 in
  snd r = true /\
  ran (fst r) = sort_queue [3; 5; 1] /\
  ran (fst r) ≡ₚ [3; 5; 1] /\
  ustate (fst r)
  = foldl (fun u w => fst (run_counts w u)) 0 (sort_queue [3; 5; 1]) /\
  warned (fst r) = [] /\
  queue (sched (fst r)) = [] /\ has (sched (fst r)) = ∅ /\
  waiting (sched (fst r)) = false /\ flushing (sched (fst r)) = false.
Proof.
  apply (flush_runs_each_once run_counts false 3
           (queueWatcher 1 (queueWatcher 5 (queueWatcher 3 idle))) 0).
  - reflexivity.
  - vm_compute. lia.
Defined.

(** *** What a flush has run when it ends *)

Lemma foldl_queueWatcher_keeps enq : forall s done pend,
  flushing s = true ->
  queue s = done ++ pend ->
  length done = S (index s) ->
  exists pend', queue (foldl (fun acc w => queueWatcher w acc) s enq)
                = done ++ pend' /\
                forall y, y ∈ pend -> y ∈ pend'.
Proof.
  induction enq as [|x enq IH]; intros s done pend Hf Hq Hd; simpl.
  - exists pend. auto.
  - destruct (queueWatcher_flushing x s done pend Hf Hq Hd)
      as (Hf1 & Hi1 & pend1 & Hq1 & Hp1).
    destruct (IH (queueWatcher x s) done pend1 Hf1 Hq1) as (pend2 & Hq2 & Hm2);
      [congruence|].
    exists pend2. split; [exact Hq2|].
    intros y Hy. apply Hm2. destruct Hp1 as [->| ->]; [exact Hy|].
    apply elem_of_ins_right. auto.
Qed.

Section Prefix.
Context {U : Type}.
Variable run : nat -> U -> U * list nat.
Variable production : bool.

(** At the head of the loop: a flush is in progress and the watchers run
    so far are the queue entries before [index]. *)
Definition run_prefix (st : Flush U) : Prop :=
  flushing (sched st) = true /\
  ran st = take (index (sched st)) (queue (sched st)).

Lemma iteration_prefix id st :
  run_prefix st ->
  queue (sched st) !! index (sched st) = Some id ->
  let st1 := fst (iteration run production id st) in
  let brk := snd (iteration run production id st) in
  flushing (sched st1) = true /\
  index (sched st1) = index (sched st) /\
  ran st1 = take (S (index (sched st1))) (queue (sched st1)) /\
  ran st1 = ran st ++ [id] /\
  (forall x, x ∈ queue (sched st) -> x ∈ queue (sched st1)) /\
  warned st1 = warned st ++ (if brk then [id] else []).
Proof.
  intros [Hf Hr] Hid.
  pose proof (lookup_lt_Some _ _ _ Hid) as Hlt.
  set (done := take (S (index (sched st))) (queue (sched st))).
  set (pend := drop (S (index (sched st))) (queue (sched st))).
  assert (Hdp : queue (sched st) = done ++ pend)
    by (symmetry; apply take_drop).
  assert (Hdl : length done = S (index (sched st)))
    by (subst done; rewrite length_take; lia).
  assert (Hdone : ran st ++ [id] = done).
  { subst done. rewrite (take_S_r _ _ _ Hid), Hr. reflexivity. }
  unfold iteration.
  destruct (run id (ustate st)) as [u enq].
  destruct (foldl_queueWatcher_flushing enq
              (clear_has id (sched st)) done pend Hf Hdp Hdl)
    as (Hf2 & Hi2 & _).
  destruct (foldl_queueWatcher_keeps enq
              (clear_has id (sched st)) done pend Hf Hdp Hdl)
    as (pend2 & Hq2 & Hm2).
  set (s2 := foldl _ _ enq) in *. simpl in Hi2.
  assert (Htake : take (S (index (sched st))) (queue s2) = ran st ++ [id]).
  { rewrite Hq2, take_app_length' by (symmetry; exact Hdl).
    symmetry. exact Hdone. }
  assert (Hin : forall x, x ∈ queue (sched st) -> x ∈ queue s2).
  { intros x. rewrite Hdp, Hq2, !elem_of_app. intros [H|H]; auto. }
  destruct (negb production && bool_decide (id ∈ has s2));
    [destruct (MAX_UPDATE_COUNT <? _)|]; simpl;
    rewrite ?app_nil_r, Hi2, Htake; auto 10.
Qed.

Lemma loop_prefix fuel : forall st,
  run_prefix st ->
  let r := loop run production fuel st in
  (forall x, x ∈ queue (sched st) -> x ∈ queue (sched (fst r))) /\
  ((warned (fst r) = warned st /\
    ran (fst r) = take (index (sched (fst r))) (queue (sched (fst r))) /\
    (snd r = true -> ran (fst r) = queue (sched (fst r)))) \/
   (exists id, warned (fst r) = warned st ++ [id] /\
      ran (fst r)
      = take (S (index (sched (fst r)))) (queue (sched (fst r))) /\
      last (ran (fst r)) = Some id)).
Proof.
  induction fuel as [|fuel IH]; intros st Hp r; subst r.
  - simpl. destruct Hp as [Hf Hr].
    destruct (queue (sched st) !! index (sched st)) as [id|] eqn:Hid; simpl.
    + split; [auto|]. left. split; [reflexivity|]. split; [exact Hr|].
      discriminate.
    + split; [auto|]. left. split; [reflexivity|]. split; [exact Hr|].
      intros _. rewrite Hr. apply take_ge. apply lookup_ge_None. exact Hid.
  - simpl.
    destruct (queue (sched st) !! index (sched st)) as [id|] eqn:Hid; simpl.
    + pose proof (iteration_prefix id st Hp Hid) as (Hf & Hi & Hr & Hr' & Hin & Hw).
      destruct (iteration run production id st) as [st1 brk]; simpl in *.
      destruct brk; simpl.
      * split; [exact Hin|]. right. exists id. split; [exact Hw|].
        split; [exact Hr|]. rewrite Hr'. apply last_snoc.
      * rewrite app_nil_r in Hw.
        match goal with |- context [loop run production fuel ?st2] =>
          set (st' := st2);
          destruct (IH st') as [Hin2 Hcase]; [split; [exact Hf|exact Hr]|]
        end.
        split; [intros x Hx; apply Hin2, Hin, Hx|].
        destruct Hcase as [(A & B)|(id' & A & B)];
          [left|right; exists id']; (split; [|exact B]);
          rewrite A; simpl; congruence.
    + destruct Hp as [Hf Hr]. split; [auto|]. left.
      split; [reflexivity|]. split; [exact Hr|].
      intros _. rewrite Hr. apply take_ge. apply lookup_ge_None. exact Hid.
Qed.
End Prefix.

(** X10.  When the loop of a flush ends without the warning about a
    circular update, it has run the whole queue as it then stands, in
    queue order: every watcher that was queued when the flush began, and
    every watcher spliced in while it ran, each as often as it is in the
    queue.  ([updatedQueue], the copy taken before the reset, is thus
    the list of the runs.)  When the loop is left by the warning, the runs
    are the queue entries up to the watcher warned about. *)
Theorem flush_loop_runs_whole_queue {U : Type}
    (run : nat -> U -> U * list nat) (production : bool)
    (fuel : nat) (st0 : Flush U) :
  flushing (sched st0) = true ->
  ran st0 = take (index (sched st0)) (queue (sched st0)) ->
  let st := fst (loop run production fuel st0) in
  (snd (loop run production fuel st0) = true -> warned st = warned st0 ->
   ran st = queue (sched st) /\
   forall x, x ∈ queue (sched st0) -> x ∈ ran st) /\
  (warned st <> warned st0 ->
   exists id, warned st = warned st0 ++ [id] /\ last (ran st) = Some id /\
     ran st = take (S (index (sched st))) (queue (sched st))).
Proof.
  intros Hf Hr st. subst st.
  destruct (loop_prefix run production fuel st0 (conj Hf Hr))
    as [Hin [(Hw & Hp & Hfin)|(id & Hw & Hp & Hl)]].
  - split; [|congruence]. intros Hfin' _. split; [apply Hfin, Hfin'|].
    intros x Hx. rewrite (Hfin Hfin'). apply Hin, Hx.
  - split.
    + intros _ Hw'. rewrite Hw' in Hw.
      apply (f_equal length) in Hw. rewrite length_app in Hw. simpl in Hw. lia.
    + intros _. exists id. auto.
Qed.

Lemma flush_loop_runs_whole_queue_witness :
  let st0 := mkFlush (mkSched [5] {[5]} ∅ true true 0 [] false 0) tt [] [] in
  let st := fst (loop run_5_enqueues_3 false 10 st0) in
  (snd (loop run_5_enqueues_3 false 10 st0) = true -> warned st = warned st0 ->
   ran st = queue (sched st) /\
   forall x, x ∈ queue (sched st0) -> x ∈ ran st) /\
  (warned st <> warned st0 ->
   exists id, warned st = warned st0 ++ [id] /\ last (ran st) = Some id /\
     ran st = take (S (index (sched st))) (queue (sched st))).
Proof.
  intros st0.
  apply (flush_loop_runs_whole_queue run_5_enqueues_3 false 10 st0);
    reflexivity.
Defined.

(** *** A production build has no guard *)

Lemma length_splice pos w q : length (splice pos w q) = S (length q).
Proof.
  unfold splice. rewrite length_app. simpl. rewrite length_take, length_drop.
  lia.
Qed.

Lemma queueWatcher_length x s :
  length (queue s) <= length (queue (queueWatcher x s)) /\
  (x ∉ has s -> length (queue (queueWatcher x s)) = S (length (queue s))) /\
  flushing (queueWatcher x s) = flushing s /\
  index (queueWatcher x s) = index s.
Proof.
  unfold queueWatcher. destruct (decide (x ∈ has s)) as [Hx|Hx].
  - split; [lia|]. split; [tauto|auto].
  - assert (Hl : length (if flushing s
                         then splice (scan (length (queue s)) (queue s)
                                        (index s) x) x (queue s)
                         else queue s ++ [x]) = S (length (queue s))).
    { destruct (flushing s); [apply length_splice|].
      rewrite length_app. simpl. lia. }
    destruct (waiting s); simpl; rewrite Hl; auto with lia.
Qed.

Lemma foldl_queueWatcher_grows enq : forall s id,
  id ∈ enq -> id ∉ has s ->
  let s' := foldl (fun acc w => queueWatcher w acc) s enq in
  length (queue s) < length (queue s') /\
  flushing s' = flushing s /\ index s' = index s.
Proof.
  assert (Hmono : forall l s,
            let s' := foldl (fun acc w => queueWatcher w acc) s l in
            length (queue s) <= length (queue s') /\
            flushing s' = flushing s /\ index s' = index s).
  { induction l as [|x l IH]; intros s; simpl; [auto|].
    destruct (IH (queueWatcher x s)) as (A & B & C).
    destruct (queueWatcher_length x s) as (A1 & _ & B1 & C1).
    split; [lia|]. split; congruence. }
  induction enq as [|x enq IH]; intros s id Hin Hn; simpl.
  - apply elem_of_nil in Hin. destruct Hin.
  - destruct (queueWatcher_length x s) as (A1 & A2 & B1 & C1).
    destruct (decide (x = id)) as [->|Hne].
    + destruct (Hmono enq (queueWatcher id s)) as (A & B & C).
      specialize (A2 Hn). split; [lia|]. split; congruence.
    + apply elem_of_cons in Hin as [->|Hin]; [congruence|].
      destruct (IH (queueWatcher x s) id Hin) as (A & B & C).
      { rewrite has_queueWatcher. intros [->|H]; [congruence|tauto]. }
      split; [lia|]. split; congruence.
Qed.

Section Unguarded.
Context {U : Type}.
Variable run : nat -> U -> U * list nat.
Hypothesis run_again : forall w u, w ∈ snd (run w u).

Lemma loop_unguarded fuel : forall st,
  index (sched st) < length (queue (sched st)) ->
  let r := loop run true fuel st in
  snd r = false /\ length (ran (fst r)) = length (ran st) + fuel /\
  warned (fst r) = warned st.
Proof.
  induction fuel as [|fuel IH]; intros st Hlt r; subst r; simpl.
  - destruct (lookup_lt_is_Some_2 _ _ Hlt) as [id ->]. simpl.
    split; [reflexivity|]. split; [lia|reflexivity].
  - destruct (lookup_lt_is_Some_2 _ _ Hlt) as [id Hid]. rewrite Hid.
    unfold iteration. specialize (run_again id (ustate st)).
    destruct (run id (ustate st)) as [u enq]. simpl in run_again.
    destruct (foldl_queueWatcher_grows enq (clear_has id (sched st)) id
                run_again) as (A & _ & C); [simpl; set_solver|].
    simpl in A, C. simpl.
    match goal with |- context [loop run true fuel ?st1] =>
      destruct (IH st1) as (X & Y & Z); [simpl; lia|]
    end.
    simpl in Y, Z. rewrite X, Y, Z, length_app. simpl.
    split; [reflexivity|]. split; [lia|reflexivity].
Qed.
End Unguarded.

(** X11.  The guard against circular updates exists in development
    builds only.  In a production build, when every watcher run hands
    itself to [queueWatcher] again, the flush of a non-empty queue never
    leaves its loop: whatever the bound on the number of iterations, the
    loop is still running when the bound is reached, and nothing is
    reported. *)
Theorem production_flush_has_no_guard {U : Type}
    (run : nat -> U -> U * list nat) (fuel : nat) (s : Sched) (u : U) :
  (forall w u, w ∈ snd (run w u)) ->
  queue s <> [] ->
  let r := flushSchedulerQueue run true fuel s u in
  snd r = false /\ length (ran (fst r)) = fuel /\ warned (fst r) = [].
Proof.
  intros Hrun Hq r. subst r. unfold flushSchedulerQueue.
  set (st0 := mkFlush _ _ _ _).
  destruct (loop_unguarded run Hrun fuel st0) as (A & B & C).
  { simpl. unfold sort_queue. rewrite merge_sort_Permutation.
    destruct (queue s); [congruence|simpl; lia]. }
  destruct (loop run true fuel st0) as [st fin]; simpl in *. auto.
Qed.

(** Every run writes state that the running watcher reads. *)
Definition run_enqueues_itself (w : nat) (u : nat) : nat * list nat :=
  (S u, [w]).

Lemma production_flush_has_no_guard_witness :
  let r := flushSchedulerQueue run_enqueues_itself true 500
             (queueWatcher 1 idle) 0 in
  snd r = false /\ length (ran (fst r)) = 500 /\ warned (fst r) = [].
Proof.
  apply (production_flush_has_no_guard run_enqueues_itself 500
           (queueWatcher 1 idle) 0).
  - intros w u. simpl. apply list_elem_of_singleton. reflexivity.
  - discriminate.
Defined.

(** *** next-tick.js: one tick *)

(** What a callback that user code handed to [nextTick] asks of the
    scheduler when it is called: [nextTick] again, or, by writing
    reactive state, [queueWatcher]. *)
Inductive request :=
| ReqNextTick (n : nat)
| ReqQueueWatcher (id : nat).

Definition serve (r : request) (s : Sched) : Sched :=
  match r with
  | ReqNextTick n => nextTick (CbOther n) s
  | ReqQueueWatcher id => queueWatcher id s
  end.

Section Tick.
Context {U : Type}.
(** [watcher.run()], as for the flush above. *)
Variable run : nat -> U -> U * list nat.
Variable production : bool.
(** The callback [n] of user code: the state it leaves, its requests in
    order, and whether it throws. *)
Variable call : nat -> U -> U * list request * bool.

Record Tick := mkTick {
  t_sched : Sched;
  t_ustate : U;
  t_called : list callback;   (* the callbacks called, in order *)
  t_ran : list nat;           (* the watchers run, in order *)
  t_errors : list nat         (* handleError(e, ctx, 'nextTick') *)
}.

(** The function [nextTick] pushed for [cb]: [cb.call(ctx)] inside
    [try]/[catch].  [None]: the flush did not end within [fuel]
    iterations. *)
Definition call_pushed (fuel : nat) (cb : callback) (t : Tick)
  : option Tick :=
  match cb with
  | CbFlushSchedulerQueue =>
      let '(fl, fin) :=
        flushSchedulerQueue run production fuel (t_sched t) (t_ustate t) in
      if fin
      then Some (mkTick (sched fl) (ustate fl) (t_called t ++ [cb])
                        (t_ran t ++ ran fl) (t_errors t))
      else None
  | CbOther n =>
      let '(u, reqs, threw) := call n (t_ustate t) in
      Some (mkTick (foldl (fun s r => serve r s) (t_sched t) reqs) u
                   (t_called t ++ [cb]) (t_ran t)
                   (if threw then t_errors t ++ [n] else t_errors t))
  end.

(** [for (let i = 0; i < copies.length; i++) copies[i]()] *)
Fixpoint call_copies (fuel : nat) (copies : list callback) (t : Tick)
  : option Tick :=
  match copies with
  | [] => Some t
  | cb :: rest => t1 ← call_pushed fuel cb t; call_copies fuel rest t1
  end.

(** [flushCallbacks ()] *)
Definition flushCallbacks (fuel : nat) (t : Tick) : option Tick :=
  let s := t_sched t in
  let copies := callbacks s in
  let s1 := mkSched (queue s) (has s) (circular s) (waiting s) (flushing s)
                    (index s) [] false (timers s) in
  call_copies fuel copies
    (mkTick s1 (t_ustate t) (t_called t) (t_ran t) (t_errors t)).

(** Since the tick began with [t0] timers requested: a timer is pending
    exactly when callbacks wait, and it is the only one requested. *)
Definition one_timer (t0 : nat) (s : Sched) : Prop :=
  (pending s = true <-> callbacks s <> []) /\
  timers s = (if pending s then S t0 else t0).

Lemma one_timer_nextTick t0 cb s : one_timer t0 s -> one_timer t0 (nextTick cb s).
Proof.
  intros [Hp Ht]. split; simpl.
  - split; [|reflexivity]. intros _ H. apply app_eq_nil in H as [_ H].
    discriminate.
  - rewrite Ht. destruct (pending s); reflexivity.
Qed.

Lemma one_timer_same t0 s s' :
  callbacks s' = callbacks s -> pending s' = pending s ->
  timers s' = timers s -> one_timer t0 s -> one_timer t0 s'.
Proof. intros Ec Ep Et [Hp Ht]. split; rewrite ?Ec, ?Ep, ?Et; assumption. Qed.

Lemma one_timer_queueWatcher t0 x s :
  one_timer t0 s -> one_timer t0 (queueWatcher x s).
Proof.
  intros H. unfold queueWatcher. destruct (decide (x ∈ has s)); [exact H|].
  destruct (waiting s).
  - apply (one_timer_same t0 s); auto.
  - apply one_timer_nextTick. apply (one_timer_same t0 s); auto.
Qed.

Lemma one_timer_foldl_queueWatcher t0 enq : forall s,
  one_timer t0 s -> one_timer t0 (foldl (fun acc w => queueWatcher w acc) s enq).
Proof.
  induction enq as [|x enq IH]; intros s H; simpl; [exact H|].
  apply IH, one_timer_queueWatcher, H.
Qed.

Lemma one_timer_iteration t0 id st :
  one_timer t0 (sched st) ->
  one_timer t0 (sched (fst (iteration run production id st))).
Proof.
  intros H. unfold iteration.
  destruct (run id (ustate st)) as [u enq].
  pose proof (one_timer_foldl_queueWatcher t0 enq (clear_has id (sched st)))
    as H2.
  set (s2 := foldl _ _ enq) in *.
  assert (J : one_timer t0 s2)
    by (apply H2; apply (one_timer_same t0 (sched st)); auto).
  destruct (negb production && bool_decide (id ∈ has s2));
    [destruct (MAX_UPDATE_COUNT <? _)|]; simpl;
    try exact J; apply (one_timer_same t0 s2); auto.
Qed.

Lemma one_timer_loop t0 fuel : forall st,
  one_timer t0 (sched st) ->
  one_timer t0 (sched (fst (loop run production fuel st))).
Proof.
  induction fuel as [|fuel IH]; intros st H; simpl.
  - destruct (queue (sched st) !! index (sched st)); exact H.
  - destruct (queue (sched st) !! index (sched st)) as [id|]; [|exact H].
    pose proof (one_timer_iteration t0 id st H) as H1.
    destruct (iteration run production id st) as [st1 brk]; simpl in *.
    destruct brk; [exact H1|]. apply IH. simpl.
    apply (one_timer_same t0 (sched st1)); auto.
Qed.

Lemma one_timer_flush t0 fuel s u :
  one_timer t0 s ->
  one_timer t0 (sched (fst (flushSchedulerQueue run production fuel s u))).
Proof.
  intros H. unfold flushSchedulerQueue.
  set (st0 := mkFlush _ _ _ _).
  pose proof (one_timer_loop t0 fuel st0) as H1.
  destruct (loop run production fuel st0) as [st fin]; simpl in *.
  apply (one_timer_same t0 (sched st)); auto.
Qed.

Lemma call_pushed_spec t0 fuel cb t t' :
  call_pushed fuel cb t = Some t' ->
  one_timer t0 (t_sched t) ->
  one_timer t0 (t_sched t') /\ t_called t' = t_called t ++ [cb].
Proof.
  unfold call_pushed. destruct cb as [|n].
  - pose proof (one_timer_flush t0 fuel (t_sched t) (t_ustate t)) as H.
    destruct (flushSchedulerQueue run production fuel (t_sched t) (t_ustate t))
      as [fl fin]; simpl in *.
    destruct fin; [|discriminate]. intros [= <-] J. simpl. auto.
  - destruct (call n (t_ustate t)) as [[u reqs] threw].
    intros [= <-] J. simpl. split; [|reflexivity].
    generalize (t_sched t) J. clear.
    induction reqs as [|r reqs IH]; intros s J; simpl; [exact J|].
    apply IH. destruct r; simpl;
      [apply one_timer_nextTick|apply one_timer_queueWatcher]; exact J.
Qed.

Lemma call_copies_spec t0 fuel copies : forall t t',
  call_copies fuel copies t = Some t' ->
  one_timer t0 (t_sched t) ->
  one_timer t0 (t_sched t') /\ t_called t' = t_called t ++ copies.
Proof.
  induction copies as [|cb rest IH]; intros t t'; simpl.
  - intros [= <-] J. rewrite app_nil_r. auto.
  - destruct (call_pushed fuel cb t) as [t1|] eqn:E; [|discriminate]. simpl.
    intros H J. destruct (call_pushed_spec t0 fuel cb t t1 E J) as [J1 C1].
    destruct (IH t1 t' H J1) as [J2 C2]. split; [exact J2|].
    rewrite C2, C1, <- app_assoc. reflexivity.
Qed.

Lemma call_copies_single fuel cb t :
  call_copies fuel [cb] t = call_pushed fuel cb t.
Proof. simpl. destruct (call_pushed fuel cb t); reflexivity. Qed.
End Tick.

Arguments Tick : clear implicits.

(** X12.  [flushCallbacks] calls the callbacks that were registered when
    it began, each once and in the order of registration.  Callbacks
    registered while it runs (by [nextTick] directly, or by
    [queueWatcher] asking for a flush) are not called by it: afterwards a
    timer is pending exactly when such callbacks wait, and however many
    were registered, one timer was requested for them. *)
Theorem flushCallbacks_defers_new_callbacks {U : Type}
    (run : nat -> U -> U * list nat) (production : bool)
    (call : nat -> U -> U * list request * bool)
    (fuel : nat) (t t' : Tick U) :
  flushCallbacks run production call fuel t = Some t' ->
  t_called t' = t_called t ++ callbacks (t_sched t) /\
  (pending (t_sched t') = true <-> callbacks (t_sched t') <> []) /\
  timers (t_sched t')
  = (if pending (t_sched t') then S (timers (t_sched t))
     else timers (t_sched t)).
Proof.
  unfold flushCallbacks. intros H.
  apply (call_copies_spec run production call (timers (t_sched t))) in H
    as [[Hp Ht] Hc].
  - simpl in Hc. auto.
  - split; simpl; [|reflexivity]. split; [discriminate|congruence].
Qed.

(** Callback 1 asks for callback 2 and writes state that watcher 4 reads;
    callback 2 asks for nothing. *)
Definition call_1_asks (n : nat) (u : unit) : unit * list request * bool :=
  (u, if n =? 1 then [ReqNextTick 2; ReqQueueWatcher 4] else [], false).

Example tick_1_asks :
  let t := mkTick (nextTick (CbOther 1) (queueWatcher 3 idle)) tt [] [] [] in
  exists t',
    flushCallbacks run_1_enqueues_4 false call_1_asks 10 t = Some t' /\
    t_called t' = [CbFlushSchedulerQueue; CbOther 1] /\
    t_ran t' = [3] /\
    callbacks (t_sched t') = [CbOther 2; CbFlushSchedulerQueue] /\
    queue (t_sched t') = [4] /\
    timers (t_sched t') = 2.
Proof. eexists. vm_compute. auto 10. Qed.

Lemma flushCallbacks_defers_new_callbacks_witness :
  let t := mkTick (nextTick (CbOther 1) (queueWatcher 3 idle)) tt [] [] [] in
  exists t',
    flushCallbacks run_1_enqueues_4 false call_1_asks 10 t = Some t' /\
    t_called t' = t_called t ++ callbacks (t_sched t) /\
    (pending (t_sched t') = true <-> callbacks (t_sched t') <> []) /\
    timers (t_sched t')
    = (if pending (t_sched t') then S (timers (t_sched t))
       else timers (t_sched t)).
Proof.
  intros t.
  destruct (flushCallbacks run_1_enqueues_4 false call_1_asks 10 t)
    as [t'|] eqn:E; [|vm_compute in E; discriminate].
  exists t'. split; [reflexivity|].
  apply (flushCallbacks_defers_new_callbacks run_1_enqueues_4 false
           call_1_asks 10 t t' E).
Defined.

Lemma foldl_queueWatcher_frame enq : forall s,
  let s' := foldl (fun acc w => queueWatcher w acc) s enq in
  flushing s' = flushing s /\ index s' = index s.
Proof.
  induction enq as [|x enq IH]; intros s; simpl; [auto|].
  destruct (IH (queueWatcher x s)) as [-> ->].
  destruct (queueWatcher_length x s) as (_ & _ & -> & ->). auto.
Qed.

(** X13.  One whole tick.  With nothing pending, user code hands
    watchers to [queueWatcher] any number of times; when the timer fires,
    [flushCallbacks] calls the one flush that was asked for.  If no run
    makes a watcher pending again, that flush runs every watcher handed
    over exactly once, in ascending id order. *)
Theorem tick_runs_queued_watchers {U : Type}
    (run : nat -> U -> U * list nat) (production : bool)
    (call : nat -> U -> U * list request * bool)
    (fuel : nat) (ids : list nat) (u : U) :
  (forall w u, snd (run w u) = []) ->
  ids <> [] ->
  length ids <= fuel ->
  let s := foldl (fun acc w => queueWatcher w acc) idle ids in
  exists t',
    flushCallbacks run production call fuel (mkTick s u [] [] []) = Some t' /\
    t_called t' = [CbFlushSchedulerQueue] /\
    StronglySorted le (t_ran t') /\ NoDup (t_ran t') /\
    (forall x, x ∈ t_ran t' <-> x ∈ ids).
Proof.
  intros Hq Hne Hfuel s.
  destruct (foldl_queueWatcher_at_rest ids idle at_rest_idle)
    as ((Hfl & Hnd & Hh) & fresh & Hqs & Hsub & Hm & Hc).
  fold s in Hfl, Hnd, Hh, Hqs, Hc. simpl in Hqs, Hc.
  destruct (decide (fresh = [])) as [->|Hfresh].
  { destruct ids as [|x ids]; [congruence|].
    exfalso. apply (not_elem_of_nil x). apply Hm.
    split; [apply elem_of_cons; auto|apply not_elem_of_nil]. }
  destruct Hc as (Hw & Hcb & Ht).
  unfold flushCallbacks. cbn [t_sched t_ustate t_called t_ran t_errors].
  rewrite Hcb, call_copies_single. unfold call_pushed.
  cbn [t_sched t_ustate t_called t_ran t_errors].
  set (s1 := mkSched _ _ _ _ _ _ _ _ _).
  destruct (flushSchedulerQueue_quiet run production Hq fuel s1 u)
    as (A & B & C & D & E).
  { subst s1. simpl. rewrite Hqs. apply sublist_length in Hsub. lia. }
  destruct (flushSchedulerQueue run production fuel s1 u) as [fl fin].
  cbn [fst snd t_sched t_ustate] in *. subst fin.
  eexists. split; [reflexivity|].
  cbn [t_called t_ran t_ustate t_errors t_sched]. simpl app.
  subst s1. cbn [queue circular callbacks pending timers] in B, C, E.
  rewrite B.
  assert (Hperm : sort_queue (queue s) ≡ₚ queue s)
    by apply merge_sort_Permutation.
  split; [reflexivity|].
  split; [apply StronglySorted_merge_sort; apply _|].
  split; [rewrite Hperm; exact Hnd|].
  intros x. rewrite Hperm, Hqs, Hm. split; [tauto|].
  intros H. split; [exact H|apply not_elem_of_nil].
Qed.

(** No callback of user code asks for anything. *)
Definition call_asks_nothing (n : nat) (u : nat)
  : nat * list request * bool := (u, [], false).

Lemma tick_runs_queued_watchers_witness :
  let s := foldl (fun acc w => queueWatcher w acc) idle [3; 1; 3; 2] in
  exists t',
    flushCallbacks run_counts false call_asks_nothing 4 (mkTick s 0 [] [] [])
    = Some t' /\
    t_called t' = [CbFlushSchedulerQueue] /\
    StronglySorted le (t_ran t') /\ NoDup (t_ran t') /\
    (forall x, x ∈ t_ran t' <-> x ∈ [3; 1; 3; 2]).
Proof.
  apply (tick_runs_queued_watchers run_counts false call_asks_nothing 4
           [3; 1; 3; 2] 0).
  - reflexivity.
  - discriminate.
  - simpl. lia.
Defined.

End Scheduler.

(* ===================================================================== *)
(** ** Observed objects: Observer, observe, defineReactive, set *)
(* ===================================================================== *)

Module Observer.
Import JS.

(** A property key: [KIndex n] is the number [n] or its decimal string
    (what [isValidArrayIndex] accepts), [KName] any other name. *)
Inductive key := KIndex (n : nat) | KName (s : string).

#[global] Instance key_eq_dec : EqDecision key.
Proof. solve_decision. Defined.

(** What [Array.isArray], [isPlainObject] and [instanceof VNode] tell
    apart. *)
Inductive kind := KPlain | KArray | KVNode | KOther.

#[global] Instance kind_eq_dec : EqDecision kind.
Proof. solve_decision. Defined.

(** The closure variables of one [defineReactive] call, and what it found
    on the property: [r_getter] is the value the property's own getter
    returns ([None]: it had no getter), [r_setter] whether it had a setter
    of its own.  Such a setter is taken to store into the slot its getter
    reads. *)
Record Reactive := mkReactive {
  r_dep : nat;               (* const dep = new Dep() *)
  r_val : value;             (* val *)
  r_childOb : option nat;    (* childOb: the object whose Observer it is *)
  r_shallow : bool;
  r_custom : bool;           (* a customSetter was passed *)
  r_getter : option value;
  r_setter : bool
}.

(** An own property.  A configurable data property is taken to be
    writable; whether one that is not configurable is writable is not
    recorded. *)
Inductive descriptor :=
| Data (v : value) (configurable : bool)
| Accessor (get : option value) (set : bool) (configurable : bool)
| Tracked (rc : Reactive).          (* defined by defineReactive *)

(** An [Observer] instance, stored with the object it is attached to
    ([this.value] is that object). *)
Record ObserverRec := mkOb { ob_dep : nat; vmCount : nat }.

(** The markers [__ob__] and [_isVue] of an object are the fields [ob] and
    [isVue]; [props] and [inherited] hold its other keys. *)
Record Obj := mkObj {
  o_kind : kind;
  props : list (key * descriptor);   (* own enumerable properties, in order *)
  elems : list value;                (* the elements, for an array *)
  ob : option ObserverRec;           (* own __ob__ that is an Observer *)
  extensible : bool;                 (* Object.isExtensible *)
  isVue : bool;                      (* _isVue *)
  inherited : list key               (* keys found on the prototype chain
                                        below Object.prototype *)
}.

Inductive warning :=
| WSetOnPrimitive        (* Cannot set reactive property on undefined, ... *)
| WAvoidAdding           (* Avoid adding reactive properties to a Vue instance ... *)
| WCustomSetter.         (* customSetter() *)

Inductive event :=
| ENotify (d : nat)      (* dep.notify() of the Dep with id d *)
| EWarn (w : warning)
| ETypeError.            (* an assignment that strict mode refuses *)

Record Heap := mkHeap {
  objs : gmap nat Obj;
  dep_uid : nat;             (* dep.js: let uid = 0 *)
  shouldObserve : bool;
  serverRendering : bool;    (* isServerRendering() *)
  production : bool;         (* process.env.NODE_ENV === 'production' *)
  events : list event
}.

Definition with_objs (m : gmap nat Obj) (h : Heap) : Heap :=
  mkHeap m (dep_uid h) (shouldObserve h) (serverRendering h) (production h)
         (events h).

Definition put (r : nat) (o : Obj) (h : Heap) : Heap :=
  with_objs (<[r := o]> (objs h)) h.

Definition emit (e : event) (h : Heap) : Heap :=
  mkHeap (objs h) (dep_uid h) (shouldObserve h) (serverRendering h)
         (production h) (events h ++ [e]).

(** [new Dep()]: [this.id = uid++]. *)
Definition new_dep (h : Heap) : nat * Heap :=
  (dep_uid h,
   mkHeap (objs h) (S (dep_uid h)) (shouldObserve h) (serverRendering h)
          (production h) (events h)).

Definition with_props (ps : list (key * descriptor)) (o : Obj) : Obj :=
  mkObj (o_kind o) ps (elems o) (ob o) (extensible o) (isVue o) (inherited o).

Definition with_elems (es : list value) (o : Obj) : Obj :=
  mkObj (o_kind o) (props o) es (ob o) (extensible o) (isVue o) (inherited o).

Definition with_ob (x : option ObserverRec) (o : Obj) : Obj :=
  mkObj (o_kind o) (props o) (elems o) x (extensible o) (isVue o) (inherited o).

(** The own property descriptor of [k]. *)
Fixpoint lookup_prop (k : key) (ps : list (key * descriptor))
  : option descriptor :=
  match ps with
  | [] => None
  | (k', d) :: r => if decide (k' = k) then Some d else lookup_prop k r
  end.

(** [Object.defineProperty]: an existing key keeps its place, a new one
    goes to the end. *)
Fixpoint define_prop (k : key) (d : descriptor) (ps : list (key * descriptor))
  : list (key * descriptor) :=
  match ps with
  | [] => [(k, d)]
  | (k', d') :: r =>
      if decide (k' = k) then (k, d) :: r else (k', d') :: define_prop k d r
  end.

(** What reading the property gives. *)
Definition read_descriptor (d : descriptor) : value :=
  match d with
  | Data v _ => v
  | Accessor g _ _ => default VUndefined g
  | Tracked rc => match r_getter rc with Some g => g | None => r_val rc end
  end.

Definition has_getter (d : descriptor) : option value :=
  match d with
  | Data _ _ => None
  | Accessor g _ _ => g
  | Tracked rc => Some (read_descriptor d)
  end.

Definition has_setter (d : descriptor) : bool :=
  match d with
  | Data _ _ => false
  | Accessor _ s _ => s
  | Tracked _ => true
  end.

Definition is_configurable (d : descriptor) : bool :=
  match d with
  | Data _ c => c
  | Accessor _ _ c => c
  | Tracked _ => true
  end.

(** [isObject(value)]: a reference to an object that is on the heap. *)
Definition object_of (h : Heap) (v : value) : option (nat * Obj) :=
  match v with
  | VRef r => o ← objs h !! r; Some (r, o)
  | _ => None
  end.

(** The test of [observe] for creating an observer. *)
Definition observable (h : Heap) (o : Obj) : bool :=
  shouldObserve h && negb (serverRendering h) &&
  (bool_decide (o_kind o = KArray) || bool_decide (o_kind o = KPlain)) &&
  extensible o && negb (isVue o).

(** How a call ended. *)
Inductive completion := Returned (v : value) | Thrown.

Section WithObserve.
(** [observe], as available to the code it calls back into. *)
Variable observe_rec : value -> bool -> Heap -> option (Heap * option nat).

(** [defineReactive (obj, key, val, customSetter, shallow)]; [val] is
    [None] for the two-argument call.  A property that is already reactive
    is seen as an accessor pair: its present value is what the getter
    returns, and the closure of the earlier definition is dropped.
    [Object.defineProperty] throws a TypeError for a new key on an object
    that is not extensible.  [None] from this function itself: a reactive
    property of an object that is not extensible, of which the model does
    not say whether it is still configurable. *)
Definition defineReactive_with (r : nat) (k : key) (val : option value)
    (custom shallow : bool) (h : Heap) : option (Heap * completion) :=
  let '(d, h1) := new_dep h in
  match objs h1 !! r with
  | None => Some (h1, Returned VUndefined)
  | Some o =>
      let property := lookup_prop k (props o) in
      if match property with
         | Some p => negb (is_configurable p)
         | None => false
         end
      then Some (h1, Returned VUndefined)
      else if negb (extensible o) &&
              match property with Some (Tracked _) => true | _ => false end
      then None
      else
        let getter := property ≫= has_getter in
        let setter := match property with
                      | Some p => has_setter p
                      | None => false
                      end in
        let v := match val, getter with
                 | Some v, _ => v
                 | None, Some _ => VUndefined
                 | None, None => from_option read_descriptor VUndefined property
                 end in
        '(h2, childOb) ← (if shallow then Some (h1, None)
                          else observe_rec v false h1);
        match objs h2 !! r with
        | None => Some (h2, Returned VUndefined)
        | Some o2 =>
            if negb (extensible o2) &&
               bool_decide (lookup_prop k (props o2) = None)
            then Some (emit ETypeError h2, Thrown)
            else
              Some (put r (with_props
                             (define_prop k
                                (Tracked (mkReactive d v childOb shallow
                                            custom getter setter))
                                (props o2)) o2) h2,
                    Returned VUndefined)
        end
  end.

(** [walk (obj)] over [Object.keys(obj)], taken before the loop.  The
    keys are own keys, for which [Object.defineProperty] does not throw;
    [None] otherwise. *)
Fixpoint walk_with (r : nat) (keys : list key) (h : Heap) : option Heap :=
  match keys with
  | [] => Some h
  | k :: rest =>
      '(h1, c) ← defineReactive_with r k None false false h;
      match c with
      | Returned _ => walk_with r rest h1
      | Thrown => None
      end
  end.

(** [observeArray (items)] *)
Fixpoint observeArray_with (items : list value) (h : Heap) : option Heap :=
  match items with
  | [] => Some h
  | v :: rest =>
      '(h1, _) ← observe_rec v false h;
      observeArray_with rest h1
  end.

(** [new Observer(value)] for the object at [r]. *)
Definition new_Observer_with (r : nat) (h : Heap) : option Heap :=
  let '(d, h1) := new_dep h in
  match objs h1 !! r with
  | None => Some h1
  | Some o =>
      let h2 := put r (with_ob (Some (mkOb d 0)) o) h1 in
      if bool_decide (o_kind o = KArray)
      then observeArray_with (elems o) h2
      else walk_with r (fst <$> props o) h2
  end.
End WithObserve.

(** [ob.vmCount++] for the observer of the object at [r]. *)
Definition bump_vmCount (r : nat) (h : Heap) : Heap :=
  match objs h !! r with
  | Some o =>
      match ob o with
      | Some x => put r (with_ob (Some (mkOb (ob_dep x) (S (vmCount x)))) o) h
      | None => h
      end
  | None => h
  end.

(** [observe (value, asRootData)].  The result is the object whose
    Observer is returned, if any.  Creating an observer descends into the
    properties; [fuel] bounds the depth, [None] means it was too small. *)
Fixpoint observe (fuel : nat) (v : value) (asRootData : bool) (h : Heap)
  : option (Heap * option nat) :=
  match object_of h v with
  | None => Some (h, None)
  | Some (r, o) =>
      if bool_decide (o_kind o = KVNode) then Some (h, None)
      else
        '(h1, res) ←
          match ob o with
          | Some _ => Some (h, Some r)
          | None =>
              if observable h o then
                match fuel with
                | 0 => None
                | S fuel' =>
                    h' ← new_Observer_with (observe fuel') r h;
                    Some (h', Some r)
                end
              else Some (h, None)
          end;
        Some (match res with
              | Some r' => if asRootData then bump_vmCount r' h1 else h1
              | None => h1
              end, res)
  end.

Definition defineReactive (fuel : nat) := defineReactive_with (observe fuel).

(** *** The setter installed by defineReactive *)

(** The test [newVal === value || (newVal !== newVal && value !== value)]. *)
Definition unchanged (newVal value : JS.value) : bool :=
  strict_eq newVal value || (strict_ne newVal newVal && strict_ne value value).

Definition with_val (v : value) (rc : Reactive) : Reactive :=
  mkReactive (r_dep rc) v (r_childOb rc) (r_shallow rc) (r_custom rc)
             (r_getter rc) (r_setter rc).

Definition with_getter_slot (v : value) (rc : Reactive) : Reactive :=
  mkReactive (r_dep rc) (r_val rc) (r_childOb rc) (r_shallow rc) (r_custom rc)
             (match r_getter rc with Some _ => Some v | None => None end)
             (r_setter rc).

Definition with_childOb (c : option nat) (rc : Reactive) : Reactive :=
  mkReactive (r_dep rc) (r_val rc) c (r_shallow rc) (r_custom rc)
             (r_getter rc) (r_setter rc).

(** The reactive property [k] of the object at [r], if it is one. *)
Definition tracked_prop (h : Heap) (r : nat) (k : key) : option Reactive :=
  o ← objs h !! r;
  d ← lookup_prop k (props o);
  match d with Tracked rc => Some rc | _ => None end.

Definition put_tracked (r : nat) (k : key) (rc : Reactive) (h : Heap) : Heap :=
  match objs h !! r with
  | Some o => put r (with_props (define_prop k (Tracked rc) (props o)) o) h
  | None => h
  end.

(** [reactiveSetter (newVal)] up to, and without, its last statement
    [dep.notify()].  The result names the dep to notify; [None] is the
    early [return] for an unchanged value. *)
Definition reactiveSetter_store (fuel : nat) (r : nat) (k : key)
    (rc : Reactive) (newVal : value) (h : Heap)
  : option (Heap * option nat) :=
  let value := read_descriptor (Tracked rc) in
  if unchanged newVal value then Some (h, None)
  else
    let h1 := if negb (production h) && r_custom rc
              then emit (EWarn WCustomSetter) h else h in
    let rc1 := if r_setter rc then with_getter_slot newVal rc
               else with_val newVal rc in
    let h2 := put_tracked r k rc1 h1 in
    '(h3, childOb) ← (if r_shallow rc then Some (h2, None)
                      else observe fuel newVal false h2);
    Some (put_tracked r k (with_childOb childOb rc1) h3, Some (r_dep rc)).

(** [reactiveSetter (newVal)] *)
Definition reactiveSetter (fuel : nat) (r : nat) (k : key) (rc : Reactive)
    (newVal : value) (h : Heap) : option Heap :=
  '(h1, d) ← reactiveSetter_store fuel r k rc newVal h;
  Some (match d with Some d => emit (ENotify d) h1 | None => h1 end).

(** *** set *)

(** The names every object inherits from [Object.prototype]. *)
Definition object_prototype_keys : list string :=
  ["constructor"; "hasOwnProperty"; "isPrototypeOf"; "propertyIsEnumerable";
   "toLocaleString"; "toString"; "valueOf"; "__proto__";
   "__defineGetter__"; "__defineSetter__"; "__lookupGetter__";
   "__lookupSetter__"]%string.

(** [key in Object.prototype] *)
Definition in_Object_prototype (k : key) : bool :=
  match k with
  | KName s => bool_decide (s ∈ object_prototype_keys)
  | KIndex _ => false
  end.

(** The own markers: [__ob__], which [new Observer] defines on the value,
    and [_isVue]. *)
Definition marker_key (k : key) (o : Obj) : bool :=
  (bool_decide (k = KName "__ob__") && bool_decide (is_Some (ob o))) ||
  (bool_decide (k = KName "_isVue") && isVue o).

(** [key in target] *)
Definition key_in (k : key) (o : Obj) : bool :=
  bool_decide (is_Some (lookup_prop k (props o))) ||
  bool_decide (k ∈ inherited o) ||
  in_Object_prototype k ||
  match k with
  | KIndex n => bool_decide (o_kind o = KArray) && (n <? length (elems o))
  | KName s => bool_decide (o_kind o = KArray) && bool_decide (s = "length"%string)
  end ||
  marker_key k o.

(** The keys that are not ordinary properties: the two markers and
    [__proto__]. *)
Definition special_key (k : key) : bool :=
  bool_decide (k ∈ [KName "__ob__"; KName "_isVue"; KName "__proto__"]).

(** An object whose markers are nowhere but in [ob] and [isVue]: neither
    name is listed among its properties or inherited. *)
Definition markers_hidden (o : Obj) : bool :=
  forallb (fun m => negb (bool_decide (m ∈ (props o).*1)) &&
                    negb (bool_decide (m ∈ inherited o)))
          [KName "__ob__"; KName "_isVue"].

(** [target[key] = val] on the object at [r], in strict mode: assigning
    to an accessor without setter, or to a new key of an object that is
    not extensible, throws a TypeError.  An inherited key is taken to be a
    writable data property.  [None], apart from fuel: what the model does
    not represent, namely a special key (util/lang.js, which defines
    [__ob__], is not among the sources), an index or the [length] of an
    array, and a data property that is not configurable. *)
Definition assign (fuel : nat) (r : nat) (k : key) (val : value) (h : Heap)
  : option (Heap * completion) :=
  match objs h !! r with
  | None => Some (h, Returned val)
  | Some o =>
      if special_key k ||
         (bool_decide (o_kind o = KArray) &&
          match k with
          | KIndex _ => true
          | KName s => bool_decide (s = "length"%string)
          end)
      then None
      else
        match lookup_prop k (props o) with
        | Some (Tracked rc) =>
            h1 ← reactiveSetter fuel r k rc val h; Some (h1, Returned val)
        | Some (Data _ true) =>
            Some (put r (with_props (define_prop k (Data val true) (props o)) o)
                    h, Returned val)
        | Some (Data _ false) => None
        | Some (Accessor g true c) =>
            Some (put r (with_props
                           (define_prop k
                              (Accessor (match g with Some _ => Some val
                                                    | None => None end) true c)
                              (props o)) o) h, Returned val)
        | Some (Accessor _ false _) => Some (emit ETypeError h, Thrown)
        | None =>
            if extensible o
            then Some (put r (with_props
                                (define_prop k (Data val true) (props o)) o) h,
                       Returned val)
            else Some (emit ETypeError h, Thrown)
        end
  end.

(** [target.length = Math.max(target.length, key); target.splice(key, 1, val)]
    on the elements of an array. *)
Definition splice_at (n : nat) (val : value) (es : list value) : list value :=
  let padded := es ++ replicate (n - length es) VUndefined in
  take n padded ++ val :: drop (S n) padded.

(** [set], after the array branch: an existing key is assigned; a Vue
    instance or root data is refused with a warning; an object without
    Observer is assigned; otherwise the key is made reactive and the
    Observer's dep is notified.  A TypeError of the assignment or of
    [defineReactive] leaves [set] at once.  [None], apart from fuel: an
    object whose markers are not hidden, and a special key made
    reactive. *)
Definition set_key (fuel : nat) (r : nat) (o : Obj) (k : key) (val : value)
    (h : Heap) : option (Heap * completion) :=
  if negb (markers_hidden o) then None
  else if key_in k o && negb (in_Object_prototype k) then
    assign fuel r k val h
  else if isVue o || match ob o with
                     | Some x => 0 <? vmCount x
                     | None => false
                     end then
    Some (if production h then h else emit (EWarn WAvoidAdding) h,
          Returned val)
  else
    match ob o with
    | None => assign fuel r k val h
    | Some x =>
        if special_key k then None
        else
          '(h1, c) ← defineReactive fuel r k (Some val) false false h;
          match c with
          | Returned _ => Some (emit (ENotify (ob_dep x)) h1, Returned val)
          | Thrown => Some (h1, Thrown)
          end
    end.

(** [set (target, key, val)].  [None], apart from fuel: an array that is
    not extensible, of which the model does not say whether it is frozen.

    Modelled from the spec: observer/array.js is not among the sources.
    On an observed array, [splice] is one of the "mutating methods" that
    "must trigger the shape ObservableCell's notification exactly once per
    call, and any object/array elements pushed in must be recursively
    wrapped". *)
Definition set (fuel : nat) (target : value) (k : key) (val : value)
    (h : Heap) : option (Heap * completion) :=
  match object_of h target with
  | None =>
      (* undefined, null or a primitive: the warning, then [key in target]
         throws *)
      Some (if production h then h else emit (EWarn WSetOnPrimitive) h, Thrown)
  | Some (r, o) =>
      match k, bool_decide (o_kind o = KArray) with
      | KIndex n, true =>
          if extensible o then
            let h1 := put r (with_elems (splice_at n val (elems o)) o) h in
            match ob o with
            | Some x =>
                '(h2, _) ← observe fuel val false h1;
                Some (emit (ENotify (ob_dep x)) h2, Returned val)
            | None => Some (h1, Returned val)
            end
          else None
      | _, _ => set_key fuel r o k val h
      end
  end.

(** *** Observers are attached once and stay *)

(** [extends h h']: every object of [h] is still there in [h'], with its
    kind and flags, and an Observer it carried is still the one it
    carries (same Dep); the switches of the environment are unchanged. *)
Definition extends (h h' : Heap) : Prop :=
  shouldObserve h' = shouldObserve h /\
  serverRendering h' = serverRendering h /\
  production h' = production h /\
  forall r o, objs h !! r = Some o ->
    exists o', objs h' !! r = Some o' /\
      o_kind o' = o_kind o /\ extensible o' = extensible o /\
      isVue o' = isVue o /\
      forall x, ob o = Some x ->
        exists x', ob o' = Some x' /\ ob_dep x' = ob_dep x.

Lemma extends_refl h : extends h h.
Proof. repeat split; auto. intros r o Hr. exists o. eauto 10. Qed.

Lemma extends_trans h1 h2 h3 : extends h1 h2 -> extends h2 h3 -> extends h1 h3.
Proof.
  intros (A1 & B1 & C1 & D1) (A2 & B2 & C2 & D2).
  split; [congruence|]. split; [congruence|]. split; [congruence|].
  intros r o Hr. destruct (D1 r o Hr) as (o2 & Hr2 & K2 & E2 & V2 & O2).
  destruct (D2 r o2 Hr2) as (o3 & Hr3 & K3 & E3 & V3 & O3).
  exists o3. split; [exact Hr3|]. split; [congruence|].
  split; [congruence|]. split; [congruence|].
  intros x Hx. destruct (O2 x Hx) as (x2 & Hx2 & Hd2).
  destruct (O3 x2 Hx2) as (x3 & Hx3 & Hd3). exists x3. split; congruence.
Qed.

Lemma extends_same_objs h h' :
  objs h' = objs h -> shouldObserve h' = shouldObserve h ->
  serverRendering h' = serverRendering h -> production h' = production h ->
  extends h h'.
Proof.
  intros Ho A B C. repeat split; auto.
  intros r o Hr. exists o. rewrite Ho. eauto 10.
Qed.

Lemma extends_emit e h : extends h (emit e h).
Proof. apply extends_same_objs; reflexivity. Qed.

Lemma extends_new_dep h : extends h (snd (new_dep h)).
Proof. apply extends_same_objs; reflexivity. Qed.

Lemma extends_put r o o' h :
  objs h !! r = Some o ->
  o_kind o' = o_kind o -> extensible o' = extensible o ->
  isVue o' = isVue o ->
  (forall x, ob o = Some x -> exists x', ob o' = Some x' /\ ob_dep x' = ob_dep x) ->
  extends h (put r o' h).
Proof.
  intros Hr K E V O. repeat split; auto.
  intros r0 o0 Hr0. unfold put; simpl. rewrite lookup_insert.
  destruct (decide (r = r0)) as [<-|Hne].
  - exists o'. rewrite Hr in Hr0. injection Hr0 as <-. auto.
  - exists o0. eauto 10.
Qed.

Lemma extends_put_props r o ps h :
  objs h !! r = Some o -> extends h (put r (with_props ps o) h).
Proof. intros Hr. apply (extends_put r o); eauto. Qed.


Lemma extends_bump_vmCount r h : extends h (bump_vmCount r h).
Proof.
  unfold bump_vmCount. destruct (objs h !! r) as [o|] eqn:Hr;
    [|apply extends_refl].
  destruct (ob o) as [x|] eqn:Hx; [|apply extends_refl].
  apply (extends_put r o); auto. simpl. intros x0 Hx0.
  rewrite Hx in Hx0. injection Hx0 as <-. eauto.
Qed.

Lemma extends_put_tracked r k rc h : extends h (put_tracked r k rc h).
Proof.
  unfold put_tracked. destruct (objs h !! r) eqn:Hr; [|apply extends_refl].
  apply extends_put_props, Hr.
Qed.

Section Extends.
Variable observe_rec : value -> bool -> Heap -> option (Heap * option nat).
Hypothesis observe_rec_extends :
  forall v a h h1 res, observe_rec v a h = Some (h1, res) -> extends h h1.

Lemma defineReactive_with_extends r k val custom shallow h h' c :
  defineReactive_with observe_rec r k val custom shallow h = Some (h', c) ->
  extends h h'.
Proof.
  unfold defineReactive_with. simpl.
  set (h1 := mkHeap _ _ _ _ _ _).
  assert (H1 : extends h h1) by (apply extends_same_objs; reflexivity).
  destruct (objs h !! r) as [o|] eqn:Hr;
    [|intros [= E _]; rewrite <- E; exact H1].
  destruct (match lookup_prop k (props o) with
            | Some p => negb (is_configurable p)
            | None => false
            end); [intros [= E _]; rewrite <- E; exact H1|].
  destruct (negb (extensible o) && _); [discriminate|].
  set (v := match val with Some _ => _ | None => _ end).
  destruct shallow.
  - simpl. rewrite Hr.
    destruct (negb (extensible o) && _); intros [= E _]; rewrite <- E.
    + eapply extends_trans; [exact H1|]. apply extends_emit.
    + eapply extends_trans; [exact H1|]. apply extends_put_props. exact Hr.
  - destruct (observe_rec v false h1) as [[h2 c2]|] eqn:Ho;
      [|discriminate]. simpl.
    pose proof (observe_rec_extends _ _ _ _ _ Ho) as H2.
    destruct (objs h2 !! r) as [o2|] eqn:Hr2;
      [destruct (negb (extensible o2) && _)|]; intros [= E _]; rewrite <- E.
    + eapply extends_trans; [exact H1|].
      eapply extends_trans; [exact H2|]. apply extends_emit.
    + eapply extends_trans; [exact H1|].
      eapply extends_trans; [exact H2|]. apply extends_put_props, Hr2.
    + eapply extends_trans; [exact H1|exact H2].
Qed.

Lemma walk_with_extends r keys : forall h h',
  walk_with observe_rec r keys h = Some h' -> extends h h'.
Proof.
  induction keys as [|k keys IH]; intros h h'; simpl.
  - intros [= <-]. apply extends_refl.
  - destruct (defineReactive_with observe_rec r k None false false h)
      as [[h1 [u|]]|] eqn:Hd; try discriminate. simpl. intros Hw.
    eapply extends_trans; [eapply defineReactive_with_extends, Hd|].
    apply IH, Hw.
Qed.

Lemma observeArray_with_extends items : forall h h',
  observeArray_with observe_rec items h = Some h' -> extends h h'.
Proof.
  induction items as [|v items IH]; intros h h'; simpl.
  - intros [= <-]. apply extends_refl.
  - destruct (observe_rec v false h) as [[h1 c]|] eqn:Ho; [|discriminate].
    simpl. intros Hw.
    eapply extends_trans; [eapply observe_rec_extends, Ho|]. apply IH, Hw.
Qed.

(** After [new Observer(value)] the object carries an observer. *)
Lemma new_Observer_with_spec r o h h' :
  objs h !! r = Some o -> ob o = None ->
  new_Observer_with observe_rec r h = Some h' ->
  extends h h' /\
  exists o', objs h' !! r = Some o' /\ is_Some (ob o') /\
             o_kind o' = o_kind o.
Proof.
  intros Hr Hob. unfold new_Observer_with. simpl.
  set (h1 := mkHeap _ _ _ _ _ _).
  change (objs h1 !! r) with (objs h !! r). rewrite Hr.
  set (h2 := put r _ h1).
  assert (H2 : extends h h2).
  { eapply (extends_trans h h1);
      [apply extends_same_objs; reflexivity|].
    apply (extends_put r o); auto. rewrite Hob. discriminate. }
  assert (Hr2 : objs h2 !! r
                = Some (with_ob (Some (mkOb (dep_uid h) 0)) o))
    by (unfold h2, put; simpl; apply lookup_insert_eq).
  intros Hrest.
  assert (H3 : extends h2 h').
  { destruct (bool_decide (o_kind o = KArray)).
    - eapply observeArray_with_extends, Hrest.
    - eapply walk_with_extends, Hrest. }
  split; [eapply extends_trans; eassumption|].
  destruct H3 as (_ & _ & _ & H3).
  destruct (H3 _ _ Hr2) as (o' & Hr' & K & _ & _ & O).
  exists o'. split; [exact Hr'|]. split; [|exact K].
  destruct (O _ eq_refl) as (x' & Hx' & _). rewrite Hx'. eauto.
Qed.
End Extends.

Lemma observe_extends fuel : forall v a h h1 res,
  observe fuel v a h = Some (h1, res) -> extends h h1.
Proof.
  induction fuel as [|fuel IH]; intros v a h h1 res; simpl;
    destruct (object_of h v) as [[r o]|] eqn:Hv;
    try (intros [= <- <-]; apply extends_refl);
    (destruct (bool_decide (o_kind o = KVNode));
     [intros [= <- <-]; apply extends_refl|]);
    destruct (ob o) as [x|] eqn:Hob; simpl.
  - intros [= <- <-]. destruct a; [apply extends_bump_vmCount|apply extends_refl].
  - destruct (observable h o); [discriminate|]. simpl.
    intros [= <- <-]. apply extends_refl.
  - intros [= <- <-]. destruct a; [apply extends_bump_vmCount|apply extends_refl].
  - destruct (observable h o); simpl.
    + destruct (new_Observer_with (observe fuel) r h) as [h'|] eqn:Hn;
        [|discriminate]. simpl. intros [= <- <-].
      assert (Hr : objs h !! r = Some o).
      { destruct v; try discriminate. simpl in Hv.
        destruct (objs h !! r0) eqn:E; [|discriminate]. simpl in Hv.
        injection Hv as <- <-. exact E. }
      destruct (new_Observer_with_spec (observe fuel) IH r o h h' Hr Hob Hn)
        as [He _].
      destruct a; [|exact He].
      eapply extends_trans; [exact He|apply extends_bump_vmCount].
    + intros [= <- <-]. apply extends_refl.
Qed.

Lemma object_of_Some h v r o :
  object_of h v = Some (r, o) <-> v = VRef r /\ objs h !! r = Some o.
Proof.
  destruct v; simpl; try (split; [discriminate|intros [? _]; discriminate]).
  destruct (objs h !! r0) as [o0|] eqn:E; simpl.
  - split; [intros [= <- <-]; auto|]. intros [[= <-] H]. congruence.
  - split; [discriminate|]. intros [[= <-] H]. congruence.
Qed.


(** What a call of [observe] that returned an observer leaves behind. *)
Lemma observe_result fuel v a h h1 r :
  observe fuel v a h = Some (h1, Some r) ->
  v = VRef r /\
  exists o1 x1, objs h1 !! r = Some o1 /\ ob o1 = Some x1 /\
                o_kind o1 <> KVNode.
Proof.
  intros H. pose proof (observe_extends _ _ _ _ _ _ H) as Hext.
  assert (Hcase : exists o, object_of h v = Some (r, o) /\
            o_kind o <> KVNode /\
            exists h0, extends h h0 /\
              (h1 = (if a then bump_vmCount r h0 else h0)) /\
              exists o0, objs h0 !! r = Some o0 /\ is_Some (ob o0) /\
                         o_kind o0 = o_kind o).
  { destruct fuel; simpl in H;
      destruct (object_of h v) as [[r0 o]|] eqn:Hv; try discriminate;
      (destruct (bool_decide (o_kind o = KVNode)) eqn:Hk;
       [discriminate|]);
      apply bool_decide_eq_false in Hk;
      pose proof (proj1 (object_of_Some _ _ _ _) Hv) as [-> Hr0];
      destruct (ob o) as [x|] eqn:Hob; simpl in H.
    - injection H as <- <-. exists o. split; [reflexivity|].
      split; [exact Hk|]. exists h. split; [apply extends_refl|].
      split; [reflexivity|]. exists o. rewrite Hob. eauto.
    - destruct (observable h o); [discriminate|]. discriminate.
    - injection H as <- <-. exists o. split; [reflexivity|].
      split; [exact Hk|]. exists h. split; [apply extends_refl|].
      split; [reflexivity|]. exists o. rewrite Hob. eauto.
    - destruct (observable h o); [|discriminate]. simpl in H.
      destruct (new_Observer_with (observe fuel) r0 h) as [h'|] eqn:Hn;
        [|discriminate]. simpl in H. injection H as <- <-.
      destruct (new_Observer_with_spec (observe fuel)
                  (observe_extends fuel) r0 o h h' Hr0 Hob Hn)
        as (He & o' & Hr' & Ho' & Hk').
      exists o. split; [reflexivity|]. split; [exact Hk|].
      exists h'. split; [exact He|]. split; [reflexivity|].
      exists o'. auto. }
  destruct Hcase as (o & Hv & Hk & h0 & _ & -> & o0 & Hr0 & [x0 Hx0] & Hk0).
  apply object_of_Some in Hv as [-> _]. split; [reflexivity|].
  destruct a.
  - unfold bump_vmCount. rewrite Hr0, Hx0.
    eexists _, _. split; [apply lookup_insert_eq|].
    split; [reflexivity|]. simpl. congruence.
  - exists o0, x0. split; [exact Hr0|]. split; [exact Hx0|]. congruence.
Qed.

Lemma observe_nothing fuel v a h h1 :
  observe fuel v a h = Some (h1, None) ->
  h1 = h /\ forall fuel' a', observe fuel' v a' h = Some (h, None).
Proof.
  intros H.
  assert (Hc : h1 = h /\
            match object_of h v with
            | None => True
            | Some (r, o) => o_kind o = KVNode \/
                             (ob o = None /\ observable h o = false)
            end).
  { destruct fuel; simpl in H;
      destruct (object_of h v) as [[r o]|] eqn:Hv;
      try (injection H as <-; auto; fail);
      (destruct (bool_decide (o_kind o = KVNode)) eqn:Hk;
       [injection H as <-; apply bool_decide_eq_true in Hk; auto|]);
      destruct (ob o) as [x|] eqn:Hob; simpl in H; try discriminate.
    - destruct (observable h o) eqn:Hobs; [discriminate|].
      simpl in H. injection H as <-. auto.
    - destruct (observable h o) eqn:Hobs; simpl in H.
      + destruct (new_Observer_with (observe fuel) r h); discriminate.
      + injection H as <-. auto. }
  destruct Hc as [-> Hc]. split; [reflexivity|]. intros fuel' a'.
  destruct fuel'; simpl; destruct (object_of h v) as [[r o]|];
    try reflexivity;
    (destruct Hc as [Hk|[Hob Hobs]];
     [rewrite bool_decide_eq_true_2 by exact Hk; reflexivity|]);
    destruct (bool_decide (o_kind o = KVNode)); try reflexivity;
    rewrite Hob, Hobs; reflexivity.
Qed.


(** *** observe leaves the properties of observed objects alone *)

(** [keeps_on P h h']: an object among [P] that carries an Observer in [h]
    has the same properties in [h'], and still carries an Observer. *)
Definition keeps_on (P : nat -> Prop) (h h' : Heap) : Prop :=
  forall r o, P r -> objs h !! r = Some o -> is_Some (ob o) ->
    exists o', objs h' !! r = Some o' /\ props o' = props o /\ is_Some (ob o').

Lemma keeps_on_refl P h : keeps_on P h h.
Proof. intros r o _ Hr Ho. eauto. Qed.

Lemma keeps_on_trans P h1 h2 h3 :
  keeps_on P h1 h2 -> keeps_on P h2 h3 -> keeps_on P h1 h3.
Proof.
  intros H1 H2 r o HP Hr Ho.
  destruct (H1 r o HP Hr Ho) as (o2 & Hr2 & Hp2 & Ho2).
  destruct (H2 r o2 HP Hr2 Ho2) as (o3 & Hr3 & Hp3 & Ho3).
  exists o3. split; [exact Hr3|]. split; [congruence|exact Ho3].
Qed.

Lemma keeps_on_weaken (P Q : nat -> Prop) h h' :
  (forall r, P r -> Q r) -> keeps_on Q h h' -> keeps_on P h h'.
Proof. intros HPQ H r o HP. apply H, HPQ, HP. Qed.

Lemma keeps_on_same_objs P h h' : objs h' = objs h -> keeps_on P h h'.
Proof. intros E r o _ Hr Ho. rewrite E. eauto. Qed.

Lemma keeps_on_put_other r0 o0 h :
  keeps_on (fun r => r <> r0) h (put r0 o0 h).
Proof.
  intros r o Hne Hr Ho. exists o. unfold put; simpl.
  rewrite lookup_insert_ne by congruence. auto.
Qed.

Lemma keeps_on_put_same P r0 o o0 h :
  objs h !! r0 = Some o -> props o0 = props o -> (is_Some (ob o) -> is_Some (ob o0)) ->
  keeps_on P h (put r0 o0 h).
Proof.
  intros Hr0 Hp Hob r o1 _ Hr Ho. unfold put; simpl.
  rewrite lookup_insert. destruct (decide (r0 = r)) as [<-|Hne].
  - exists o0. rewrite Hr0 in Hr. injection Hr as <-. auto.
  - exists o1. auto.
Qed.

Section Keeps.
Variable observe_rec : value -> bool -> Heap -> option (Heap * option nat).
Hypothesis observe_rec_keeps :
  forall v a h h1 res, observe_rec v a h = Some (h1, res) ->
                       keeps_on (fun _ => True) h h1.

Lemma defineReactive_with_keeps r0 k val custom shallow h h' c :
  defineReactive_with observe_rec r0 k val custom shallow h = Some (h', c) ->
  keeps_on (fun r => r <> r0) h h'.
Proof.
  unfold defineReactive_with. simpl.
  set (h1 := mkHeap _ _ _ _ _ _).
  assert (H1 : keeps_on (fun r => r <> r0) h h1)
    by (apply keeps_on_same_objs; reflexivity).
  destruct (objs h !! r0) as [o|] eqn:Hr;
    [|intros [= E _]; rewrite <- E; exact H1].
  destruct (match lookup_prop k (props o) with
            | Some p => negb (is_configurable p)
            | None => false
            end); [intros [= E _]; rewrite <- E; exact H1|].
  destruct (negb (extensible o) && _); [discriminate|].
  set (v := match val with Some _ => _ | None => _ end).
  destruct shallow.
  - simpl. rewrite Hr.
    destruct (negb (extensible o) && _); intros [= E _]; rewrite <- E.
    + eapply keeps_on_trans; [exact H1|].
      apply keeps_on_same_objs; reflexivity.
    + eapply keeps_on_trans; [exact H1|]. apply keeps_on_put_other.
  - destruct (observe_rec v false h1) as [[h2 c2]|] eqn:Ho; [|discriminate].
    simpl.
    pose proof (observe_rec_keeps _ _ _ _ _ Ho) as H2.
    assert (H2' : keeps_on (fun r => r <> r0) h1 h2)
      by (apply (keeps_on_weaken _ (fun _ => True)); [intros; exact I|exact H2]).
    destruct (objs h2 !! r0) as [o2|] eqn:Hr2;
      [destruct (negb (extensible o2) && _)|]; intros [= E _]; rewrite <- E.
    + eapply keeps_on_trans; [exact H1|].
      eapply keeps_on_trans; [exact H2'|].
      apply keeps_on_same_objs; reflexivity.
    + eapply keeps_on_trans; [exact H1|].
      eapply keeps_on_trans; [exact H2'|]. apply keeps_on_put_other.
    + eapply keeps_on_trans; [exact H1|exact H2'].
Qed.

Lemma walk_with_keeps r0 keys : forall h h',
  walk_with observe_rec r0 keys h = Some h' ->
  keeps_on (fun r => r <> r0) h h'.
Proof.
  induction keys as [|k keys IH]; intros h h'; simpl.
  - intros [= <-]. apply keeps_on_refl.
  - destruct (defineReactive_with observe_rec r0 k None false false h)
      as [[h1 [u|]]|] eqn:Hd; try discriminate. simpl. intros Hw.
    eapply keeps_on_trans; [eapply defineReactive_with_keeps, Hd|].
    apply IH, Hw.
Qed.

Lemma observeArray_with_keeps items : forall h h',
  observeArray_with observe_rec items h = Some h' ->
  keeps_on (fun _ => True) h h'.
Proof.
  induction items as [|v items IH]; intros h h'; simpl.
  - intros [= <-]. apply keeps_on_refl.
  - destruct (observe_rec v false h) as [[h1 c]|] eqn:Ho; [|discriminate].
    simpl. intros Hw.
    eapply keeps_on_trans; [eapply observe_rec_keeps, Ho|]. apply IH, Hw.
Qed.

Lemma new_Observer_with_keeps r0 o0 h h' :
  objs h !! r0 = Some o0 -> ob o0 = None ->
  new_Observer_with observe_rec r0 h = Some h' ->
  keeps_on (fun _ => True) h h'.
Proof.
  intros Hr0 Hob0. unfold new_Observer_with. simpl.
  set (h1 := mkHeap _ _ _ _ _ _).
  change (objs h1 !! r0) with (objs h !! r0). rewrite Hr0.
  set (h2 := put r0 _ h1). intros Hrest.
  assert (Hne : forall r o, objs h !! r = Some o -> is_Some (ob o) -> r <> r0).
  { intros r o Hr [x Hx] ->. rewrite Hr0 in Hr. injection Hr as <-.
    congruence. }
  assert (H3 : keeps_on (fun r => r <> r0) h2 h').
  { destruct (bool_decide (o_kind o0 = KArray)).
    - apply (keeps_on_weaken _ (fun _ => True)); [intros; exact I|].
      eapply observeArray_with_keeps, Hrest.
    - eapply walk_with_keeps, Hrest. }
  intros r o _ Hr Ho. pose proof (Hne r o Hr Ho) as Hr_ne.
  apply (H3 r o Hr_ne); [|exact Ho].
  unfold h2, put; simpl. rewrite lookup_insert_ne by congruence. exact Hr.
Qed.
End Keeps.

Lemma keeps_on_bump_vmCount P r h : keeps_on P h (bump_vmCount r h).
Proof.
  unfold bump_vmCount. destruct (objs h !! r) as [o|] eqn:Hr;
    [|apply keeps_on_refl].
  destruct (ob o) as [x|] eqn:Hx; [|apply keeps_on_refl].
  apply (keeps_on_put_same P r o); [exact Hr|reflexivity|].
  simpl. eauto.
Qed.

Lemma observe_keeps fuel : forall v a h h1 res,
  observe fuel v a h = Some (h1, res) -> keeps_on (fun _ => True) h h1.
Proof.
  induction fuel as [|fuel IH]; intros v a h h1 res; simpl;
    destruct (object_of h v) as [[r o]|] eqn:Hv;
    try (intros [= <- <-]; apply keeps_on_refl);
    (destruct (bool_decide (o_kind o = KVNode));
     [intros [= <- <-]; apply keeps_on_refl|]);
    destruct (ob o) as [x|] eqn:Hob; simpl.
  - intros [= <- <-].
    destruct a; [apply keeps_on_bump_vmCount|apply keeps_on_refl].
  - destruct (observable h o); [discriminate|]. simpl.
    intros [= <- <-]. apply keeps_on_refl.
  - intros [= <- <-].
    destruct a; [apply keeps_on_bump_vmCount|apply keeps_on_refl].
  - destruct (observable h o); simpl.
    + destruct (new_Observer_with (observe fuel) r h) as [h'|] eqn:Hn;
        [|discriminate]. simpl. intros [= <- <-].
      apply object_of_Some in Hv as [_ Hr].
      pose proof (new_Observer_with_keeps (observe fuel) IH r o h h' Hr Hob Hn)
        as Hk.
      destruct a; [|exact Hk].
      eapply keeps_on_trans; [exact Hk|apply keeps_on_bump_vmCount].
    + intros [= <- <-]. apply keeps_on_refl.
Qed.

(** *** What the setter stores *)

Definition observer_of (h : Heap) (r : nat) : option ObserverRec :=
  o ← objs h !! r; ob o.

Lemma lookup_define_prop k d ps : lookup_prop k (define_prop k d ps) = Some d.
Proof.
  induction ps as [|[k' d'] ps IH]; simpl.
  - destruct (decide (k = k)); [reflexivity|congruence].
  - destruct (decide (k' = k)) as [->|Hne]; simpl.
    + destruct (decide (k = k)); [reflexivity|congruence].
    + destruct (decide (k' = k)); [congruence|exact IH].
Qed.

Lemma tracked_prop_put_tracked r k rc h :
  is_Some (objs h !! r) -> tracked_prop (put_tracked r k rc h) r k = Some rc.
Proof.
  intros [o Hr]. unfold tracked_prop, put_tracked. rewrite Hr.
  unfold put; simpl. rewrite lookup_insert_eq. simpl.
  rewrite lookup_define_prop. reflexivity.
Qed.

Lemma tracked_prop_is_Some h r k rc :
  tracked_prop h r k = Some rc -> is_Some (objs h !! r).
Proof.
  unfold tracked_prop. destruct (objs h !! r); [eauto|discriminate].
Qed.

Lemma extends_is_Some h h' r :
  extends h h' -> is_Some (objs h !! r) -> is_Some (objs h' !! r).
Proof.
  intros (_ & _ & _ & H) [o Hr]. destruct (H r o Hr) as (o' & Hr' & _). eauto.
Qed.

Lemma extends_observer_of h h' r :
  extends h h' -> is_Some (observer_of h r) -> is_Some (observer_of h' r).
Proof.
  intros (_ & _ & _ & H) [x Hx]. unfold observer_of in *.
  destruct (objs h !! r) as [o|] eqn:Hr; [|discriminate]. simpl in Hx.
  destruct (H r o Hr) as (o' & Hr' & _ & _ & _ & Ho).
  destruct (Ho x Hx) as (x' & Hx' & _). rewrite Hr'. simpl. eauto.
Qed.

Lemma keeps_tracked_prop h h' r k :
  keeps_on (fun _ => True) h h' -> is_Some (observer_of h r) ->
  tracked_prop h' r k = tracked_prop h r k.
Proof.
  intros Hk [x Hx]. unfold observer_of, tracked_prop in *.
  destruct (objs h !! r) as [o|] eqn:Hr; [|discriminate]. simpl in Hx.
  destruct (Hk r o I Hr) as (o' & Hr' & Hp & _); [eauto|].
  rewrite Hr'. simpl. rewrite Hp. reflexivity.
Qed.

(** The closure variables after a write that changed the value. *)
Definition stored (newVal : value) (rc : Reactive) : Reactive :=
  if r_setter rc then with_getter_slot newVal rc else with_val newVal rc.


(** A write that changes the value stores it, observes it unless the
    property is shallow, and asks for the notification of the property's
    dep. *)
Lemma reactiveSetter_store_changed fuel r k rc newVal h h' d :
  tracked_prop h r k = Some rc ->
  unchanged newVal (read_descriptor (Tracked rc)) = false ->
  reactiveSetter_store fuel r k rc newVal h = Some (h', d) ->
  d = Some (r_dep rc) /\ extends h h' /\
  exists c, tracked_prop h' r k = Some (with_childOb c (stored newVal rc)) /\
    (r_shallow rc = true -> c = None) /\
    (r_shallow rc = false ->
     forall r' o', newVal = VRef r' -> objs h !! r' = Some o' ->
       o_kind o' <> KVNode ->
       is_Some (ob o') \/ observable h o' = true ->
       c = Some r' /\ is_Some (observer_of h' r')).
Proof.
  intros Ht Hu. unfold reactiveSetter_store. rewrite Hu.
  set (h1 := if negb (production h) && r_custom rc then _ else h).
  assert (E1 : extends h h1).
  { subst h1. destruct (negb (production h) && r_custom rc);
      [apply extends_emit|apply extends_refl]. }
  fold (stored newVal rc).
  set (h2 := put_tracked r k (stored newVal rc) h1).
  assert (E2 : extends h h2)
    by (eapply extends_trans; [exact E1|apply extends_put_tracked]).
  pose proof (tracked_prop_is_Some _ _ _ _ Ht) as Hr.
  destruct (r_shallow rc) eqn:Hsh.
  - simpl. intros [= <- <-]. split; [reflexivity|].
    split; [eapply extends_trans; [exact E2|apply extends_put_tracked]|].
    exists None. split; [|split; [reflexivity|discriminate]].
    apply tracked_prop_put_tracked. eapply extends_is_Some; eassumption.
  - destruct (observe fuel newVal false h2) as [[h3 c]|] eqn:Ho;
      [|discriminate]. simpl. intros [= <- <-].
    pose proof (observe_extends _ _ _ _ _ _ Ho) as E3.
    assert (E4 : extends h (put_tracked r k (with_childOb c (stored newVal rc)) h3)).
    { eapply extends_trans; [exact E2|].
      eapply extends_trans; [exact E3|apply extends_put_tracked]. }
    split; [reflexivity|]. split; [exact E4|].
    exists c. split; [|split; [discriminate|]].
    + apply tracked_prop_put_tracked.
      eapply extends_is_Some; [|exact Hr].
      eapply extends_trans; [exact E2|exact E3].
    + intros _ r' o' -> Hr' Hk Hwrap.
      destruct E2 as (S2 & V2 & _ & O2).
      destruct (O2 r' o' Hr') as (o2 & Hr2 & K2 & X2 & I2 & B2).
      assert (Hres : c = Some r').
      { destruct c as [c|].
        - destruct (observe_result _ _ _ _ _ _ Ho) as [[= ->] _]. reflexivity.
        - exfalso. destruct (observe_nothing _ _ _ _ _ Ho) as [_ Hn].
          specialize (Hn 1 false). simpl in Hn. rewrite Hr2 in Hn. simpl in Hn.
          rewrite bool_decide_eq_false_2 in Hn by congruence.
          destruct Hwrap as [[x Hx]|Hw].
          + destruct (B2 x Hx) as (x2 & Hx2 & _). rewrite Hx2 in Hn.
            discriminate.
          + destruct (ob o2); [discriminate|].
            assert (Hw2 : observable h2 o2 = true).
            { unfold observable in *. rewrite S2, V2, K2, X2, I2. exact Hw. }
            rewrite Hw2 in Hn.
            match type of Hn with
            | context [new_Observer_with ?f ?a ?b] =>
                destruct (new_Observer_with f a b)
            end; discriminate. }
      split; [exact Hres|]. subst c.
      destruct (observe_result _ _ _ _ _ _ Ho) as (_ & o3 & x3 & Hr3 & Hx3 & _).
      eapply extends_observer_of; [apply extends_put_tracked|].
      unfold observer_of. rewrite Hr3. simpl. rewrite Hx3. eauto.
Qed.

(** *** A small heap: root data with a nested object and an array *)

Definition sample_root : Obj :=
  mkObj KPlain
    [(KName "count", Data (VNum (Fin 1)) true);
     (KName "child", Data (VRef 2) true);
     (KName "list", Data (VRef 3) true)]
    [] None true false [].

Definition sample_child : Obj :=
  mkObj KPlain [(KName "b", Data (VStr "x") true)] [] None true false [].

Definition sample_list : Obj :=
  mkObj KArray [] [VRef 2; VNum (Fin 3)] None true false [].

(** Object 4 is not observed. *)
Definition sample_plain : Obj :=
  mkObj KPlain [(KName "c", Data VNull true)] [] None true false [].

(** Object 5 is a plain object nothing refers to yet. *)
Definition sample_fresh : Obj :=
  mkObj KPlain [(KName "n", Data (VNum (Fin 7)) true)] [] None true false [].

Definition sample_heap : Heap :=
  mkHeap (<[1 := sample_root]> (<[2 := sample_child]>
           (<[3 := sample_list]> (<[4 := sample_plain]>
             (<[5 := sample_fresh]> ∅)))))
         0 true false false [].

(** [observe(data, true)] as [initData] calls it. *)
Definition sample_observed : Heap :=
  match observe 5 (VRef 1) true sample_heap with
  | Some (h, _) => h
  | None => sample_heap
  end.

(** The value a read of [k] on the object at [r] gives. *)
Definition get_prop (h : Heap) (r : nat) (k : key) : option value :=
  o ← objs h !! r; read_descriptor <$> lookup_prop k (props o).

Example sample_observed_observers :
  observe 5 (VRef 1) true sample_heap = Some (sample_observed, Some 1) /\
  observer_of sample_observed 1 = Some (mkOb 0 1) /\
  observer_of sample_observed 2 = Some (mkOb 3 0) /\
  observer_of sample_observed 3 = Some (mkOb 6 0) /\
  observer_of sample_observed 4 = None /\
  dep_uid sample_observed = 7.
Proof. vm_compute. auto 10. Qed.


(** *** set on root data, on a Vue instance, on an unobserved object *)

(** The events since [h]. *)
Definition new_events (h h' : Heap) : list event :=
  drop (length (events h)) (events h').

(** The case of [set] that is not the array branch. *)
Lemma set_is_set_key fuel h r o k val :
  objs h !! r = Some o ->
  (o_kind o <> KArray \/ forall n, k <> KIndex n) ->
  set fuel (VRef r) k val h = set_key fuel r o k val h.
Proof.
  intros Hr Harr. unfold set. simpl. rewrite Hr. simpl.
  destruct k as [n|s];
    [|destruct (bool_decide (o_kind o = KArray)); reflexivity].
  destruct Harr as [Ha|Ha]; [|destruct (Ha n eq_refl)].
  rewrite bool_decide_eq_false_2 by exact Ha. reflexivity.
Qed.

Lemma key_in_false k o :
  key_in k o = false ->
  lookup_prop k (props o) = None /\ in_Object_prototype k = false /\
  (o_kind o = KArray -> k <> KName "length") /\ marker_key k o = false.
Proof.
  unfold key_in. intros H.
  apply orb_false_iff in H as [H Hm]. apply orb_false_iff in H as [H Ha].
  apply orb_false_iff in H as [H Hp]. apply orb_false_iff in H as [H _].
  apply bool_decide_eq_false in H.
  split; [destruct (lookup_prop k (props o)); [exfalso; eauto|reflexivity]|].
  split; [exact Hp|]. split; [|exact Hm].
  intros Hk ->. rewrite bool_decide_eq_true_2 in Ha by exact Hk.
  simpl in Ha. discriminate.
Qed.

(** A key that is not in the target as far as [set] is concerned is no
    index and no [length] of an array. *)
Lemma not_array_slot k o :
  key_in k o && negb (in_Object_prototype k) = false ->
  (o_kind o <> KArray \/ forall n, k <> KIndex n) ->
  bool_decide (o_kind o = KArray) &&
  match k with
  | KIndex _ => true
  | KName s => bool_decide (s = "length"%string)
  end = false.
Proof.
  intros Hk Harr.
  destruct (decide (o_kind o = KArray)) as [Ha|Ha];
    [|rewrite bool_decide_eq_false_2 by exact Ha; reflexivity].
  rewrite bool_decide_eq_true_2 by exact Ha. simpl.
  destruct k as [n|s].
  - destruct Harr as [H|H]; [contradiction|destruct (H n eq_refl)].
  - apply bool_decide_eq_false. intros ->.
    unfold key_in in Hk. rewrite (bool_decide_eq_true_2 _ Ha) in Hk.
    simpl in Hk. rewrite !orb_true_r in Hk. discriminate.
Qed.

(** C10, as amended.  [set(target, key, val)] with a key that is not
    already a property of the target (or is one of Object.prototype),
    the target not being an array addressed by an index:
    - when the target is a Vue instance or root data (its Observer has a
      positive [vmCount]), the objects are left as they are, no Dep is
      created, the only event is the warning of a development build, and
      [val] is returned;
    - when the target carries no Observer, is not a Vue instance and has
      no own property [key], which is not a special key, no Dep is created
      and nothing is notified; an extensible target then has the data
      property [key] with value [val] and [val] is returned; on a target
      that is not extensible the assignment throws and the objects are
      left as they are. *)
Theorem set_without_notification fuel h r o k val :
  objs h !! r = Some o ->
  markers_hidden o = true ->
  key_in k o && negb (in_Object_prototype k) = false ->
  (o_kind o <> KArray \/ forall n, k <> KIndex n) ->
  (isVue o = true \/ (exists x, ob o = Some x /\ 0 < vmCount x) ->
   exists h', set fuel (VRef r) k val h = Some (h', Returned val) /\
     objs h' = objs h /\ dep_uid h' = dep_uid h /\
     new_events h h' = if production h then [] else [EWarn WAvoidAdding]) /\
  (isVue o = false -> ob o = None -> lookup_prop k (props o) = None ->
   special_key k = false ->
   exists h', set fuel (VRef r) k val h
              = Some (h', if extensible o then Returned val else Thrown) /\
     dep_uid h' = dep_uid h /\
     (forall d, ENotify d ∉ new_events h h') /\
     (extensible o = true -> get_prop h' r k = Some val) /\
     (extensible o = false -> objs h' = objs h)).
Proof.
  intros Hr Hm Hk Harr.
  rewrite (set_is_set_key fuel h r o k val Hr Harr).
  unfold set_key. rewrite Hm, Hk. simpl.
  split.
  - intros Hroot.
    assert (Hc : isVue o || match ob o with
                            | Some x => 0 <? vmCount x
                            | None => false
                            end = true).
    { destruct Hroot as [->|(x & -> & Hx)]; [reflexivity|].
      apply orb_true_iff. right. apply Nat.ltb_lt, Hx. }
    rewrite Hc.
    eexists. split; [reflexivity|].
    unfold new_events.
    destruct (production h); simpl;
      rewrite ?drop_all, ?drop_app_length; auto.
  - intros Hvue Hob Hown Hsp.
    rewrite Hvue, Hob. simpl.
    unfold assign. rewrite Hr, Hsp, (not_array_slot k o Hk Harr), Hown.
    simpl.
    destruct (extensible o) eqn:He; simpl.
    + eexists. split; [reflexivity|]. split; [reflexivity|].
      unfold new_events; simpl. rewrite drop_all.
      split; [intros d; apply not_elem_of_nil|]. split; [|discriminate].
      intros _.
      unfold get_prop, put; simpl. rewrite lookup_insert_eq. simpl.
      clear. induction (props o) as [|[k' d'] ps IH]; simpl.
      * destruct (decide (k = k)); [reflexivity|congruence].
      * destruct (decide (k' = k)) as [->|Hne]; simpl.
        -- destruct (decide (k = k)); [reflexivity|congruence].
        -- destruct (decide (k' = k)); [congruence|]. exact IH.
    + eexists. split; [reflexivity|]. split; [reflexivity|].
      unfold new_events; simpl. rewrite drop_app_length.
      split; [|split; [discriminate|reflexivity]].
      intros d Hd. apply list_elem_of_singleton in Hd. discriminate.
Qed.

(** An object that carries no Observer and is not extensible. *)
Definition sample_sealed : Heap :=
  put 4 (mkObj KPlain [] [] None false false []) sample_observed.

Lemma set_without_notification_witness :
  (exists h', set 0 (VRef 1) (KName "fresh") VNull sample_observed
              = Some (h', Returned VNull) /\
     objs h' = objs sample_observed /\
     dep_uid h' = dep_uid sample_observed /\
     new_events sample_observed h' = [EWarn WAvoidAdding]) /\
  (exists h', set 0 (VRef 4) (KName "fresh") VNull sample_observed
              = Some (h', Returned VNull) /\
     dep_uid h' = dep_uid sample_observed /\
     (forall d, ENotify d ∉ new_events sample_observed h') /\
     (true = true -> get_prop h' 4 (KName "fresh") = Some VNull) /\
     (true = false -> objs h' = objs sample_observed)) /\
  (exists h', set 0 (VRef 4) (KName "fresh") VNull sample_sealed
              = Some (h', Thrown) /\
     dep_uid h' = dep_uid sample_sealed /\
     (forall d, ENotify d ∉ new_events sample_sealed h') /\
     (false = true -> get_prop h' 4 (KName "fresh") = Some VNull) /\
     (false = false -> objs h' = objs sample_sealed)).
Proof.
  split; [|split].
  - destruct (set_without_notification 0 sample_observed 1
                (default sample_root (objs sample_observed !! 1))
                (KName "fresh") VNull) as [H _];
      [vm_compute; reflexivity|vm_compute; reflexivity
      |vm_compute; reflexivity|left; vm_compute; discriminate|].
    apply H. right. eexists. split; [vm_compute; reflexivity|vm_compute; lia].
  - destruct (set_without_notification 0 sample_observed 4
                (default sample_root (objs sample_observed !! 4))
                (KName "fresh") VNull) as [_ H];
      [vm_compute; reflexivity|vm_compute; reflexivity
      |vm_compute; reflexivity|left; vm_compute; discriminate|].
    apply H; vm_compute; reflexivity.
  - destruct (set_without_notification 0 sample_sealed 4
                (mkObj KPlain [] [] None false false [])
                (KName "fresh") VNull) as [_ H];
      [vm_compute; reflexivity|vm_compute; reflexivity
      |vm_compute; reflexivity|left; vm_compute; discriminate|].
    apply H; vm_compute; reflexivity.
Defined.

(** C10 as stated fails: [count] is already a property of the root data
    object 1 (whose Observer has [vmCount] 1), so [set] assigns it through
    the reactive setter: the target changes and the property's
    subscribers are notified. *)
Lemma set_on_root_counterexample :
  observer_of sample_observed 1 = Some (mkOb 0 1) /\
  get_prop sample_observed 1 (KName "count") = Some (VNum (Fin 1)) /\
  exists h', set 0 (VRef 1) (KName "count") (VNum (Fin 2)) sample_observed
             = Some (h', Returned (VNum (Fin 2))) /\
    get_prop h' 1 (KName "count") = Some (VNum (Fin 2)) /\
    objs h' <> objs sample_observed /\
    new_events sample_observed h' = [ENotify 1].
Proof.
  split; [vm_compute; reflexivity|]. split; [vm_compute; reflexivity|].
  eexists. split; [vm_compute; reflexivity|].
  split; [vm_compute; reflexivity|]. split; [|vm_compute; reflexivity].
  intros E. apply (f_equal (fun m => o ← m !! 1;
                                     read_descriptor <$>
                                       lookup_prop (KName "count") (props o)))
    in E.
  vm_compute in E. discriminate.
Qed.

(** *** observe converts properties without changing what they read *)

Lemma lookup_define_prop_ne k k' d ps :
  k' <> k -> lookup_prop k' (define_prop k d ps) = lookup_prop k' ps.
Proof.
  intros Hne. induction ps as [|[k0 d0] ps IH]; simpl.
  - destruct (decide (k = k')); [congruence|reflexivity].
  - destruct (decide (k0 = k)) as [->|Hk]; simpl.
    + destruct (decide (k = k')); [congruence|reflexivity].
    + destruct (decide (k0 = k')); [reflexivity|exact IH].
Qed.

Lemma keys_define_prop k d ps :
  is_Some (lookup_prop k ps) -> (define_prop k d ps).*1 = ps.*1.
Proof.
  induction ps as [|[k0 d0] ps IH]; simpl.
  - intros [x Hx]. discriminate.
  - destruct (decide (k0 = k)) as [->|Hk]; simpl; [reflexivity|].
    intros H. f_equal. apply IH, H.
Qed.

Lemma lookup_prop_is_Some k ps : is_Some (lookup_prop k ps) <-> k ∈ ps.*1.
Proof.
  induction ps as [|[k0 d0] ps IH]; simpl.
  - rewrite elem_of_nil. split; [intros [x Hx]; discriminate|tauto].
  - rewrite elem_of_cons. destruct (decide (k0 = k)) as [->|Hk].
    + split; [auto|eauto].
    + rewrite IH. split; [auto|]. intros [->|H]; [congruence|exact H].
Qed.

(** [o'] is [o] with properties converted: the same kind, flags, elements
    and keys, in the same order, and every key reads the same value. *)
Definition same_shape (o o' : Obj) : Prop :=
  o_kind o' = o_kind o /\ extensible o' = extensible o /\
  isVue o' = isVue o /\ inherited o' = inherited o /\
  elems o' = elems o /\ (props o').*1 = (props o).*1 /\
  forall k, read_descriptor <$> lookup_prop k (props o')
            = read_descriptor <$> lookup_prop k (props o).

(** [same_reads h h']: the two heaps hold the same objects, each of the
    same shape; an object of [h] that carries no Observer and is not
    observable (a frozen object, a Vue instance, an object that is neither
    plain nor an array) is in [h'] as it is in [h]; and nothing was
    reported in between. *)
Definition same_reads (h h' : Heap) : Prop :=
  events h' = events h /\
  shouldObserve h' = shouldObserve h /\
  serverRendering h' = serverRendering h /\
  (forall r, objs h !! r = None -> objs h' !! r = None) /\
  (forall r o, objs h !! r = Some o ->
     exists o', objs h' !! r = Some o' /\ same_shape o o' /\
                (ob o = None -> observable h o = false -> o' = o)).

Lemma same_shape_refl o : same_shape o o.
Proof. repeat split; reflexivity. Qed.

Lemma same_shape_trans o1 o2 o3 :
  same_shape o1 o2 -> same_shape o2 o3 -> same_shape o1 o3.
Proof.
  intros (A1 & B1 & C1 & D1 & E1 & F1 & G1) (A2 & B2 & C2 & D2 & E2 & F2 & G2).
  repeat split; try congruence.
Qed.

Lemma same_reads_refl h : same_reads h h.
Proof.
  repeat split; auto. intros r o Hr. exists o.
  split; [exact Hr|]. split; [apply same_shape_refl|auto].
Qed.

Lemma same_reads_trans h1 h2 h3 :
  same_reads h1 h2 -> same_reads h2 h3 -> same_reads h1 h3.
Proof.
  intros (V1 & A1 & B1 & C1 & D1) (V2 & A2 & B2 & C2 & D2).
  split; [congruence|].
  split; [congruence|]. split; [congruence|]. split; [auto|].
  intros r o Hr. destruct (D1 r o Hr) as (o2 & Hr2 & S2 & U2).
  destruct (D2 r o2 Hr2) as (o3 & Hr3 & S3 & U3).
  exists o3. split; [exact Hr3|].
  split; [eapply same_shape_trans; eassumption|].
  intros Hob Hobs. specialize (U2 Hob Hobs). subst o2.
  apply U3; [exact Hob|]. unfold observable in *. rewrite A1, B1. exact Hobs.
Qed.

Lemma same_reads_same_objs h h' :
  objs h' = objs h -> events h' = events h ->
  shouldObserve h' = shouldObserve h ->
  serverRendering h' = serverRendering h -> same_reads h h'.
Proof.
  intros Ho V A B. split; [exact V|].
  split; [exact A|]. split; [exact B|]. rewrite Ho.
  split; [auto|]. intros r o Hr. exists o.
  split; [exact Hr|]. split; [apply same_shape_refl|auto].
Qed.

Lemma same_reads_put r o o' h :
  objs h !! r = Some o -> same_shape o o' ->
  (ob o = None -> observable h o = false -> o' = o) ->
  same_reads h (put r o' h).
Proof.
  intros Hr Hs Hu. split; [reflexivity|].
  split; [reflexivity|]. split; [reflexivity|]. split.
  - intros r0 H0. unfold put; simpl. rewrite lookup_insert_ne; [exact H0|].
    intros ->. congruence.
  - intros r0 o0 H0. unfold put; simpl. rewrite lookup_insert.
    destruct (decide (r = r0)) as [<-|Hne].
    + exists o'. rewrite Hr in H0. injection H0 as <-. auto.
    + exists o0. split; [exact H0|]. split; [apply same_shape_refl|auto].
Qed.

Lemma same_reads_bump_vmCount r h : same_reads h (bump_vmCount r h).
Proof.
  unfold bump_vmCount. destruct (objs h !! r) as [o|] eqn:Hr;
    [|apply same_reads_refl].
  destruct (ob o) as [x|] eqn:Hx; [|apply same_reads_refl].
  apply (same_reads_put r o);
    [exact Hr|repeat split; reflexivity|congruence].
Qed.

Section Reads.
Variable observe_rec : value -> bool -> Heap -> option (Heap * option nat).
Hypothesis observe_rec_reads :
  forall v a h h1 res, observe_rec v a h = Some (h1, res) -> same_reads h h1.
Hypothesis observe_rec_extends :
  forall v a h h1 res, observe_rec v a h = Some (h1, res) -> extends h h1.
Hypothesis observe_rec_keeps :
  forall v a h h1 res, observe_rec v a h = Some (h1, res) ->
                       keeps_on (fun _ => True) h h1.

Lemma defineReactive_with_reads r k custom shallow o h h' c0 :
  objs h !! r = Some o -> is_Some (ob o) ->
  is_Some (lookup_prop k (props o)) ->
  defineReactive_with observe_rec r k None custom shallow h = Some (h', c0) ->
  same_reads h h'.
Proof.
  intros Hr Hob [p Hp]. unfold defineReactive_with. simpl.
  set (h1 := mkHeap _ _ _ _ _ _).
  assert (H1 : same_reads h h1) by (apply same_reads_same_objs; reflexivity).
  rewrite Hr, Hp.
  destruct (negb (is_configurable p));
    [intros [= E _]; rewrite <- E; exact H1|].
  destruct (negb (extensible o) && _); [discriminate|].
  set (getter := Some p ≫= has_getter).
  set (v := match getter with Some _ => VUndefined | None => _ end).
  assert (Hfin : forall h2 c, same_reads h1 h2 -> extends h1 h2 ->
            keeps_on (fun _ => True) h1 h2 ->
            forall o2, objs h2 !! r = Some o2 ->
            same_reads h (put r (with_props
                                   (define_prop k
                                      (Tracked (mkReactive (dep_uid h) v c
                                                  shallow custom getter
                                                  (has_setter p)))
                                      (props o2)) o2) h2)).
  { intros h2 c S2 E2 K2 o2 Hr2.
    destruct (K2 r o I Hr Hob) as (o2' & Hr2' & Hp2 & Hob2).
    rewrite Hr2 in Hr2'. injection Hr2' as <-.
    eapply same_reads_trans; [exact H1|].
    eapply same_reads_trans; [exact S2|].
    apply (same_reads_put r o2); [exact Hr2| |].
    - repeat split; simpl.
      + apply keys_define_prop. rewrite Hp2, Hp. eauto.
      + intros k'. destruct (decide (k' = k)) as [->|Hne].
        * rewrite lookup_define_prop, Hp2, Hp. simpl. f_equal.
          subst v getter. destruct p as [x cf|[g|] s cf|rc]; reflexivity.
        * rewrite lookup_define_prop_ne by exact Hne. reflexivity.
    - intros Hn. destruct Hob2 as [x Hx]. congruence. }
  destruct shallow; simpl.
  - rewrite Hr, Hp, andb_false_r. intros [= E _]. rewrite <- E.
    apply (Hfin h1 None); [apply same_reads_refl|apply extends_refl
                          |apply keeps_on_refl|exact Hr].
  - destruct (observe_rec v false h1) as [[h2 c]|] eqn:Ho; [|discriminate].
    simpl.
    pose proof (observe_rec_reads _ _ _ _ _ Ho) as S2.
    pose proof (observe_rec_extends _ _ _ _ _ Ho) as E2.
    pose proof (observe_rec_keeps _ _ _ _ _ Ho) as K2.
    destruct (objs h2 !! r) as [o2|] eqn:Hr2.
    + destruct (K2 r o I Hr Hob) as (o2' & Hr2' & Hp2 & _).
      rewrite Hr2 in Hr2'. injection Hr2' as <-.
      rewrite Hp2, Hp, andb_false_r. intros [= E _]. rewrite <- E, <- Hp2.
      apply (Hfin h2 c S2 E2 K2 o2 Hr2).
    + intros [= E _]. rewrite <- E.
      eapply same_reads_trans; [exact H1|exact S2].
Qed.

Lemma walk_with_reads r keys : forall o h h',
  objs h !! r = Some o -> is_Some (ob o) ->
  (forall k, k ∈ keys -> k ∈ (props o).*1) ->
  walk_with observe_rec r keys h = Some h' ->
  same_reads h h'.
Proof.
  induction keys as [|k keys IH]; intros o h h' Hr Hob Hk; simpl.
  - intros [= <-]. apply same_reads_refl.
  - destruct (defineReactive_with observe_rec r k None false false h)
      as [[h1 [u|]]|] eqn:Hd; try discriminate. simpl. intros Hw.
    assert (S1 : same_reads h h1).
    { eapply (defineReactive_with_reads r k); try eassumption.
      apply lookup_prop_is_Some, Hk, elem_of_cons. auto. }
    pose proof (defineReactive_with_extends observe_rec observe_rec_extends
                  _ _ _ _ _ _ _ _ Hd) as E1.
    pose proof S1 as (_ & _ & _ & _ & D).
    destruct (D r o Hr) as (o1 & Hr1 & (_ & _ & _ & _ & _ & Hkeys & _) & _).
    eapply same_reads_trans; [exact S1|].
    apply (IH o1 h1 h' Hr1); [| |exact Hw].
    + destruct E1 as (_ & _ & _ & E1). destruct (E1 r o Hr) as (o1' & Hr1' & _ & _ & _ & O1).
      rewrite Hr1 in Hr1'. injection Hr1' as <-.
      destruct Hob as [x Hx]. destruct (O1 x Hx) as (x' & Hx' & _). eauto.
    + intros k' Hk'. rewrite Hkeys. apply Hk, elem_of_cons. auto.
Qed.

Lemma observeArray_with_reads items : forall h h',
  observeArray_with observe_rec items h = Some h' -> same_reads h h'.
Proof.
  induction items as [|v items IH]; intros h h'; simpl.
  - intros [= <-]. apply same_reads_refl.
  - destruct (observe_rec v false h) as [[h1 c]|] eqn:Ho; [|discriminate].
    simpl. intros Hw.
    eapply same_reads_trans; [eapply observe_rec_reads, Ho|]. apply IH, Hw.
Qed.

Lemma new_Observer_with_reads r o h h' :
  objs h !! r = Some o -> ob o = None -> observable h o = true ->
  new_Observer_with observe_rec r h = Some h' ->
  same_reads h h'.
Proof.
  intros Hr Hob Hobs. unfold new_Observer_with. simpl.
  set (h1 := mkHeap _ _ _ _ _ _).
  change (objs h1 !! r) with (objs h !! r). rewrite Hr.
  set (o2 := with_ob (Some (mkOb (dep_uid h) 0)) o).
  set (h2 := put r o2 h1). intros Hrest.
  assert (H2 : same_reads h h2).
  { eapply (same_reads_trans h h1);
      [apply same_reads_same_objs; reflexivity|].
    apply (same_reads_put r o); [exact Hr|repeat split; reflexivity|].
    intros _ Hn. unfold observable in *. simpl in Hn. congruence. }
  assert (Hr2 : objs h2 !! r = Some o2)
    by (unfold h2, put; simpl; apply lookup_insert_eq).
  eapply same_reads_trans; [exact H2|].
  destruct (bool_decide (o_kind o = KArray)).
  - eapply observeArray_with_reads, Hrest.
  - eapply (walk_with_reads r _ o2); [exact Hr2|simpl; eauto| |exact Hrest].
    auto.
Qed.
End Reads.

Lemma observe_reads fuel : forall v a h h1 res,
  observe fuel v a h = Some (h1, res) -> same_reads h h1.
Proof.
  induction fuel as [|fuel IH]; intros v a h h1 res; simpl;
    destruct (object_of h v) as [[r o]|] eqn:Hv;
    try (intros [= <- <-]; apply same_reads_refl);
    (destruct (bool_decide (o_kind o = KVNode));
     [intros [= <- <-]; apply same_reads_refl|]);
    destruct (ob o) as [x|] eqn:Hob; simpl.
  - intros [= <- <-].
    destruct a; [apply same_reads_bump_vmCount|apply same_reads_refl].
  - destruct (observable h o); [discriminate|]. simpl.
    intros [= <- <-]. apply same_reads_refl.
  - intros [= <- <-].
    destruct a; [apply same_reads_bump_vmCount|apply same_reads_refl].
  - destruct (observable h o) eqn:Hobs; simpl.
    + destruct (new_Observer_with (observe fuel) r h) as [h'|] eqn:Hn;
        [|discriminate]. simpl. intros [= <- <-].
      apply object_of_Some in Hv as [_ Hr].
      pose proof (new_Observer_with_reads (observe fuel) IH
                    (observe_extends fuel) (observe_keeps fuel)
                    r o h h' Hr Hob Hobs Hn) as Hs.
      destruct a; [|exact Hs].
      eapply same_reads_trans; [exact Hs|apply same_reads_bump_vmCount].
    + intros [= <- <-]. apply same_reads_refl.
Qed.

(** X14.  [observe] does not change what the data reads.  Whatever it
    converts, the heap afterwards holds the same objects with the same
    keys in the same order and the same array elements, and every property
    reads the value it read before.  Objects that cannot be observed (a
    frozen or sealed object, a Vue instance, an object that is neither
    plain nor an array) are left exactly as they are, wherever they occur
    in the data. *)
Theorem observe_preserves_reads fuel v a h h1 res :
  observe fuel v a h = Some (h1, res) ->
  same_reads h h1 /\
  forall r k, get_prop h1 r k = get_prop h r k.
Proof.
  intros H. pose proof (observe_reads fuel v a h h1 res H) as Hs.
  split; [exact Hs|]. intros r k. unfold get_prop.
  destruct Hs as (_ & _ & _ & Hn & Hsome).
  destruct (objs h !! r) as [o|] eqn:Hr.
  - destruct (Hsome r o Hr) as (o' & -> & (_ & _ & _ & _ & _ & _ & Hread) & _).
    simpl. apply Hread.
  - rewrite (Hn r Hr). reflexivity.
Qed.

Lemma observe_preserves_reads_witness :
  same_reads sample_heap sample_observed /\
  forall r k, get_prop sample_observed r k = get_prop sample_heap r k.
Proof.
  apply (observe_preserves_reads 5 (VRef 1) true sample_heap sample_observed
           (Some 1)).
  vm_compute. reflexivity.
Defined.

(** *** observe makes the properties reactive, deeply *)

(** An object [observe] returns an Observer for: it carries one, or one
    can be created for it. *)
Definition wrappable (h : Heap) (r : nat) : Prop :=
  exists o, objs h !! r = Some o /\ o_kind o <> KVNode /\
            (is_Some (ob o) \/ observable h o = true).

Lemma wrappable_extends h h' r : extends h h' -> wrappable h r -> wrappable h' r.
Proof.
  intros (A & B & _ & E) (o & Hr & Hk & Hw).
  destruct (E r o Hr) as (o' & Hr' & K & X & V & O).
  exists o'. split; [exact Hr'|]. split; [congruence|].
  destruct Hw as [[x Hx]|Hw].
  - left. destruct (O x Hx) as (x' & Hx' & _). eauto.
  - right. unfold observable in *. rewrite A, B, K, X, V. exact Hw.
Qed.

Lemma observe_wraps fuel v a h h1 res r :
  observe fuel v a h = Some (h1, res) ->
  v = VRef r -> wrappable h r ->
  res = Some r /\ is_Some (observer_of h1 r).
Proof.
  intros Ho -> (o & Hr & Hk & Hw).
  assert (Hres : res = Some r).
  { destruct res as [c|].
    - destruct (observe_result _ _ _ _ _ _ Ho) as [[= ->] _]. reflexivity.
    - exfalso. destruct (observe_nothing _ _ _ _ _ Ho) as [_ Hn].
      specialize (Hn 1 false). simpl in Hn. rewrite Hr in Hn. simpl in Hn.
      rewrite bool_decide_eq_false_2 in Hn by exact Hk.
      destruct Hw as [[x Hx]|Hw].
      + rewrite Hx in Hn. discriminate.
      + destruct (ob o); [discriminate|]. rewrite Hw in Hn.
        match type of Hn with
        | context [new_Observer_with ?f ?a ?b] =>
            destruct (new_Observer_with f a b)
        end; discriminate. }
  split; [exact Hres|]. subst res.
  destruct (observe_result _ _ _ _ _ _ Ho) as (_ & o3 & x3 & Hr3 & Hx3 & _).
  unfold observer_of. rewrite Hr3. simpl. rewrite Hx3. eauto.
Qed.

(** Property [k] of the object at [r] is reactive in [h], reads [val],
    and when [val] is an object for which an Observer could be had in
    [h0], that object carries one in [h] and the property knows it as its
    child. *)
Definition reactive_at (h0 h : Heap) (r : nat) (k : key) (val : value)
  : Prop :=
  exists rc, tracked_prop h r k = Some rc /\
    read_descriptor (Tracked rc) = val /\
    (r_getter rc = None ->
     forall r', val = VRef r' -> wrappable h0 r' ->
       r_childOb rc = Some r' /\ is_Some (observer_of h r')).

Lemma reactive_at_earlier h00 h0 h r k val :
  extends h00 h0 -> reactive_at h0 h r k val -> reactive_at h00 h r k val.
Proof.
  intros He (rc & Ht & Hread & Hdeep). exists rc.
  split; [exact Ht|]. split; [exact Hread|].
  intros Hg r' Hv Hw. apply (Hdeep Hg r' Hv).
  eapply wrappable_extends; eassumption.
Qed.

Section Deep.
Variable observe_rec : value -> bool -> Heap -> option (Heap * option nat).
Hypothesis observe_rec_extends :
  forall v a h h1 res, observe_rec v a h = Some (h1, res) -> extends h h1.
Hypothesis observe_rec_keeps :
  forall v a h h1 res, observe_rec v a h = Some (h1, res) ->
                       keeps_on (fun _ => True) h h1.
Hypothesis observe_rec_wraps :
  forall v a h h1 res r, observe_rec v a h = Some (h1, res) ->
    v = VRef r -> wrappable h r -> res = Some r /\ is_Some (observer_of h1 r).

(** What [defineReactive(obj, key)] of [walk] does to [key] and to the
    other keys of an object that carries an Observer. *)
Lemma defineReactive_with_deep r k o p h h' c0 :
  objs h !! r = Some o -> is_Some (ob o) ->
  lookup_prop k (props o) = Some p ->
  defineReactive_with observe_rec r k None false false h = Some (h', c0) ->
  extends h h' /\
  (exists o', objs h' !! r = Some o' /\ is_Some (ob o') /\
     forall k', k' <> k \/ is_configurable p = false ->
                lookup_prop k' (props o') = lookup_prop k' (props o)) /\
  (is_configurable p = true -> reactive_at h h' r k (read_descriptor p)).
Proof.
  intros Hr Hob Hp Hd.
  pose proof (defineReactive_with_extends observe_rec observe_rec_extends
                _ _ _ _ _ _ _ _ Hd) as He.
  split; [exact He|]. revert Hd.
  unfold defineReactive_with. simpl.
  set (h1 := mkHeap _ _ _ _ _ _).
  assert (E1 : extends h h1) by (apply extends_same_objs; reflexivity).
  rewrite Hr, Hp.
  destruct (is_configurable p) eqn:Hc; simpl.
  2:{ intros [= <- _]. split; [|discriminate].
      exists o. split; [exact Hr|]. split; [exact Hob|auto]. }
  destruct (negb (extensible o) && _); [discriminate|].
  set (getter := has_getter p).
  set (v := match getter with Some _ => VUndefined | None => _ end).
  destruct (observe_rec v false h1) as [[h2 c]|] eqn:Ho; [|discriminate].
  simpl.
  pose proof (observe_rec_extends _ _ _ _ _ Ho) as E2.
  destruct (observe_rec_keeps _ _ _ _ _ Ho r o I Hr Hob)
    as (o2 & Hr2 & Hp2 & Hob2).
  rewrite Hr2.
  replace (bool_decide (lookup_prop k (props o2) = None)) with false
    by (rewrite Hp2, Hp; reflexivity).
  rewrite andb_false_r. intros [= <- _].
  set (rc := mkReactive (dep_uid h) v c false false getter (has_setter p)).
  split.
  - eexists. split; [unfold put; simpl; apply lookup_insert_eq|].
    split; [exact Hob2|]. intros k' [Hne|Hne]; [|discriminate]. simpl.
    rewrite lookup_define_prop_ne by exact Hne. rewrite Hp2. reflexivity.
  - intros _. exists rc. split.
    { unfold tracked_prop, put; simpl. rewrite lookup_insert_eq. simpl.
      rewrite lookup_define_prop. reflexivity. }
    split.
    { subst rc v getter. destruct p as [x cf|[g|] s cf|rc0]; reflexivity. }
    intros Hg r' Hv Hw. simpl in Hg. subst getter.
    assert (Ev : v = read_descriptor p).
    { subst v. rewrite Hg. reflexivity. }
    destruct (observe_rec_wraps v false h1 h2 c r' Ho) as [-> Hx].
    { rewrite Ev. exact Hv. }
    { eapply wrappable_extends; [exact E1|]. exact Hw. }
    split; [reflexivity|].
    eapply extends_observer_of; [|exact Hx]. apply extends_put_props, Hr2.
Qed.

Lemma reactive_at_later h0 h h' r k val :
  extends h h' ->
  (forall o, objs h !! r = Some o ->
     exists o', objs h' !! r = Some o' /\
                lookup_prop k (props o') = lookup_prop k (props o)) ->
  reactive_at h0 h r k val -> reactive_at h0 h' r k val.
Proof.
  intros He Hsame (rc & Ht & Hread & Hdeep).
  exists rc. split; [|split; [exact Hread|]].
  - unfold tracked_prop in *.
    destruct (objs h !! r) as [o|] eqn:Hr; [|discriminate].
    destruct (Hsame o eq_refl) as (o' & -> & Hl). simpl in *.
    rewrite Hl. exact Ht.
  - intros Hg r' Hv Hw. destruct (Hdeep Hg r' Hv Hw) as [Hc Hx].
    split; [exact Hc|]. eapply extends_observer_of; eassumption.
Qed.

(** [walk] leaves alone the keys it does not visit, and the keys that are
    not configurable. *)
Lemma walk_with_lookup r k0 keys : forall o h h',
  objs h !! r = Some o -> is_Some (ob o) ->
  NoDup keys -> (forall k, k ∈ keys -> is_Some (lookup_prop k (props o))) ->
  k0 ∉ keys \/ (exists p, lookup_prop k0 (props o) = Some p /\
                           is_configurable p = false) ->
  walk_with observe_rec r keys h = Some h' ->
  exists o', objs h' !! r = Some o' /\
             lookup_prop k0 (props o') = lookup_prop k0 (props o).
Proof.
  induction keys as [|k keys IH]; intros o h h' Hr Hob Hnd Hk Hn; simpl.
  - intros [= <-]. eauto.
  - destruct (defineReactive_with observe_rec r k None false false h)
      as [[h1 [u|]]|] eqn:Hd; try discriminate. simpl. intros Hw.
    apply NoDup_cons in Hnd as [Hk0 Hnd].
    destruct (Hk k) as [p Hp]; [apply elem_of_cons; auto|].
    destruct (defineReactive_with_deep r k o p h h1 _ Hr Hob Hp Hd)
      as (_ & (o1 & Hr1 & Hob1 & Hsame) & _).
    assert (H0 : lookup_prop k0 (props o1) = lookup_prop k0 (props o)).
    { apply Hsame. destruct Hn as [Hn|(p0 & Hp0 & Hc0)].
      - left. intros ->. apply Hn, elem_of_cons. auto.
      - destruct (decide (k0 = k)) as [->|Hne]; [|auto].
        right. congruence. }
    destruct (IH o1 h1 h' Hr1 Hob1 Hnd) as (o' & Hr' & Hl'); [| |exact Hw|].
    + intros k' Hin. rewrite Hsame.
      * apply Hk, elem_of_cons. auto.
      * left. intros ->. tauto.
    + destruct Hn as [Hn|(p0 & Hp0 & Hc0)].
      * left. intros Hin. apply Hn, elem_of_cons. auto.
      * right. exists p0. split; [congruence|exact Hc0].
    + exists o'. split; [exact Hr'|congruence].
Qed.

Lemma walk_with_deep r keys : forall o h h',
  objs h !! r = Some o -> is_Some (ob o) ->
  NoDup keys -> (forall k, k ∈ keys -> is_Some (lookup_prop k (props o))) ->
  walk_with observe_rec r keys h = Some h' ->
  extends h h' /\
  forall k p, k ∈ keys -> lookup_prop k (props o) = Some p ->
    is_configurable p = true -> reactive_at h h' r k (read_descriptor p).
Proof.
  induction keys as [|k0 keys IH]; intros o h h' Hr Hob Hnd Hk; simpl.
  - intros [= <-]. split; [apply extends_refl|].
    intros k p Hin. apply elem_of_nil in Hin. destruct Hin.
  - destruct (defineReactive_with observe_rec r k0 None false false h)
      as [[h1 [u|]]|] eqn:Hd; try discriminate. simpl. intros Hw.
    apply NoDup_cons in Hnd as [Hk0 Hnd].
    destruct (Hk k0) as [p0 Hp0]; [apply elem_of_cons; auto|].
    destruct (defineReactive_with_deep r k0 o p0 h h1 _ Hr Hob Hp0 Hd)
      as (E1 & (o1 & Hr1 & Hob1 & Hsame) & Hreact).
    assert (Hk1 : forall k, k ∈ keys -> lookup_prop k (props o1)
                                        = lookup_prop k (props o)).
    { intros k Hin. apply Hsame. left. intros ->. tauto. }
    assert (Hk' : forall k, k ∈ keys -> is_Some (lookup_prop k (props o1))).
    { intros k Hin. rewrite (Hk1 k Hin). apply Hk, elem_of_cons. auto. }
    destruct (IH o1 h1 h' Hr1 Hob1 Hnd Hk' Hw) as [E2 Hrest].
    split; [eapply extends_trans; eassumption|].
    intros k p Hin Hp Hc. apply elem_of_cons in Hin as [->|Hin].
    + rewrite Hp0 in Hp. injection Hp as <-.
      apply (reactive_at_later h h1 h'); [exact E2| |apply Hreact, Hc].
      intros o1' Hr1'. rewrite Hr1 in Hr1'. injection Hr1' as <-.
      apply (walk_with_lookup r k0 keys o1 h1 h'); auto.
    + apply (reactive_at_earlier h h1); [exact E1|].
      apply Hrest; [exact Hin| |exact Hc]. rewrite (Hk1 k Hin). exact Hp.
Qed.

Lemma observeArray_with_deep items : forall h h',
  observeArray_with observe_rec items h = Some h' ->
  extends h h' /\
  forall r', VRef r' ∈ items -> wrappable h r' -> is_Some (observer_of h' r').
Proof.
  induction items as [|v items IH]; intros h h'; simpl.
  - intros [= <-]. split; [apply extends_refl|].
    intros r' Hin. apply elem_of_nil in Hin. destruct Hin.
  - destruct (observe_rec v false h) as [[h1 c]|] eqn:Ho; [|discriminate].
    simpl. intros Hw.
    pose proof (observe_rec_extends _ _ _ _ _ Ho) as E1.
    destruct (IH h1 h' Hw) as [E2 Hrest].
    split; [eapply extends_trans; eassumption|].
    intros r' Hin Hwr. apply elem_of_cons in Hin as [<-|Hin].
    + destruct (observe_rec_wraps _ _ _ _ _ r' Ho eq_refl Hwr) as [_ Hx].
      eapply extends_observer_of; eassumption.
    + apply Hrest; [exact Hin|]. eapply wrappable_extends; eassumption.
Qed.
End Deep.

Lemma tracked_prop_bump_vmCount r h r0 k :
  tracked_prop (bump_vmCount r h) r0 k = tracked_prop h r0 k /\
  get_prop (bump_vmCount r h) r0 k = get_prop h r0 k.
Proof.
  unfold bump_vmCount. destruct (objs h !! r) as [o|] eqn:Hr; [|auto].
  destruct (ob o) as [x|]; [|auto].
  unfold tracked_prop, get_prop, put; simpl. rewrite lookup_insert.
  destruct (decide (r = r0)) as [<-|Hne]; [|auto]. rewrite Hr. auto.
Qed.

Lemma reactive_at_bump_vmCount h0 h r r0 k val :
  reactive_at h0 h r0 k val -> reactive_at h0 (bump_vmCount r h) r0 k val.
Proof.
  intros (rc & Ht & Hread & Hdeep). exists rc.
  split; [rewrite (proj1 (tracked_prop_bump_vmCount r h r0 k)); exact Ht|].
  split; [exact Hread|]. intros Hg r' Hv Hw.
  destruct (Hdeep Hg r' Hv Hw) as [Hc Hx]. split; [exact Hc|].
  eapply extends_observer_of; [apply extends_bump_vmCount|exact Hx].
Qed.

(** X15.  After [observe] has created the Observer of a plain object,
    every configurable own property of the object is reactive and reads
    what it read before; a data property that held an object or array for
    which an Observer can be had (it carries one, or is an extensible plain
    object or array that is not a Vue instance) now has that Observer as
    its child.  Properties that are not configurable are left as they
    are.  After [observe] has created the Observer of an array, every
    element for which an Observer can be had carries one. *)
Theorem observe_makes_reactive fuel r o a h h1 :
  objs h !! r = Some o -> ob o = None -> NoDup (props o).*1 ->
  observe fuel (VRef r) a h = Some (h1, Some r) ->
  is_Some (observer_of h1 r) /\
  (o_kind o <> KArray ->
   forall k p, lookup_prop k (props o) = Some p ->
     (is_configurable p = true -> reactive_at h h1 r k (read_descriptor p)) /\
     (is_configurable p = false ->
      exists o1, objs h1 !! r = Some o1 /\ lookup_prop k (props o1) = Some p)) /\
  (o_kind o = KArray ->
   forall r', VRef r' ∈ elems o -> wrappable h r' ->
     is_Some (observer_of h1 r')).
Proof.
  intros Hr Hob Hnd H.
  assert (Hx : is_Some (observer_of h1 r)).
  { destruct (observe_result _ _ _ _ _ _ H) as (_ & o1 & x1 & Hr1 & Hx1 & _).
    unfold observer_of. rewrite Hr1. simpl. rewrite Hx1. eauto. }
  split; [exact Hx|].
  assert (Hcase : exists f h',
            new_Observer_with (observe f) r h = Some h' /\
            h1 = (if a then bump_vmCount r h' else h')).
  { destruct fuel as [|f]; simpl in H; rewrite Hr in H; simpl in H;
      (destruct (bool_decide (o_kind o = KVNode)); [discriminate|]);
      rewrite Hob in H; simpl in H;
      (destruct (observable h o); [|discriminate]); simpl in H;
      [discriminate|].
    destruct (new_Observer_with (observe f) r h) as [h'|] eqn:Hn;
      [|discriminate]. simpl in H. injection H as <-. eauto. }
  destruct Hcase as (f & h' & Hn & ->).
  revert Hn. unfold new_Observer_with. simpl.
  set (h0 := mkHeap _ _ _ _ _ _).
  change (objs h0 !! r) with (objs h !! r). rewrite Hr.
  set (o2 := with_ob (Some (mkOb (dep_uid h) 0)) o).
  set (h2 := put r o2 h0).
  assert (E2 : extends h h2).
  { eapply (extends_trans h h0); [apply extends_same_objs; reflexivity|].
    apply (extends_put r o); auto. rewrite Hob. discriminate. }
  assert (Hr2 : objs h2 !! r = Some o2)
    by (unfold h2, put; simpl; apply lookup_insert_eq).
  destruct (bool_decide (o_kind o = KArray)) eqn:Hk; intros Hrest.
  - apply bool_decide_eq_true in Hk. split; [tauto|]. intros _ r' Hin Hw.
    destruct (observeArray_with_deep (observe f) (observe_extends f)
                (observe_wraps f) (elems o) h2 h' Hrest) as [E3 Hall].
    assert (H3 : is_Some (observer_of h' r')).
    { apply Hall; [exact Hin|]. eapply wrappable_extends; eassumption. }
    destruct a; [|exact H3].
    eapply extends_observer_of; [apply extends_bump_vmCount|exact H3].
  - apply bool_decide_eq_false in Hk. split; [|tauto]. intros _ k p Hp.
    assert (Hkeys : forall k0, k0 ∈ (props o).*1 ->
                               is_Some (lookup_prop k0 (props o2)))
      by (intros k0 Hin; apply lookup_prop_is_Some; exact Hin).
    assert (Hin : k ∈ (props o).*1)
      by (apply lookup_prop_is_Some; eauto).
    assert (Hob2 : is_Some (ob o2)) by (simpl; eauto).
    split.
    + intros Hc.
      destruct (walk_with_deep (observe f) (observe_extends f)
                  (observe_keeps f) (observe_wraps f) r (props o).*1
                  o2 h2 h' Hr2 Hob2 Hnd Hkeys Hrest) as [E3 Hall].
      assert (H3 : reactive_at h h' r k (read_descriptor p)).
      { apply (reactive_at_earlier h h2); [exact E2|].
        apply Hall; [exact Hin|exact Hp|exact Hc]. }
      destruct a; [apply reactive_at_bump_vmCount|]; exact H3.
    + intros Hc.
      destruct (walk_with_lookup (observe f) (observe_extends f)
                  (observe_keeps f) (observe_wraps f) r k (props o).*1
                  o2 h2 h' Hr2 Hob2 Hnd Hkeys) as (o' & Hr' & Hl');
        [right; exists p; auto|exact Hrest|].
      assert (Hl : lookup_prop k (props o') = Some p)
        by (rewrite Hl'; exact Hp).
      destruct a; [|eauto].
      unfold bump_vmCount. rewrite Hr'.
      destruct (ob o') as [x'|]; [|eauto].
      eexists. split; [unfold put; simpl; apply lookup_insert_eq|exact Hl].
Qed.

Lemma observe_makes_reactive_witness :
  is_Some (observer_of sample_observed 1) /\
  (o_kind sample_root <> KArray ->
   forall k p, lookup_prop k (props sample_root) = Some p ->
     (is_configurable p = true ->
      reactive_at sample_heap sample_observed 1 k (read_descriptor p)) /\
     (is_configurable p = false ->
      exists o1, objs sample_observed !! 1 = Some o1 /\
                 lookup_prop k (props o1) = Some p)) /\
  (o_kind sample_root = KArray ->
   forall r', VRef r' ∈ elems sample_root -> wrappable sample_heap r' ->
     is_Some (observer_of sample_observed r')).
Proof.
  apply (observe_makes_reactive 5 1 sample_root true sample_heap
           sample_observed).
  - reflexivity.
  - reflexivity.
  - vm_compute. repeat constructor; set_solver.
  - vm_compute. reflexivity.
Defined.

(** *** observe returns *)

#[global] Instance ObserverRec_eq_dec : EqDecision ObserverRec.
Proof. solve_decision. Defined.

(** The objects that carry no Observer.  Creating an Observer takes one
    unit of fuel and takes one object out of this set, so as many units
    as the set has members are enough. *)
Definition unobserved (h : Heap) : gset nat :=
  dom (filter (fun p => ob p.2 = None) (objs h)).

Lemma elem_of_unobserved r h :
  r ∈ unobserved h <-> exists o, objs h !! r = Some o /\ ob o = None.
Proof.
  unfold unobserved. rewrite elem_of_dom. unfold is_Some.
  split.
  - intros [o Ho]. apply map_lookup_filter_Some in Ho as [Hr Hob]. eauto.
  - intros (o & Hr & Hob). exists o. apply map_lookup_filter_Some. auto.
Qed.

(** [no_new h h']: [h'] has no other objects than [h]. *)
Definition no_new (h h' : Heap) : Prop := dom (objs h') ⊆ dom (objs h).

Lemma no_new_refl h : no_new h h.
Proof. unfold no_new. set_solver. Qed.

Lemma no_new_trans h1 h2 h3 : no_new h1 h2 -> no_new h2 h3 -> no_new h1 h3.
Proof. unfold no_new. set_solver. Qed.

Lemma no_new_put r o o' h : objs h !! r = Some o -> no_new h (put r o' h).
Proof.
  intros Hr. unfold no_new, put. simpl. rewrite dom_insert.
  assert (r ∈ dom (objs h)) by (apply elem_of_dom; eauto). set_solver.
Qed.

Lemma no_new_bump_vmCount r h : no_new h (bump_vmCount r h).
Proof.
  unfold bump_vmCount. destruct (objs h !! r) as [o|] eqn:Hr;
    [|apply no_new_refl].
  destruct (ob o); [|apply no_new_refl]. eapply no_new_put, Hr.
Qed.

Lemma no_new_put_tracked r k rc h : no_new h (put_tracked r k rc h).
Proof.
  unfold put_tracked. destruct (objs h !! r) eqn:Hr; [|apply no_new_refl].
  eapply no_new_put, Hr.
Qed.

Section NoNew.
Variable observe_rec : value -> bool -> Heap -> option (Heap * option nat).
Hypothesis observe_rec_no_new :
  forall v a h h1 res, observe_rec v a h = Some (h1, res) -> no_new h h1.

Lemma defineReactive_with_no_new r k val custom shallow h h' c :
  defineReactive_with observe_rec r k val custom shallow h = Some (h', c) ->
  no_new h h'.
Proof.
  unfold defineReactive_with. simpl.
  set (h1 := mkHeap _ _ _ _ _ _).
  assert (H1 : no_new h h1) by exact (no_new_refl h).
  destruct (objs h !! r) as [o|] eqn:Hr;
    [|intros [= E _]; rewrite <- E; exact H1].
  destruct (match lookup_prop k (props o) with
            | Some p => negb (is_configurable p)
            | None => false
            end); [intros [= E _]; rewrite <- E; exact H1|].
  destruct (negb (extensible o) && _); [discriminate|].
  set (v := match val with Some _ => _ | None => _ end).
  destruct shallow.
  - simpl. rewrite Hr.
    destruct (negb (extensible o) && _); intros [= E _]; rewrite <- E.
    + exact H1.
    + exact (no_new_put r o _ h1 Hr).
  - destruct (observe_rec v false h1) as [[h2 c2]|] eqn:Ho; [|discriminate].
    simpl.
    pose proof (observe_rec_no_new _ _ _ _ _ Ho) as H2.
    destruct (objs h2 !! r) as [o2|] eqn:Hr2;
      [destruct (negb (extensible o2) && _)|]; intros [= E _]; rewrite <- E.
    + exact H2.
    + exact (no_new_trans h1 h2 _ H2 (no_new_put r o2 _ h2 Hr2)).
    + exact H2.
Qed.

Lemma walk_with_no_new r keys : forall h h',
  walk_with observe_rec r keys h = Some h' -> no_new h h'.
Proof.
  induction keys as [|k keys IH]; intros h h'; simpl.
  - intros [= <-]. apply no_new_refl.
  - destruct (defineReactive_with observe_rec r k None false false h)
      as [[h1 [u|]]|] eqn:Hd; try discriminate. simpl. intros Hw.
    eapply no_new_trans; [eapply defineReactive_with_no_new, Hd|].
    apply IH, Hw.
Qed.

Lemma observeArray_with_no_new items : forall h h',
  observeArray_with observe_rec items h = Some h' -> no_new h h'.
Proof.
  induction items as [|v items IH]; intros h h'; simpl.
  - intros [= <-]. apply no_new_refl.
  - destruct (observe_rec v false h) as [[h1 c]|] eqn:Ho; [|discriminate].
    simpl. intros Hw.
    eapply no_new_trans; [eapply observe_rec_no_new, Ho|]. apply IH, Hw.
Qed.

Lemma new_Observer_with_no_new r h h' :
  new_Observer_with observe_rec r h = Some h' -> no_new h h'.
Proof.
  unfold new_Observer_with. simpl.
  set (h1 := mkHeap _ _ _ _ _ _).
  change (objs h1 !! r) with (objs h !! r).
  destruct (objs h !! r) as [o|] eqn:Hr;
    [|intros [= <-]; exact (no_new_refl h)].
  set (h2 := put r _ h1). intros Hrest.
  assert (H2 : no_new h h2) by exact (no_new_put r o _ h1 Hr).
  eapply no_new_trans; [exact H2|].
  destruct (bool_decide (o_kind o = KArray)).
  - eapply observeArray_with_no_new, Hrest.
  - eapply walk_with_no_new, Hrest.
Qed.
End NoNew.

Lemma observe_no_new fuel : forall v a h h1 res,
  observe fuel v a h = Some (h1, res) -> no_new h h1.
Proof.
  induction fuel as [|fuel IH]; intros v a h h1 res; simpl;
    destruct (object_of h v) as [[r o]|] eqn:Hv;
    try (intros [= <- <-]; apply no_new_refl);
    (destruct (bool_decide (o_kind o = KVNode));
     [intros [= <- <-]; apply no_new_refl|]);
    destruct (ob o) as [x|] eqn:Hob; simpl.
  - intros [= <- <-].
    destruct a; [apply no_new_bump_vmCount|apply no_new_refl].
  - destruct (observable h o); [discriminate|]. simpl.
    intros [= <- <-]. apply no_new_refl.
  - intros [= <- <-].
    destruct a; [apply no_new_bump_vmCount|apply no_new_refl].
  - destruct (observable h o); simpl.
    + destruct (new_Observer_with (observe fuel) r h) as [h'|] eqn:Hn;
        [|discriminate]. simpl. intros [= <- <-].
      pose proof (new_Observer_with_no_new (observe fuel) IH r h h' Hn) as Hd.
      destruct a; [|exact Hd].
      eapply no_new_trans; [exact Hd|apply no_new_bump_vmCount].
    + intros [= <- <-]. apply no_new_refl.
Qed.

(** Where Observers stay and no object is added, no object gets
    unobserved. *)
Lemma unobserved_shrinks h h' :
  extends h h' -> no_new h h' -> unobserved h' ⊆ unobserved h.
Proof.
  intros (_ & _ & _ & He) Hd r Hr.
  apply elem_of_unobserved in Hr as (o' & Hr' & Hob').
  assert (Hin : r ∈ dom (objs h)) by (apply Hd, elem_of_dom; eauto).
  apply elem_of_dom in Hin as [o Hr].
  apply elem_of_unobserved. exists o. split; [exact Hr|].
  destruct (ob o) as [x|] eqn:Hx; [|reflexivity].
  destruct (He r o Hr) as (o1 & Hr1 & _ & _ & _ & O).
  destruct (O x Hx) as (x' & Hx' & _). congruence.
Qed.

Lemma unobserved_size_le h h' n :
  extends h h' -> no_new h h' ->
  size (unobserved h) <= n -> size (unobserved h') <= n.
Proof.
  intros He Hd Hn.
  pose proof (subseteq_size _ _ (unobserved_shrinks h h' He Hd)). lia.
Qed.

Lemma unobserved_same_objs h h' :
  objs h' = objs h -> unobserved h' = unobserved h.
Proof. intros E. unfold unobserved. rewrite E. reflexivity. Qed.

(** Attaching an Observer takes the object out of the set. *)
Lemma unobserved_attach r o x h n :
  objs h !! r = Some o -> ob o = None ->
  size (unobserved h) <= S n ->
  size (unobserved (put r (with_ob (Some x) o) h)) <= n.
Proof.
  intros Hr Hob Hn.
  assert (Hsub : unobserved (put r (with_ob (Some x) o) h)
                 ⊂ unobserved h).
  { split.
    - intros r' H'. apply elem_of_unobserved in H' as (o' & Hr' & Hob').
      unfold put in Hr'. simpl in Hr'.
      destruct (decide (r = r')) as [<-|Hne].
      + rewrite lookup_insert_eq in Hr'. injection Hr' as <-. discriminate.
      + rewrite lookup_insert_ne in Hr' by exact Hne.
        apply elem_of_unobserved. eauto.
    - intros Hall.
      assert (Hin : r ∈ unobserved h) by (apply elem_of_unobserved; eauto).
      apply Hall, elem_of_unobserved in Hin as (o' & Hr' & Hob').
      unfold put in Hr'. simpl in Hr'. rewrite lookup_insert_eq in Hr'.
      injection Hr' as <-. discriminate. }
  pose proof (subset_size _ _ Hsub). lia.
Qed.

Section Returns.
Variable observe_rec : value -> bool -> Heap -> option (Heap * option nat).
Variable n : nat.
Hypothesis observe_rec_returns :
  forall v a h, size (unobserved h) <= n -> is_Some (observe_rec v a h).
Hypothesis observe_rec_extends :
  forall v a h h1 res, observe_rec v a h = Some (h1, res) -> extends h h1.
Hypothesis observe_rec_no_new :
  forall v a h h1 res, observe_rec v a h = Some (h1, res) -> no_new h h1.

(** On an extensible object [defineReactive] returns, without a
    TypeError. *)
Lemma defineReactive_with_returns r k val custom shallow o h :
  objs h !! r = Some o -> extensible o = true ->
  size (unobserved h) <= n ->
  exists h', defineReactive_with observe_rec r k val custom shallow h
             = Some (h', Returned VUndefined).
Proof.
  intros Hr He Hn. unfold defineReactive_with. simpl.
  set (h1 := mkHeap _ _ _ _ _ _).
  rewrite Hr, He. simpl.
  destruct (match lookup_prop k (props o) with
            | Some p => negb (is_configurable p)
            | None => false
            end); [eauto|].
  set (v := match val with Some _ => _ | None => _ end).
  destruct shallow; simpl.
  - rewrite Hr, He. simpl. eauto.
  - destruct (observe_rec_returns v false h1) as [[h2 c2] Ho];
      [rewrite (unobserved_same_objs h h1) by reflexivity; exact Hn|].
    rewrite Ho. simpl.
    pose proof (observe_rec_extends _ _ _ _ _ Ho) as (_ & _ & _ & E2).
    destruct (E2 r o Hr) as (o2 & Hr2 & _ & He2 & _).
    rewrite Hr2, He2, He. simpl. eauto.
Qed.

Lemma walk_with_returns r keys : forall o h,
  objs h !! r = Some o -> extensible o = true ->
  size (unobserved h) <= n ->
  is_Some (walk_with observe_rec r keys h).
Proof.
  induction keys as [|k keys IH]; intros o h Hr He Hn; simpl; [eauto|].
  destruct (defineReactive_with_returns r k None false false o h Hr He Hn)
    as [h1 Hd].
  rewrite Hd. simpl.
  pose proof (defineReactive_with_extends observe_rec observe_rec_extends
                _ _ _ _ _ _ _ _ Hd) as E1.
  pose proof (defineReactive_with_no_new observe_rec observe_rec_no_new
                _ _ _ _ _ _ _ _ Hd) as D1.
  pose proof E1 as (_ & _ & _ & E1').
  destruct (E1' r o Hr) as (o1 & Hr1 & _ & He1 & _).
  apply (IH o1 h1 Hr1); [congruence|].
  eapply unobserved_size_le; eassumption.
Qed.

Lemma observeArray_with_returns items : forall h,
  size (unobserved h) <= n ->
  is_Some (observeArray_with observe_rec items h).
Proof.
  induction items as [|v items IH]; intros h Hn; simpl; [eauto|].
  destruct (observe_rec_returns v false h Hn) as [[h1 c] Ho].
  rewrite Ho. simpl. apply IH.
  eapply unobserved_size_le;
    [eapply observe_rec_extends, Ho|eapply observe_rec_no_new, Ho|exact Hn].
Qed.

Lemma new_Observer_with_returns r o h :
  objs h !! r = Some o -> ob o = None -> extensible o = true ->
  size (unobserved h) <= S n ->
  is_Some (new_Observer_with observe_rec r h).
Proof.
  intros Hr Hob He Hn. unfold new_Observer_with. simpl.
  set (h1 := mkHeap _ _ _ _ _ _).
  change (objs h1 !! r) with (objs h !! r). rewrite Hr.
  set (o2 := with_ob (Some (mkOb (dep_uid h) 0)) o).
  assert (Hr1 : objs h1 !! r = Some o) by exact Hr.
  assert (Hn1 : size (unobserved h1) <= S n)
    by (rewrite (unobserved_same_objs h h1) by reflexivity; exact Hn).
  pose proof (unobserved_attach r o (mkOb (dep_uid h) 0) h1 n Hr1 Hob Hn1)
    as Hn2.
  destruct (bool_decide (o_kind o = KArray)).
  - apply observeArray_with_returns, Hn2.
  - apply (walk_with_returns r _ o2); [|exact He|exact Hn2].
    unfold put; simpl. apply lookup_insert_eq.
Qed.
End Returns.

(** [observe] returns when the fuel is at least the number of objects
    without Observer. *)
Lemma observe_returns fuel : forall v a h,
  size (unobserved h) <= fuel -> is_Some (observe fuel v a h).
Proof.
  induction fuel as [|fuel IH]; intros v a h Hn; simpl;
    destruct (object_of h v) as [[r o]|] eqn:Hv; eauto;
    (destruct (bool_decide (o_kind o = KVNode)); [eauto|]);
    apply object_of_Some in Hv as [_ Hr];
    destruct (ob o) as [x|] eqn:Hob; simpl; eauto;
    (destruct (observable h o) eqn:Hobs; simpl; [|eauto]).
  - exfalso.
    assert (Hin : r ∈ unobserved h) by (apply elem_of_unobserved; eauto).
    assert (size (unobserved h) = 0) by lia.
    apply size_empty_inv in H. set_solver.
  - assert (He : extensible o = true).
    { unfold observable in Hobs. apply andb_true_iff in Hobs as [Hobs _].
      apply andb_true_iff in Hobs as [_ He]. exact He. }
    destruct (new_Observer_with_returns (observe fuel) fuel IH
                (observe_extends fuel) (observe_no_new fuel) r o h Hr Hob He Hn)
      as [h' Hn']. rewrite Hn'. simpl. eauto.
Qed.

(** More fuel than needed changes nothing: with enough fuel the result
    of [observe] is there. *)
Lemma observe_result_exists fuel v a h :
  size (unobserved h) <= fuel ->
  exists h1 res, observe fuel v a h = Some (h1, res).
Proof.
  intros Hn. destruct (observe_returns fuel v a h Hn) as [[h1 res] E]. eauto.
Qed.

(** *** set adds a reactive property *)

Lemma observe_events fuel v a h h1 res :
  observe fuel v a h = Some (h1, res) -> events h1 = events h.
Proof. intros H. apply (observe_reads fuel v a h h1 res H). Qed.

Lemma observe_primitive fuel v a h :
  isObject v = false -> observe fuel v a h = Some (h, None).
Proof. destruct v; try discriminate; destruct fuel; reflexivity. Qed.

(** [defineReactive(obj, key, val)] for a key the object does not have. *)
Lemma defineReactive_new fuel r k val o h h' c :
  objs h !! r = Some o -> is_Some (ob o) ->
  lookup_prop k (props o) = None -> extensible o = true ->
  defineReactive fuel r k (Some val) false false h = Some (h', c) ->
  events h' = events h /\ extends h h' /\
  reactive_at h h' r k val /\
  (exists rc, tracked_prop h' r k = Some rc /\ r_dep rc = dep_uid h /\
              r_getter rc = None /\ r_setter rc = false) /\
  (exists o', objs h' !! r = Some o' /\
              props o' = define_prop k
                           (from_option Tracked (Data val true)
                              (tracked_prop h' r k)) (props o)).
Proof.
  intros Hr Hob Hp He. unfold defineReactive, defineReactive_with. simpl.
  set (h1 := mkHeap _ _ _ _ _ _).
  assert (E1 : extends h h1) by (apply extends_same_objs; reflexivity).
  rewrite Hr, Hp, He. simpl.
  destruct (observe fuel val false h1) as [[h2 c2]|] eqn:Ho; [|discriminate].
  simpl.
  pose proof (observe_extends _ _ _ _ _ _ Ho) as E2.
  pose proof (observe_events _ _ _ _ _ _ Ho) as V2.
  destruct (observe_keeps _ _ _ _ _ _ Ho r o I Hr Hob)
    as (o2 & Hr2 & Hp2 & Hob2).
  assert (He2 : extensible o2 = true).
  { destruct E2 as (_ & _ & _ & E2).
    destruct (E2 r o Hr) as (o2' & Hr2' & _ & He2 & _).
    rewrite Hr2 in Hr2'. injection Hr2' as <-. congruence. }
  rewrite Hr2, He2. simpl. intros [= <- _].
  set (rc := mkReactive (dep_uid h) val c2 false false None false).
  assert (Ht : tracked_prop
                 (put r (with_props (define_prop k (Tracked rc) (props o2)) o2)
                    h2) r k = Some rc).
  { unfold tracked_prop, put; simpl. rewrite lookup_insert_eq. simpl.
    rewrite lookup_define_prop. reflexivity. }
  split; [exact V2|]. split.
  { eapply extends_trans; [exact E1|].
    eapply extends_trans; [exact E2|]. apply extends_put_props, Hr2. }
  split; [|split].
  - exists rc. split; [exact Ht|]. split; [reflexivity|].
    intros _ r' Hv Hw.
    destruct (observe_wraps fuel val false h1 h2 c2 r' Ho Hv) as [-> Hx].
    { eapply wrappable_extends; [exact E1|exact Hw]. }
    split; [reflexivity|].
    eapply extends_observer_of; [|exact Hx]. apply extends_put_props, Hr2.
  - exists rc. auto.
  - rewrite Ht. simpl. eexists.
    split; [unfold put; simpl; apply lookup_insert_eq|].
    simpl. rewrite Hp2. reflexivity.
Qed.

(** With enough fuel [defineReactive] returns on an extensible object. *)
Lemma defineReactive_returns fuel r k val custom shallow o h :
  objs h !! r = Some o -> extensible o = true ->
  size (unobserved h) <= fuel ->
  exists h', defineReactive fuel r k val custom shallow h
             = Some (h', Returned VUndefined).
Proof.
  apply (defineReactive_with_returns (observe fuel) fuel
           (observe_returns fuel) (observe_extends fuel)).
Qed.

(** [set] with a key that the target does not have, on an extensible
    object that carries an Observer and is neither a Vue instance nor root
    data. *)
Lemma set_new_key fuel h r o x k val :
  objs h !! r = Some o ->
  ob o = Some x -> vmCount x = 0 -> isVue o = false ->
  markers_hidden o = true -> extensible o = true ->
  key_in k o = false -> special_key k = false ->
  (o_kind o <> KArray \/ forall n, k <> KIndex n) ->
  size (unobserved h) <= fuel ->
  exists hd,
    defineReactive fuel r k (Some val) false false h
    = Some (hd, Returned VUndefined) /\
    set fuel (VRef r) k val h
    = Some (emit (ENotify (ob_dep x)) hd, Returned val).
Proof.
  intros Hr Hx Hvm Hvue Hm He Hk Hsp Harr Hn.
  rewrite (set_is_set_key fuel h r o k val Hr Harr).
  unfold set_key. rewrite Hm, Hk, Hvue, Hx, Hvm, Hsp. simpl.
  destruct (defineReactive_returns fuel r k (Some val) false false o h
              Hr He Hn) as [hd Hd].
  exists hd. rewrite Hd. auto.
Qed.

(** X16.  [set(target, key, val)] with a key that the target does not
    have and that is not a special key, on an extensible object that
    carries an Observer and is neither a Vue instance nor root data: with
    fuel for the objects that carry no Observer yet, [set] returns [val];
    the key has become a reactive property that reads [val], with a Dep
    of its own; [val] is observed; the other properties are untouched; the
    Dep of the target's Observer is notified, once, and nothing else is
    reported. *)
Theorem set_adds_reactive_property fuel h r o x k val :
  objs h !! r = Some o ->
  ob o = Some x -> vmCount x = 0 -> isVue o = false ->
  markers_hidden o = true -> extensible o = true ->
  key_in k o = false -> special_key k = false ->
  (o_kind o <> KArray \/ forall n, k <> KIndex n) ->
  size (unobserved h) <= fuel ->
  exists h',
    set fuel (VRef r) k val h = Some (h', Returned val) /\
    new_events h h' = [ENotify (ob_dep x)] /\
    reactive_at h h' r k val /\
    (exists rc, tracked_prop h' r k = Some rc /\ r_dep rc = dep_uid h) /\
    (forall k', k' <> k -> get_prop h' r k' = get_prop h r k').
Proof.
  intros Hr Hx Hvm Hvue Hm He Hk Hsp Harr Hn.
  destruct (set_new_key fuel h r o x k val Hr Hx Hvm Hvue Hm He Hk Hsp
              Harr Hn) as (hd & Hd & Hs).
  destruct (key_in_false k o Hk) as (Hown & _).
  destruct (defineReactive_new fuel r k val o h hd (Returned VUndefined) Hr) as
    (V & E & Hre & Hrc & (o1 & Hr1 & Hp1));
    [rewrite Hx; eauto|exact Hown|exact He|exact Hd|].
  eexists. split; [exact Hs|]. split.
  { unfold new_events. simpl. rewrite V, drop_app_length. reflexivity. }
  split.
  { destruct Hre as (rc & Ht & Hread & Hdeep). exists rc. auto. }
  split.
  { destruct Hrc as (rc & Ht & Hdep & _). exists rc. auto. }
  intros k' Hne. unfold get_prop. simpl. rewrite Hr1, Hr. simpl.
  rewrite Hp1, lookup_define_prop_ne by exact Hne. reflexivity.
Qed.

Lemma set_adds_reactive_property_witness :
  exists h',
    set 2 (VRef 2) (KName "fresh") (VRef 5) sample_observed
    = Some (h', Returned (VRef 5)) /\
    new_events sample_observed h' = [ENotify 3] /\
    reactive_at sample_observed h' 2 (KName "fresh") (VRef 5) /\
    (exists rc, tracked_prop h' 2 (KName "fresh") = Some rc /\
                r_dep rc = dep_uid sample_observed) /\
    (forall k', k' <> KName "fresh" ->
                get_prop h' 2 k' = get_prop sample_observed 2 k').
Proof.
  assert (Hr : objs sample_observed !! 2
               = Some (default sample_root (objs sample_observed !! 2)))
    by (vm_compute; reflexivity).
  assert (Hx : ob (default sample_root (objs sample_observed !! 2))
               = Some (mkOb 3 0)) by (vm_compute; reflexivity).
  assert (Hm : markers_hidden (default sample_root (objs sample_observed !! 2))
               = true) by (vm_compute; reflexivity).
  assert (He : extensible (default sample_root (objs sample_observed !! 2))
               = true) by (vm_compute; reflexivity).
  assert (Hk : key_in (KName "fresh")
                 (default sample_root (objs sample_observed !! 2)) = false)
    by (vm_compute; reflexivity).
  assert (Hn : size (unobserved sample_observed) <= 2)
    by (vm_compute; lia).
  apply (set_adds_reactive_property 2 sample_observed 2
           (default sample_root (objs sample_observed !! 2)) (mkOb 3 0)
           (KName "fresh") (VRef 5) Hr Hx eq_refl eq_refl Hm He Hk eq_refl).
  - left. vm_compute. discriminate.
  - exact Hn.
Defined.

(** Object 2 of the observed sample, frozen after it was observed. *)
Definition sample_frozen : Heap :=
  match objs sample_observed !! 2 with
  | Some o =>
      put 2 (mkObj (o_kind o) (props o) (elems o) (ob o) false (isVue o)
               (inherited o)) sample_observed
  | None => sample_observed
  end.

(** On an object that carries an Observer and is no longer extensible,
    [set] with a new key throws in [Object.defineProperty], after the new
    Dep was created: the key is not added and nothing is notified. *)
Example set_on_frozen_observed_throws :
  exists h',
    set 2 (VRef 2) (KName "fresh") VNull sample_frozen = Some (h', Thrown) /\
    new_events sample_frozen h' = [ETypeError] /\
    dep_uid h' = S (dep_uid sample_frozen) /\
    get_prop h' 2 (KName "fresh") = None.
Proof. eexists. vm_compute. auto. Qed.

(** *** set on an array index *)






(** *** del *)

(** The two warnings of [del]. *)
Inductive del_warning :=
| WDelOnPrimitive      (* Cannot delete reactive property on undefined, ... *)
| WAvoidDeleting.      (* Avoid deleting properties on a Vue instance ... *)

(** [delete target[key]] among the own properties. *)
Fixpoint delete_prop (k : key) (ps : list (key * descriptor))
  : list (key * descriptor) :=
  match ps with
  | [] => []
  | (k', d) :: r => if decide (k' = k) then r else (k', d) :: delete_prop k r
  end.

(** [hasOwn(str, key)] for a primitive string: its indices and [length]. *)
Definition string_has_own (s : string) (k : key) : bool :=
  match k with
  | KIndex n => n <? String.length s
  | KName name => bool_decide (name = "length"%string)
  end.

(** [ob.dep.notify()] when the target carries an Observer. *)
Definition notify_observer (o : Obj) (h : Heap) : Heap :=
  match ob o with
  | Some x => emit (ENotify (ob_dep x)) h
  | None => h
  end.

(** [del], after the array branch: a Vue instance or root data is refused
    with a warning; a key that is not an own property is ignored;
    otherwise the property is deleted and the Observer's dep, if there is
    one, is notified.  A deletion that strict mode refuses (a property
    that is not configurable, the [length] of an array) throws.  [None]:
    the deletion of the [__ob__] marker itself, which [def] of
    util/lang.js defines, is not determined by the sources. *)
Definition del_key (r : nat) (o : Obj) (k : key) (h : Heap)
  : option (Heap * list del_warning * completion) :=
  if isVue o || match ob o with
                | Some x => 0 <? vmCount x
                | None => false
                end then
    Some (h, if production h then [] else [WAvoidDeleting],
          Returned VUndefined)
  else if bool_decide (k = KName "__ob__") && bool_decide (is_Some (ob o))
  then None
  else
    match lookup_prop k (props o) with
    | Some p =>
        if is_configurable p then
          Some (notify_observer o
                  (put r (with_props (delete_prop k (props o)) o) h),
                [], Returned VUndefined)
        else Some (emit ETypeError h, [], Thrown)
    | None =>
        if bool_decide (o_kind o = KArray) && bool_decide (k = KName "length")
        then Some (emit ETypeError h, [], Thrown)
        else Some (h, [], Returned VUndefined)
    end.

(** [del (target, key)].  The result carries the warnings of a development
    build.  On [undefined] and [null] reading [__ob__] throws; a boolean
    or a number has no own property; an index or the [length] of a
    primitive string cannot be deleted.  [None]: a reference to no
    object.

    Modelled from the spec: observer/array.js is not among the sources.
    On an observed array, [splice] is one of the "mutating methods" that
    "must trigger the shape ObservableCell's notification exactly once per
    call". *)
Definition del (target : value) (k : key) (h : Heap)
  : option (Heap * list del_warning * completion) :=
  let warned := if production h then [] else [WDelOnPrimitive] in
  match target with
  | VUndefined | VNull => Some (h, warned, Thrown)
  | VBool _ | VNum _ => Some (h, warned, Returned VUndefined)
  | VStr s =>
      if string_has_own s k then Some (emit ETypeError h, warned, Thrown)
      else Some (h, warned, Returned VUndefined)
  | VRef r =>
      match objs h !! r with
      | None => None
      | Some o =>
          match k, bool_decide (o_kind o = KArray) with
          | KIndex n, true =>
              Some (notify_observer o
                      (put r (with_elems (delete n (elems o)) o) h),
                    [], Returned VUndefined)
          | _, _ => del_key r o k h
          end
      end
  end.

Lemma lookup_delete_prop k ps :
  NoDup ps.*1 -> lookup_prop k (delete_prop k ps) = None.
Proof.
  induction ps as [|[k0 d0] ps IH]; simpl; [reflexivity|].
  intros Hnd. apply NoDup_cons in Hnd as [Hk0 Hnd].
  destruct (decide (k0 = k)) as [->|Hne]; simpl.
  - destruct (lookup_prop k ps) eqn:E; [|reflexivity].
    exfalso. apply Hk0, lookup_prop_is_Some. eauto.
  - destruct (decide (k0 = k)); [congruence|]. apply IH, Hnd.
Qed.

Lemma lookup_delete_prop_ne k k' ps :
  k' <> k -> lookup_prop k' (delete_prop k ps) = lookup_prop k' ps.
Proof.
  intros Hne. induction ps as [|[k0 d0] ps IH]; simpl; [reflexivity|].
  destruct (decide (k0 = k)) as [->|Hk]; simpl.
  - destruct (decide (k = k')); [congruence|reflexivity].
  - destruct (decide (k0 = k')); [reflexivity|exact IH].
Qed.

Lemma delete_define_prop k d ps :
  lookup_prop k ps = None -> delete_prop k (define_prop k d ps) = ps.
Proof.
  induction ps as [|[k0 d0] ps IH]; simpl.
  - intros _. destruct (decide (k = k)); [reflexivity|congruence].
  - destruct (decide (k0 = k)) as [->|Hne]; [discriminate|]. simpl.
    destruct (decide (k0 = k)); [congruence|]. intros H. rewrite IH by exact H.
    reflexivity.
Qed.

(** The case of [del] for a key other than an array index and other than
    the marker. *)
Definition plain_key (o : Obj) (k : key) : Prop :=
  (o_kind o <> KArray \/ forall n, k <> KIndex n) /\ k <> KName "__ob__".

Lemma del_plain_key h r o k :
  objs h !! r = Some o -> plain_key o k ->
  del (VRef r) k h = del_key r o k h.
Proof.
  intros Hr [Harr _]. unfold del. rewrite Hr.
  destruct k as [n|s];
    [|destruct (bool_decide (o_kind o = KArray)); reflexivity].
  destruct Harr as [Ha|Ha]; [|destruct (Ha n eq_refl)].
  rewrite bool_decide_eq_false_2 by exact Ha. reflexivity.
Qed.

Lemma new_events_notify_observer o h h1 :
  events h1 = events h ->
  new_events h (notify_observer o h1)
  = match ob o with Some x => [ENotify (ob_dep x)] | None => [] end.
Proof.
  intros E. unfold new_events, notify_observer.
  destruct (ob o) as [x|]; simpl; rewrite E;
    [apply drop_app_length|apply drop_all].
Qed.

(** X18.  [del(target, key)] of an own, configurable property of an
    object that is neither a Vue instance nor root data removes the
    property and leaves the others; when the object carries an Observer
    its Dep is notified, once, and otherwise nothing is notified. *)
Theorem del_removes_and_notifies h r o k p :
  objs h !! r = Some o -> NoDup (props o).*1 ->
  isVue o = false -> (forall x, ob o = Some x -> vmCount x = 0) ->
  plain_key o k ->
  lookup_prop k (props o) = Some p -> is_configurable p = true ->
  exists h',
    del (VRef r) k h = Some (h', [], Returned VUndefined) /\
    get_prop h' r k = None /\
    (forall k', k' <> k -> get_prop h' r k' = get_prop h r k') /\
    new_events h h'
    = match ob o with Some x => [ENotify (ob_dep x)] | None => [] end.
Proof.
  intros Hr Hnd Hvue Hvm Hplain Hp Hc.
  assert (Hroot : match ob o with
                  | Some x => 0 <? vmCount x
                  | None => false
                  end = false).
  { destruct (ob o) as [x|]; [|reflexivity]. rewrite (Hvm x eq_refl).
    reflexivity. }
  rewrite (del_plain_key h r o k Hr Hplain). unfold del_key.
  rewrite Hvue, Hroot. simpl.
  rewrite (bool_decide_eq_false_2 _ (proj2 Hplain)). simpl.
  rewrite Hp, Hc.
  set (h1 := put r (with_props (delete_prop k (props o)) o) h).
  eexists. split; [reflexivity|].
  assert (Ho : objs (notify_observer o h1) = objs h1)
    by (unfold notify_observer; destruct (ob o); reflexivity).
  unfold get_prop. rewrite Ho. unfold h1, put; simpl.
  rewrite lookup_insert_eq, Hr. simpl.
  split; [rewrite lookup_delete_prop by exact Hnd; reflexivity|].
  split; [|apply new_events_notify_observer; reflexivity].
  intros k' Hne. rewrite lookup_delete_prop_ne by exact Hne. reflexivity.
Qed.

Lemma del_removes_and_notifies_witness :
  exists h',
    del (VRef 2) (KName "b") sample_observed
    = Some (h', [], Returned VUndefined) /\
    get_prop h' 2 (KName "b") = None /\
    (forall k', k' <> KName "b" ->
                get_prop h' 2 k' = get_prop sample_observed 2 k') /\
    new_events sample_observed h'
    = match ob (default sample_root (objs sample_observed !! 2)) with
      | Some x => [ENotify (ob_dep x)]
      | None => []
      end.
Proof.
  apply (del_removes_and_notifies sample_observed 2
           (default sample_root (objs sample_observed !! 2))
           (KName "b")
           (default (Data VNull true)
              (lookup_prop (KName "b")
                 (props (default sample_root
                           (objs sample_observed !! 2))))));
    try (vm_compute; reflexivity).
  - vm_compute. repeat constructor; set_solver.
  - intros x. vm_compute. intros [= <-]. reflexivity.
  - split; [left; vm_compute; discriminate|discriminate].
Defined.

(** X19.  What [del] refuses or ignores.  On a Vue instance or on root
    data (the Observer has a positive [vmCount]) nothing is deleted, even
    when the key is an own property: the heap is left as it is and only
    the warning of a development build is given.  A key that is not an
    own property of the target is ignored without any report. *)
Theorem del_without_notification h r o k :
  objs h !! r = Some o ->
  plain_key o k ->
  (isVue o = true \/ (exists x, ob o = Some x /\ 0 < vmCount x) ->
   del (VRef r) k h
   = Some (h, if production h then [] else [WAvoidDeleting],
           Returned VUndefined)) /\
  (isVue o = false -> (forall x, ob o = Some x -> vmCount x = 0) ->
   lookup_prop k (props o) = None ->
   (o_kind o = KArray -> k <> KName "length") ->
   del (VRef r) k h = Some (h, [], Returned VUndefined)).
Proof.
  intros Hr Hplain. rewrite (del_plain_key h r o k Hr Hplain).
  unfold del_key. split.
  - intros Hroot.
    assert (Hc : isVue o || match ob o with
                            | Some x => 0 <? vmCount x
                            | None => false
                            end = true).
    { destruct Hroot as [->|(x & -> & Hx)]; [reflexivity|].
      apply orb_true_iff. right. apply Nat.ltb_lt, Hx. }
    rewrite Hc. reflexivity.
  - intros Hvue Hvm Hown Hlen.
    assert (Hroot : match ob o with
                    | Some x => 0 <? vmCount x
                    | None => false
                    end = false).
    { destruct (ob o) as [x|]; [|reflexivity]. rewrite (Hvm x eq_refl).
      reflexivity. }
    rewrite Hvue, Hroot. simpl.
    rewrite (bool_decide_eq_false_2 _ (proj2 Hplain)). simpl.
    rewrite Hown.
    destruct (bool_decide (o_kind o = KArray)) eqn:Hk; [|reflexivity].
    apply bool_decide_eq_true in Hk.
    rewrite (bool_decide_eq_false_2 _ (Hlen Hk)). reflexivity.
Qed.

Lemma del_without_notification_witness :
  del (VRef 1) (KName "count") sample_observed
  = Some (sample_observed, [WAvoidDeleting], Returned VUndefined) /\
  del (VRef 4) (KName "missing") sample_observed
  = Some (sample_observed, [], Returned VUndefined).
Proof.
  split.
  - destruct (del_without_notification sample_observed 1
                (default sample_root (objs sample_observed !! 1))
                (KName "count")) as [H _].
    + vm_compute. reflexivity.
    + split; [left; vm_compute; discriminate|discriminate].
    + apply H. right. eexists. split; [vm_compute; reflexivity|].
      vm_compute. lia.
  - destruct (del_without_notification sample_observed 4
                (default sample_root (objs sample_observed !! 4))
                (KName "missing")) as [_ H].
    + vm_compute. reflexivity.
    + split; [left; vm_compute; discriminate|discriminate].
    + apply H; try (vm_compute; reflexivity).
      * intros x. vm_compute. discriminate.
      * discriminate.
Defined.

(** *** observe(value) leaves the Observers that exist as they are *)

(** [keeps_ob h h']: an object that carries an Observer in [h] carries the
    same one in [h'], [vmCount] included. *)
Definition keeps_ob (h h' : Heap) : Prop :=
  forall r o, objs h !! r = Some o -> is_Some (ob o) ->
    exists o', objs h' !! r = Some o' /\ ob o' = ob o.

Lemma keeps_ob_refl h : keeps_ob h h.
Proof. intros r o Hr _. eauto. Qed.

Lemma keeps_ob_trans h1 h2 h3 : keeps_ob h1 h2 -> keeps_ob h2 h3 -> keeps_ob h1 h3.
Proof.
  intros H1 H2 r o Hr Ho. destruct (H1 r o Hr Ho) as (o2 & Hr2 & Ho2).
  destruct (H2 r o2 Hr2) as (o3 & Hr3 & Ho3); [rewrite Ho2; exact Ho|].
  exists o3. split; [exact Hr3|congruence].
Qed.

Lemma keeps_ob_put r o o' h :
  objs h !! r = Some o -> (is_Some (ob o) -> ob o' = ob o) ->
  keeps_ob h (put r o' h).
Proof.
  intros Hr Hob r0 o0 Hr0 Ho0. unfold put; simpl. rewrite lookup_insert.
  destruct (decide (r = r0)) as [<-|Hne]; [|eauto].
  rewrite Hr in Hr0. injection Hr0 as <-. eauto.
Qed.

Section KeepsOb.
Variable observe_rec : value -> bool -> Heap -> option (Heap * option nat).
Hypothesis observe_rec_keeps_ob :
  forall v h h1 res, observe_rec v false h = Some (h1, res) -> keeps_ob h h1.

Lemma defineReactive_with_keeps_ob r k val custom shallow h h' c :
  defineReactive_with observe_rec r k val custom shallow h = Some (h', c) ->
  keeps_ob h h'.
Proof.
  unfold defineReactive_with. simpl.
  set (h1 := mkHeap _ _ _ _ _ _).
  assert (H1 : keeps_ob h h1) by (intros r0 o0 Hr0 _; eauto).
  destruct (objs h !! r) as [o|] eqn:Hr;
    [|intros [= E _]; rewrite <- E; exact H1].
  destruct (match lookup_prop k (props o) with
            | Some p => negb (is_configurable p)
            | None => false
            end); [intros [= E _]; rewrite <- E; exact H1|].
  destruct (negb (extensible o) && _); [discriminate|].
  set (v := match val with Some _ => _ | None => _ end).
  destruct shallow.
  - simpl. rewrite Hr.
    destruct (negb (extensible o) && _); intros [= E _]; rewrite <- E.
    + exact H1.
    + eapply keeps_ob_trans; [exact H1|]. apply (keeps_ob_put r o); auto.
  - destruct (observe_rec v false h1) as [[h2 c2]|] eqn:Ho; [|discriminate].
    simpl. pose proof (observe_rec_keeps_ob _ _ _ _ Ho) as H2.
    destruct (objs h2 !! r) as [o2|] eqn:Hr2;
      [destruct (negb (extensible o2) && _)|]; intros [= E _]; rewrite <- E.
    + eapply keeps_ob_trans; [exact H1|exact H2].
    + eapply keeps_ob_trans; [exact H1|].
      eapply keeps_ob_trans; [exact H2|]. apply (keeps_ob_put r o2); auto.
    + eapply keeps_ob_trans; [exact H1|exact H2].
Qed.

Lemma walk_with_keeps_ob r keys : forall h h',
  walk_with observe_rec r keys h = Some h' -> keeps_ob h h'.
Proof.
  induction keys as [|k keys IH]; intros h h'; simpl.
  - intros [= <-]. apply keeps_ob_refl.
  - destruct (defineReactive_with observe_rec r k None false false h)
      as [[h1 [u|]]|] eqn:Hd; try discriminate. simpl. intros Hw.
    eapply keeps_ob_trans; [eapply defineReactive_with_keeps_ob, Hd|].
    apply IH, Hw.
Qed.

Lemma observeArray_with_keeps_ob items : forall h h',
  observeArray_with observe_rec items h = Some h' -> keeps_ob h h'.
Proof.
  induction items as [|v items IH]; intros h h'; simpl.
  - intros [= <-]. apply keeps_ob_refl.
  - destruct (observe_rec v false h) as [[h1 c]|] eqn:Ho; [|discriminate].
    simpl. intros Hw.
    eapply keeps_ob_trans; [eapply observe_rec_keeps_ob, Ho|]. apply IH, Hw.
Qed.

Lemma new_Observer_with_keeps_ob r o h h' :
  objs h !! r = Some o -> ob o = None ->
  new_Observer_with observe_rec r h = Some h' -> keeps_ob h h'.
Proof.
  intros Hr Hob. unfold new_Observer_with. simpl.
  set (h1 := mkHeap _ _ _ _ _ _).
  change (objs h1 !! r) with (objs h !! r). rewrite Hr.
  set (h2 := put r _ h1). intros Hrest.
  assert (H2 : keeps_ob h h2).
  { eapply (keeps_ob_trans h h1); [intros r0 o0 Hr0 _; eauto|].
    apply (keeps_ob_put r o); [exact Hr|]. rewrite Hob. intros [x Hx].
    discriminate. }
  eapply keeps_ob_trans; [exact H2|].
  destruct (bool_decide (o_kind o = KArray)).
  - eapply observeArray_with_keeps_ob, Hrest.
  - eapply walk_with_keeps_ob, Hrest.
Qed.
End KeepsOb.

Lemma observe_keeps_ob fuel : forall v h h1 res,
  observe fuel v false h = Some (h1, res) -> keeps_ob h h1.
Proof.
  induction fuel as [|fuel IH]; intros v h h1 res; simpl;
    destruct (object_of h v) as [[r o]|] eqn:Hv;
    try (intros [= <- <-]; apply keeps_ob_refl);
    (destruct (bool_decide (o_kind o = KVNode));
     [intros [= <- <-]; apply keeps_ob_refl|]);
    destruct (ob o) as [x|] eqn:Hob; simpl;
    try (intros [= <- <-]; apply keeps_ob_refl).
  - destruct (observable h o); [discriminate|]. simpl.
    intros [= <- <-]. apply keeps_ob_refl.
  - destruct (observable h o); simpl.
    + destruct (new_Observer_with (observe fuel) r h) as [h'|] eqn:Hn;
        [|discriminate]. simpl. intros [= <- <-].
      apply object_of_Some in Hv as [_ Hr].
      apply (new_Observer_with_keeps_ob (observe fuel) IH r o h h' Hr Hob Hn).
    + intros [= <- <-]. apply keeps_ob_refl.
Qed.

(** X20.  [set] and [del] are inverse on a new key.  On an extensible
    object that carries an Observer and is neither a Vue instance nor root
    data, with fuel for the objects that carry no Observer yet, adding a
    key that is not a special key with [set] returns, and deleting it with
    [del] then leaves the object with the own properties it had, in the
    same order, and with the same Observer; the Dep of that Observer has
    been notified twice, once by each call. *)
Theorem set_then_del_restores fuel h r o x k val :
  objs h !! r = Some o ->
  ob o = Some x -> vmCount x = 0 -> isVue o = false ->
  markers_hidden o = true -> extensible o = true ->
  key_in k o = false -> special_key k = false -> plain_key o k ->
  size (unobserved h) <= fuel ->
  exists h1 h2,
    set fuel (VRef r) k val h = Some (h1, Returned val) /\
    del (VRef r) k h1 = Some (h2, [], Returned VUndefined) /\
    (exists o2, objs h2 !! r = Some o2 /\ props o2 = props o /\
                ob o2 = Some x) /\
    new_events h h2 = [ENotify (ob_dep x); ENotify (ob_dep x)].
Proof.
  intros Hr Hx Hvm Hvue Hm He Hk Hsp Hplain Hn.
  destruct (set_new_key fuel h r o x k val Hr Hx Hvm Hvue Hm He Hk Hsp
              (proj1 Hplain) Hn) as (hd & Hd & Hs).
  destruct (key_in_false k o Hk) as (Hown & _).
  destruct (defineReactive_new fuel r k val o h hd (Returned VUndefined) Hr)
    as (V & E & _ & (rc & Ht & _) & (o1 & Hr1 & Hp1));
    [rewrite Hx; eauto|exact Hown|exact He|exact Hd|].
  rewrite Ht in Hp1. simpl in Hp1.
  assert (Hob1 : ob o1 = Some x).
  { pose proof (defineReactive_with_keeps_ob (observe fuel)
                  (observe_keeps_ob fuel) _ _ _ _ _ _ _ _ Hd r o Hr) as Hkeep.
    destruct Hkeep as (o1' & Hr1' & Ho1'); [rewrite Hx; eauto|].
    rewrite Hr1 in Hr1'. injection Hr1' as <-. congruence. }
  assert (Hshape : o_kind o1 = o_kind o /\ isVue o1 = isVue o).
  { destruct E as (_ & _ & _ & E). destruct (E r o Hr) as (o1' & Hr1' & K & _ & V1 & _).
    rewrite Hr1 in Hr1'. injection Hr1' as <-. auto. }
  destruct Hshape as [Hk1 Hv1].
  set (h1 := emit (ENotify (ob_dep x)) hd) in *.
  assert (Hr1e : objs h1 !! r = Some o1) by exact Hr1.
  assert (Hplain1 : plain_key o1 k).
  { destruct Hplain as [Harr Hmk]. split; [|exact Hmk]. rewrite Hk1. exact Harr. }
  exists h1. rewrite (del_plain_key h1 r o1 k Hr1e Hplain1). unfold del_key.
  rewrite Hv1, Hvue, Hob1, Hvm. simpl.
  rewrite (bool_decide_eq_false_2 _ (proj2 Hplain)). simpl.
  rewrite Hp1, lookup_define_prop. simpl.
  eexists. split; [exact Hs|]. split; [reflexivity|]. split.
  - unfold notify_observer. rewrite Hob1. simpl.
    eexists. split; [apply lookup_insert_eq|]. simpl.
    split; [apply delete_define_prop, Hown|exact Hob1].
  - unfold new_events, notify_observer. rewrite Hob1. simpl.
    rewrite V, <- app_assoc, drop_app_length. reflexivity.
Qed.

Lemma set_then_del_restores_witness :
  exists h1 h2,
    set 2 (VRef 2) (KName "fresh") (VRef 5) sample_observed
    = Some (h1, Returned (VRef 5)) /\
    del (VRef 2) (KName "fresh") h1 = Some (h2, [], Returned VUndefined) /\
    (exists o2, objs h2 !! 2 = Some o2 /\
                props o2
                = props (default sample_root (objs sample_observed !! 2)) /\
                ob o2 = Some (mkOb 3 0)) /\
    new_events sample_observed h2 = [ENotify 3; ENotify 3].
Proof.
  assert (Hr : objs sample_observed !! 2
               = Some (default sample_root (objs sample_observed !! 2)))
    by (vm_compute; reflexivity).
  assert (Hx : ob (default sample_root (objs sample_observed !! 2))
               = Some (mkOb 3 0)) by (vm_compute; reflexivity).
  assert (Hm : markers_hidden (default sample_root (objs sample_observed !! 2))
               = true) by (vm_compute; reflexivity).
  assert (He : extensible (default sample_root (objs sample_observed !! 2))
               = true) by (vm_compute; reflexivity).
  assert (Hk : key_in (KName "fresh")
                 (default sample_root (objs sample_observed !! 2)) = false)
    by (vm_compute; reflexivity).
  assert (Hn : size (unobserved sample_observed) <= 2)
    by (vm_compute; lia).
  apply (set_then_del_restores 2 sample_observed 2
           (default sample_root (objs sample_observed !! 2)) (mkOb 3 0)
           (KName "fresh") (VRef 5) Hr Hx eq_refl eq_refl Hm He Hk eq_refl).
  - split; [left; vm_compute; discriminate|discriminate].
  - exact Hn.
Defined.

(** *** The reactive setter returns, and what a write stores *)

(** With enough fuel the reactive setter returns. *)
Lemma reactiveSetter_store_returns fuel r k rc newVal h :
  size (unobserved h) <= fuel ->
  is_Some (reactiveSetter_store fuel r k rc newVal h).
Proof.
  intros Hn. unfold reactiveSetter_store.
  destruct (unchanged newVal _); [eauto|].
  set (h1 := if negb (production h) && r_custom rc then _ else h).
  set (h2 := put_tracked r k _ h1).
  destruct (r_shallow rc); simpl; [eauto|].
  assert (Hn2 : size (unobserved h2) <= fuel).
  { apply (unobserved_size_le h h2); [| |exact Hn].
    - eapply extends_trans; [|apply extends_put_tracked].
      subst h1. destruct (negb (production h) && r_custom rc);
        [apply extends_emit|apply extends_refl].
    - eapply no_new_trans; [|apply no_new_put_tracked].
      subst h1. destruct (negb (production h) && r_custom rc);
        exact (no_new_refl h). }
  destruct (observe_returns fuel newVal false h2 Hn2) as [[h3 c] Ho].
  rewrite Ho. simpl. eauto.
Qed.






End Observer.

(* ===================================================================== *)
(** ** Rendering: Vue.prototype._render *)
(* ===================================================================== *)

Module Render.
Import JS.

(** Modelled from the spec: vdom/vnode.js is not among the sources.  A
    TreeDescription has a "tag identity (primitive element tag, component
    identity, text, comment, or empty placeholder)", children, and a
    parent link that [_render] sets. *)
Inductive VNode :=
| Node (tag : option string) (text : string) (isComment : bool)
       (children : list VNode) (parent : option VNode).

(** Modelled from the spec: [createEmptyVNode] of vdom/vnode.js is not
    among the sources; it gives the "empty placeholder": a comment node
    without tag, text or children. *)
Definition createEmptyVNode : VNode := Node None EmptyString true [] None.

(** [vnode.parent = _parentVnode] *)
Definition set_parent (p : option VNode) (v : VNode) : VNode :=
  match v with
  | Node tag text c ch _ => Node tag text c ch p
  end.

(** What a render function can hand back, as [_render] tells it apart:
    a VNode ([instanceof VNode]), an array ([Array.isArray]), or anything
    else. *)
Inductive rendered :=
| RVNode (v : VNode)
| RArray (l : list VNode)
| ROther (v : JS.value).

(** How a call of user code ended. *)
Inductive call := Returns (r : rendered) | Throws.

Inductive diagnostic :=
| HandleError (info : string)      (* handleError(e, vm, info) *)
| WarnMultipleRoots.               (* Multiple root nodes returned ... *)

(** [vm._vnode]: the tree of the previous render, [null] before the
    first one. *)
Definition previous (prev : option VNode) : rendered :=
  match prev with
  | Some v => RVNode v
  | None => ROther VNull
  end.

(** [Vue.prototype._render].  [render] is how the render function ended,
    [renderError] how [vm.$options.renderError] would end if there is
    one. *)
Definition _render (production : bool) (render : call)
    (renderError : option call) (prev : option VNode)
    (_parentVnode : option VNode) : VNode * list diagnostic :=
  let '(vnode, d) :=
    match render with
    | Returns r => (r, [])
    | Throws =>
        if production then (previous prev, [HandleError "render"])
        else
          match renderError with
          | Some (Returns r) => (r, [HandleError "render"])
          | Some Throws =>
              (previous prev,
               [HandleError "render"; HandleError "renderError"])
          | None => (previous prev, [HandleError "render"])
          end
    end in
  match vnode with
  | RVNode v => (set_parent _parentVnode v, d)
  | RArray _ =>
      (set_parent _parentVnode createEmptyVNode,
       if production then d else d ++ [WarnMultipleRoots])
  | ROther _ => (set_parent _parentVnode createEmptyVNode, d)
  end.

Definition well_formed (r : rendered) : bool :=
  match r with RVNode _ => true | _ => false end.

Definition is_array (r : rendered) : bool :=
  match r with RArray _ => true | _ => false end.

(** C6, as amended.  When the render function returns something that is
    not a VNode, the result of that render is the empty placeholder node
    (with its parent set), whatever was rendered before; a diagnostic is
    reported only for an array and only in a development build.  The
    previously rendered tree is the result when the render function
    throws and no [renderError] handler supplies another one. *)
Theorem malformed_render_gives_empty_vnode
    production renderError prev _parentVnode r :
  well_formed r = false ->
  _render production (Returns r) renderError prev _parentVnode
  = (set_parent _parentVnode createEmptyVNode,
     if negb production && is_array r then [WarnMultipleRoots] else []) /\
  (forall t, prev = Some t ->
     fst (_render production Throws None prev _parentVnode)
     = set_parent _parentVnode t).
Proof.
  intros Hr. split.
  - destruct r as [v|l|v]; [discriminate| |]; simpl;
      destruct production; reflexivity.
  - intros t ->. simpl. destruct production; reflexivity.
Qed.

(** A tree rendered before: [<div>hello</div>]. *)
Definition sample_tree : VNode :=
  Node (Some "div") EmptyString false [Node None "hello" false [] None] None.

Lemma malformed_render_gives_empty_vnode_witness :
  _render false (Returns (RArray [sample_tree; sample_tree])) None
          (Some sample_tree) None
  = (set_parent None createEmptyVNode, [WarnMultipleRoots]) /\
  (forall t, Some sample_tree = Some t ->
     fst (_render false Throws None (Some sample_tree) None)
     = set_parent None t).
Proof.
  apply (malformed_render_gives_empty_vnode false None (Some sample_tree)
           None (RArray [sample_tree; sample_tree])).
  reflexivity.
Defined.

(** C6 as stated fails: with [sample_tree] rendered before, a render
    function that returns two roots gives the empty placeholder, not the
    previous tree; one that returns [undefined] gives the same and
    reports nothing at all. *)
Lemma malformed_render_counterexample :
  let r1 := _render false (Returns (RArray [sample_tree; sample_tree]))
              None (Some sample_tree) None in
  let r2 := _render false (Returns (ROther VUndefined))
              None (Some sample_tree) None in
  fst r1 = createEmptyVNode /\ fst r1 <> sample_tree /\
  fst r2 = createEmptyVNode /\ snd r2 = [].
Proof.
  simpl. repeat split; try reflexivity. discriminate.
Qed.

(** *** When the render function throws *)

Definition parent_of (v : VNode) : option VNode :=
  match v with Node _ _ _ _ p => p end.

(** What [_render] makes of a value that is to be the result. *)
Definition as_vnode (r : rendered) : VNode :=
  match r with
  | RVNode v => v
  | RArray _ | ROther _ => createEmptyVNode
  end.

(** X21.  [_render] always hands back a node whose parent is
    [_parentVnode].  When the render function throws, [handleError] is
    called with [render] first; a production build never consults
    [renderError] and falls back to the previous tree; a development build
    takes what [renderError] returns, the empty placeholder if that is not
    a VNode (not the previous tree), and falls back to the previous tree
    when [renderError] throws as well or is absent.  A fallback before the
    first render, when there is no previous tree, gives the empty
    placeholder. *)
Theorem render_error_fallback production renderError prev _parentVnode :
  (forall render,
     parent_of (fst (_render production render renderError prev _parentVnode))
     = _parentVnode) /\
  let r := _render production Throws renderError prev _parentVnode in
  head (snd r) = Some (HandleError "render") /\
  (production = true ->
   r = (set_parent _parentVnode (as_vnode (previous prev)),
        [HandleError "render"])) /\
  (production = false ->
   forall x, renderError = Some (Returns x) ->
     fst r = set_parent _parentVnode (as_vnode x) /\
     HandleError "renderError" ∉ snd r) /\
  (production = false -> renderError = Some Throws ->
   r = (set_parent _parentVnode (as_vnode (previous prev)),
        [HandleError "render"; HandleError "renderError"])) /\
  (renderError = None ->
   r = (set_parent _parentVnode (as_vnode (previous prev)),
        [HandleError "render"])) /\
  (prev = None -> as_vnode (previous prev) = createEmptyVNode).
Proof.
  split.
  { intros render. unfold _render.
    destruct (match render with Returns _ => _ | Throws => _ end)
      as [[v|l|v] d]; simpl; try reflexivity.
    destruct v; reflexivity. }
  simpl. split; [|split; [|split; [|split; [|split]]]].
  - destruct production; [destruct prev; reflexivity|].
    destruct renderError as [[[v|l|v]|]|]; try reflexivity;
      destruct prev; reflexivity.
  - intros ->. destruct prev; reflexivity.
  - intros -> x ->. destruct x as [v|l|v]; simpl;
      (split; [reflexivity|]); rewrite ?elem_of_cons, elem_of_nil;
      intros H; decompose [or] H; discriminate || assumption.
  - intros -> ->. destruct prev; reflexivity.
  - intros ->. destruct production; destruct prev; reflexivity.
  - intros ->. reflexivity.
Qed.

End Render.

(* ===================================================================== *)
(** ** Writes: Watcher.update, Dep.notify and the reactive setter *)
(* ===================================================================== *)

Module Reactivity.
Import JS.
Import Tracking (Return, Throw).

(** The three parts of the runtime that a write touches, and the watchers
    whose [update()] was called, in order. *)
Record World := mkWorld {
  trk : Tracking.State;
  sch : Scheduler.Sched;
  hp : Observer.Heap;
  updates : list nat
}.

(** What user code does when it is called: for a watcher and the state it
    is run in, what its getter does and whether its callback throws. *)
Definition Behaviour : Type := nat -> World -> Tracking.Getter * bool.

(** [this.dirty = true] *)
Definition mark_dirty (w : nat) (t : Tracking.State) : Tracking.State :=
  Tracking.set_watcher w
    (Tracking.with_dirty true (Tracking.watcher_of t w)) t.

(** [update ()]: a lazy watcher is marked dirty, a sync one is run at once,
    any other is handed to the scheduler. *)
Definition update (beh : Behaviour) (w : nat) (s : World)
  : World * Tracking.outcome :=
  let x := Tracking.watcher_of (trk s) w in
  let ups := updates s ++ [w] in
  if Tracking.lazy x then
    (mkWorld (mark_dirty w (trk s)) (sch s) (hp s) ups, Return VUndefined)
  else if Tracking.sync x then
    let '(t, r) := Tracking.run w (fst (beh w s)) (snd (beh w s)) (trk s) in
    (mkWorld t (sch s) (hp s) ups,
     match r with Throw => Throw | Return _ => Return VUndefined end)
  else
    (mkWorld (trk s) (Scheduler.queueWatcher w (sch s)) (hp s) ups,
     Return VUndefined).

(** The [for] loop of [notify] over the copy of the subscriber list; an
    exception thrown by an [update()] leaves the loop. *)
Fixpoint notify_loop (beh : Behaviour) (subs : list nat) (s : World)
  : World * Tracking.outcome :=
  match subs with
  | [] => (s, Return VUndefined)
  | w :: rest =>
      match update beh w s with
      | (s1, Throw) => (s1, Throw)
      | (s1, Return _) => notify_loop beh rest s1
      end
  end.

(** [notify ()]: [const subs = this.subs.slice()], then the loop. *)
Definition notify (beh : Behaviour) (d : nat) (s : World)
  : World * Tracking.outcome :=
  notify_loop beh (Tracking.subs_of (trk s) d) s.

Definition with_hp (h : Observer.Heap) (s : World) : World :=
  mkWorld (trk s) (sch s) h (updates s).

(** [obj[key] = newVal] on a property that [defineReactive] defined:
    [reactiveSetter], with [dep.notify()] carried out.  [None]: the
    property is not reactive, or [fuel] was too small for [observe]. *)
Definition reactiveSetter (beh : Behaviour) (fuel : nat) (r : nat)
    (k : Observer.key) (newVal : value) (s : World)
  : option (World * Tracking.outcome) :=
  rc ← Observer.tracked_prop (hp s) r k;
  '(h1, d) ← Observer.reactiveSetter_store fuel r k rc newVal (hp s);
  match d with
  | None => Some (with_hp h1 s, Return VUndefined)
  | Some d => Some (notify beh d (with_hp h1 s))
  end.

(** *** What update and notify touch *)

Lemma mark_dirty_watcher w t :
  Tracking.watcher_of (mark_dirty w t) w
  = Tracking.with_dirty true (Tracking.watcher_of t w).
Proof.
  unfold mark_dirty. rewrite Tracking.watcher_of_set_watcher.
  destruct (decide (w = w)); [reflexivity|congruence].
Qed.


Lemma update_frame beh w s :
  updates (fst (update beh w s)) = updates s ++ [w] /\
  hp (fst (update beh w s)) = hp s.
Proof.
  unfold update. destruct (Tracking.lazy _); [auto|].
  destruct (Tracking.sync _); [|auto].
  destruct (Tracking.run _ _ _ _); auto.
Qed.

Lemma notify_loop_frame beh subs : forall s,
  hp (fst (notify_loop beh subs s)) = hp s /\
  (snd (notify_loop beh subs s) <> Throw ->
   updates (fst (notify_loop beh subs s)) = updates s ++ subs).
Proof.
  induction subs as [|w subs IH]; intros s; simpl.
  - split; [reflexivity|]. intros _. symmetry. apply app_nil_r.
  - destruct (update_frame beh w s) as [Hu Hh].
    destruct (update beh w s) as [s1 [v|]]; simpl in *.
    + destruct (IH s1) as [Hh1 Hu1]. split; [congruence|].
      intros Hn. rewrite (Hu1 Hn), Hu, <- app_assoc. reflexivity.
    + split; [exact Hh|]. congruence.
Qed.

(** [marks s s']: from [s] to [s'] only [dirty] flags were raised and
    watchers were handed to the scheduler; no getter or callback ran. *)
Definition marks (s s' : World) : Prop :=
  Tracking.log (trk s') = Tracking.log (trk s) /\
  hp s' = hp s /\
  (forall w, Tracking.lazy (Tracking.watcher_of (trk s') w)
             = Tracking.lazy (Tracking.watcher_of (trk s) w) /\
             Tracking.sync (Tracking.watcher_of (trk s') w)
             = Tracking.sync (Tracking.watcher_of (trk s) w)) /\
  (forall w, Tracking.dirty (Tracking.watcher_of (trk s) w) = true ->
             Tracking.dirty (Tracking.watcher_of (trk s') w) = true) /\
  (forall w, w ∈ Scheduler.has (sch s) -> w ∈ Scheduler.has (sch s')).

Lemma marks_refl s : marks s s.
Proof. repeat split; auto. Qed.

Lemma marks_trans s1 s2 s3 : marks s1 s2 -> marks s2 s3 -> marks s1 s3.
Proof.
  intros (L1 & H1 & F1 & D1 & Q1) (L2 & H2 & F2 & D2 & Q2).
  split; [congruence|]. split; [congruence|]. split; [|split].
  - intros w. destruct (F1 w) as [<- <-]. apply F2.
  - intros w Hd. apply D2, D1, Hd.
  - intros w Hw. apply Q2, Q1, Hw.
Qed.

Lemma queueWatcher_has w s x :
  x ∈ Scheduler.has (Scheduler.queueWatcher w s) <->
  x = w \/ x ∈ Scheduler.has s.
Proof.
  unfold Scheduler.queueWatcher.
  destruct (decide (w ∈ Scheduler.has s)) as [Hw|Hw].
  - split; [auto|]. intros [->|H]; assumption.
  - destruct (Scheduler.waiting s); simpl; set_solver.
Qed.

(** [update] of a watcher that is lazy or not sync. *)
Lemma update_marks beh w s :
  Tracking.lazy (Tracking.watcher_of (trk s) w) = true \/
  Tracking.sync (Tracking.watcher_of (trk s) w) = false ->
  let r := update beh w s in
  snd r = Return VUndefined /\ marks s (fst r) /\
  (if Tracking.lazy (Tracking.watcher_of (trk s) w)
   then Tracking.dirty (Tracking.watcher_of (trk (fst r)) w) = true
   else w ∈ Scheduler.has (sch (fst r))).
Proof.
  intros Hk. unfold update.
  destruct (Tracking.lazy (Tracking.watcher_of (trk s) w)) eqn:Hl.
  - simpl. split; [reflexivity|]. split.
    + split; [reflexivity|]. split; [reflexivity|]. split; [|split; [|auto]].
      * intros w0. cbn [trk]. unfold mark_dirty.
        rewrite Tracking.watcher_of_set_watcher.
        destruct (decide (w = w0)) as [<-|]; auto.
      * intros w0 Hd. cbn [trk]. unfold mark_dirty.
        rewrite Tracking.watcher_of_set_watcher.
        destruct (decide (w = w0)) as [<-|]; auto.
    + apply (f_equal Tracking.dirty (mark_dirty_watcher w (trk s))).
  - destruct Hk as [Hk|Hk]; [discriminate|]. rewrite Hk. simpl.
    split; [reflexivity|]. split.
    + repeat split; auto. intros w0 Hw0. apply queueWatcher_has. auto.
    + apply queueWatcher_has. auto.
Qed.

Lemma notify_loop_marks beh subs : forall s,
  (forall w, w ∈ subs ->
     Tracking.lazy (Tracking.watcher_of (trk s) w) = true \/
     Tracking.sync (Tracking.watcher_of (trk s) w) = false) ->
  let r := notify_loop beh subs s in
  snd r = Return VUndefined /\ marks s (fst r) /\
  (forall w, w ∈ subs ->
     if Tracking.lazy (Tracking.watcher_of (trk s) w)
     then Tracking.dirty (Tracking.watcher_of (trk (fst r)) w) = true
     else w ∈ Scheduler.has (sch (fst r))).
Proof.
  induction subs as [|w subs IH]; intros s Hk; simpl.
  - split; [reflexivity|]. split; [apply marks_refl|].
    intros w Hw. apply elem_of_nil in Hw. destruct Hw.
  - destruct (update_marks beh w s) as (Ho & Hm & He);
      [apply Hk, elem_of_cons; auto|].
    destruct (update beh w s) as [s1 o1]; simpl in *. subst o1.
    pose proof Hm as (_ & _ & Hf & Hd & Hq).
    destruct (IH s1) as (Ho1 & Hm1 & He1).
    { intros w0 Hw0. destruct (Hf w0) as [-> ->].
      apply Hk, elem_of_cons. auto. }
    split; [exact Ho1|]. split; [eapply marks_trans; eassumption|].
    pose proof Hm1 as (_ & _ & _ & Hd1 & Hq1).
    intros w0 Hw0. apply elem_of_cons in Hw0 as [->|Hw0].
    + destruct (Tracking.lazy (Tracking.watcher_of (trk s) w));
        [apply Hd1, He|apply Hq1, He].
    + specialize (He1 w0 Hw0). destruct (Hf w0) as [El _].
      rewrite El in He1. exact He1.
Qed.

(** *** Lazy watchers *)





Definition no_behaviour : Behaviour :=
  fun _ _ => (Tracking.reads_nothing, false).




(** *** Writing a reactive property *)


(** Watcher 1 is a sync watcher that reads [count] of the root data
    (Dep 1); watcher 2 is an ordinary watcher, watcher 3 a lazy one, both
    reading the same property. *)
Definition reads_count (v : value) : Tracking.Getter :=
  Tracking.mkGetter [Tracking.Depend 1] (Return v) [].







(** *** Reads: the reactive getter and dependArray *)

Definition with_trk (t : Tracking.State) (s : World) : World :=
  mkWorld t (sch s) (hp s) (updates s).

(** The elements of [v] when [Array.isArray(v)]. *)
Definition array_elems (h : Observer.Heap) (v : value) : option (list value) :=
  match Observer.object_of h v with
  | Some (_, o) =>
      if bool_decide (Observer.o_kind o = Observer.KArray)
      then Some (Observer.elems o) else None
  | None => None
  end.

(** [e && e.__ob__]: the dep of the Observer an element carries, if any. *)
Definition element_dep (h : Observer.Heap) (e : value) : list nat :=
  match e with
  | VRef r' =>
      match Observer.observer_of h r' with
      | Some x => [Observer.ob_dep x]
      | None => []
      end
  | _ => []
  end.

(** [dependArray (value)]: the deps whose [depend()] it calls, in order.
    [fuel] bounds the nesting of arrays that is entered; [None]: the
    arrays are nested deeper (an array that contains itself is nested
    without end). *)
Fixpoint dependArray (fuel : nat) (h : Observer.Heap) (items : list value)
  : option (list nat) :=
  mjoin <$> mapM (fun e =>
    match array_elems h e with
    | Some es =>
        match fuel with
        | 0 => None
        | S fuel' =>
            (fun ds => element_dep h e ++ ds) <$> dependArray fuel' h es
        end
    | None => Some (element_dep h e)
    end) items.

(** The [depend()] calls of [reactiveGetter] when [Dep.target] is set:
    [dep], then [childOb.dep] and [dependArray(value)] when the property has
    a [childOb].  [None] also when the object named as [childOb] carries
    no Observer. *)
Definition read_deps (fuel : nat) (h : Observer.Heap) (rc : Observer.Reactive)
  : option (list nat) :=
  match Observer.r_childOb rc with
  | None => Some [Observer.r_dep rc]
  | Some c =>
      x ← Observer.observer_of h c;
      nested ← match array_elems h
                       (Observer.read_descriptor (Observer.Tracked rc)) with
               | Some es => dependArray fuel h es
               | None => Some []
               end;
      Some (Observer.r_dep rc :: Observer.ob_dep x :: nested)
  end.

(** [obj[key]] on a property that [defineReactive] defined:
    [reactiveGetter].  [None]: the property is not reactive, or [read_deps]
    gives [None]. *)
Definition reactiveGetter (fuel : nat) (r : nat) (k : Observer.key)
    (s : World) : option (World * value) :=
  rc ← Observer.tracked_prop (hp s) r k;
  let value := Observer.read_descriptor (Observer.Tracked rc) in
  match Tracking.target (trk s) with
  | None => Some (s, value)
  | Some _ =>
      ds ← read_deps fuel (hp s) rc;
      Some (with_trk (foldl (fun t d => Tracking.depend d t) (trk s) ds) s,
            value)
  end.

(** [in_array h items e]: [e] is an element of [items], or of an array
    among them, at any depth. *)
Inductive in_array (h : Observer.Heap) : list value -> value -> Prop :=
| in_here items e : e ∈ items -> in_array h items e
| in_nested items e' es e :
    e' ∈ items -> array_elems h e' = Some es -> in_array h es e ->
    in_array h items e.

Lemma dependArray_unfold fuel h items :
  dependArray fuel h items
  = mjoin <$> mapM (fun e =>
      match array_elems h e with
      | Some es =>
          match fuel with
          | 0 => None
          | S fuel' =>
              (fun ds => element_dep h e ++ ds) <$> dependArray fuel' h es
          end
      | None => Some (element_dep h e)
      end) items.
Proof. destruct fuel; reflexivity. Qed.

(** [dependArray] reaches the Observer of every element, at any depth,
    and nothing else. *)
Lemma dependArray_spec h fuel : forall items ds,
  dependArray fuel h items = Some ds ->
  forall d, d ∈ ds <-> exists e, in_array h items e /\ d ∈ element_dep h e.
Proof.
  induction fuel as [|fuel IH]; intros items ds; rewrite dependArray_unfold;
    intros Hd d;
    (destruct (mapM _ items) as [ks|] eqn:Hm; [|discriminate]);
    simpl in Hd; injection Hd as <-; apply mapM_Some in Hm;
    rewrite list_elem_of_join; split.
  - intros (k & Hk & Hks).
    apply list_elem_of_lookup in Hks as [i Hi].
    destruct (Forall2_lookup_r _ _ _ _ _ Hm Hi) as (e & He & Hf).
    exists e. split; [apply in_here; eapply list_elem_of_lookup_2, He|].
    destruct (array_elems h e); [discriminate|]. injection Hf as <-. exact Hk.
  - intros (e & Hin & Hde). inversion Hin as [? ? He|? e' es ? He' Ha Hn]; subst.
    + apply list_elem_of_lookup in He as [i Hi].
      destruct (Forall2_lookup_l _ _ _ _ _ Hm Hi) as (k & Hk & Hf).
      exists k. split; [|eapply list_elem_of_lookup_2, Hk].
      destruct (array_elems h e); [discriminate|]. injection Hf as <-.
      exact Hde.
    + apply list_elem_of_lookup in He' as [i Hi].
      destruct (Forall2_lookup_l _ _ _ _ _ Hm Hi) as (k & Hk & Hf).
      rewrite Ha in Hf. discriminate.
  - intros (k & Hk & Hks).
    apply list_elem_of_lookup in Hks as [i Hi].
    destruct (Forall2_lookup_r _ _ _ _ _ Hm Hi) as (e & He & Hf).
    apply list_elem_of_lookup_2 in He.
    destruct (array_elems h e) as [es|] eqn:Ha.
    + destruct (dependArray fuel h es) as [ds'|] eqn:Hds; [|discriminate].
      simpl in Hf. injection Hf as <-.
      apply elem_of_app in Hk as [Hk|Hk].
      * exists e. split; [apply in_here, He|exact Hk].
      * apply (IH es ds' Hds) in Hk as (e2 & Hin2 & Hd2).
        exists e2. split; [|exact Hd2].
        eapply in_nested; eassumption.
    + injection Hf as <-. exists e. split; [apply in_here, He|exact Hk].
  - intros (e & Hin & Hde). inversion Hin as [? ? He|? e' es ? He' Ha Hn]; subst.
    + apply list_elem_of_lookup in He as [i Hi].
      destruct (Forall2_lookup_l _ _ _ _ _ Hm Hi) as (k & Hk & Hf).
      exists k. split; [|eapply list_elem_of_lookup_2, Hk].
      destruct (array_elems h e) as [es|].
      * destruct (dependArray fuel h es); [|discriminate].
        simpl in Hf. injection Hf as <-. apply elem_of_app. auto.
      * injection Hf as <-. exact Hde.
    + apply list_elem_of_lookup in He' as [i Hi].
      destruct (Forall2_lookup_l _ _ _ _ _ Hm Hi) as (k & Hk & Hf).
      exists k. split; [|eapply list_elem_of_lookup_2, Hk].
      rewrite Ha in Hf.
      destruct (dependArray fuel h es) as [ds'|] eqn:Hds; [|discriminate].
      simpl in Hf. injection Hf as <-. apply elem_of_app. right.
      apply (IH es ds' Hds). eauto.
Qed.

Lemma run_body_reads ds : forall t,
  Tracking.run_body (Tracking.Depend <$> ds) t
  = foldl (fun t d => Tracking.depend d t) t ds.
Proof. induction ds as [|d ds IH]; intros t; simpl; [reflexivity|apply IH]. Qed.

Lemma foldl_depend_others w ds : forall t,
  Tracking.target t = Some w ->
  let t' := foldl (fun t d => Tracking.depend d t) t ds in
  forall w' d, w' <> w ->
    (w' ∈ Tracking.subs_of t' d <-> w' ∈ Tracking.subs_of t d).
Proof.
  induction ds as [|d0 ds IH]; intros t Ht; simpl; [tauto|].
  intros w' d Hne.
  assert (Ht1 : Tracking.target (Tracking.depend d0 t) = Some w).
  { destruct (Tracking.exec_Depend_target d0 t) as [E _]. simpl in E.
    congruence. }
  rewrite (IH _ Ht1 w' d Hne). unfold Tracking.depend. rewrite Ht.
  unfold Tracking.addDep.
  destruct (decide _); [tauto|]. destruct (decide _).
  - rewrite Tracking.subs_of_set_watcher. tauto.
  - unfold Tracking.addSub. rewrite Tracking.subs_of_set_subs.
    rewrite Tracking.subs_of_set_watcher.
    destruct (decide (d0 = d)) as [->|]; [|tauto].
    rewrite elem_of_app, list_elem_of_singleton.
    change (Tracking.subs_of (Tracking.emit (Tracking.ETrack w d) t) d)
      with (Tracking.subs_of t d). tauto.
Qed.

Lemma read_deps_head fuel h rc ds :
  read_deps fuel h rc = Some ds ->
  exists rest, ds = Observer.r_dep rc :: rest.
Proof.
  unfold read_deps. destruct (Observer.r_childOb rc) as [c|].
  - destruct (Observer.observer_of h c) as [x|]; [|discriminate]. simpl.
    destruct (match array_elems h _ with
              | Some es => dependArray fuel h es
              | None => Some []
              end) as [nested|]; [|discriminate].
    simpl. intros [= <-]. eauto.
  - intros [= <-]. eauto.
Qed.

(** X24.  Reading a reactive property.  With no watcher being evaluated
    the read subscribes nobody and changes nothing.  While watcher [w] is
    being evaluated, the read returns the stored value (or what the
    property's own getter returns) and makes [w] a subscriber of the
    property's dep, of the dep of the Observer of the value ([childOb]),
    and, when the value is an array, of the dep of the Observer of every
    element, at any depth of nested arrays; the subscriptions of the other
    watchers, the heap and the scheduler are as before.  The calls are
    those of a getter body that reads these deps in order. *)
Theorem reactiveGetter_subscribes fuel r k rc s :
  Observer.tracked_prop (hp s) r k = Some rc ->
  Tracking.consistent (trk s) ->
  let value := Observer.read_descriptor (Observer.Tracked rc) in
  (Tracking.target (trk s) = None ->
   reactiveGetter fuel r k s = Some (s, value)) /\
  (Observer.r_childOb rc = None -> is_Some (reactiveGetter fuel r k s)) /\
  forall w s' v,
    Tracking.target (trk s) = Some w ->
    reactiveGetter fuel r k s = Some (s', v) ->
    v = value /\
    hp s' = hp s /\ sch s' = sch s /\ updates s' = updates s /\
    Tracking.consistent (trk s') /\
    Tracking.target (trk s') = Some w /\
    Tracking.targetStack (trk s') = Tracking.targetStack (trk s) /\
    (exists rest,
       trk s' = Tracking.run_body
                  (Tracking.Depend <$> (Observer.r_dep rc :: rest)) (trk s)) /\
    w ∈ Tracking.subs_of (trk s') (Observer.r_dep rc) /\
    (forall c x,
       Observer.r_childOb rc = Some c ->
       Observer.observer_of (hp s) c = Some x ->
       w ∈ Tracking.subs_of (trk s') (Observer.ob_dep x) /\
       forall es e d,
         array_elems (hp s) value = Some es ->
         in_array (hp s) es e -> d ∈ element_dep (hp s) e ->
         w ∈ Tracking.subs_of (trk s') d) /\
    (forall w' d, w' <> w ->
       (w' ∈ Tracking.subs_of (trk s') d <-> w' ∈ Tracking.subs_of (trk s) d)).
Proof.
  intros Ht Hc value. unfold reactiveGetter. rewrite Ht. simpl.
  fold value. split; [intros ->; reflexivity|]. split.
  { intros Hch. destruct (Tracking.target (trk s)); [|eauto].
    unfold read_deps. rewrite Hch. simpl. eauto. }
  intros w s' v Hw. rewrite Hw.
  destruct (read_deps fuel (hp s) rc) as [ds|] eqn:Hds; [|discriminate].
  simpl. intros [= <- <-].
  set (t' := foldl (fun t d => Tracking.depend d t) (trk s) ds).
  cbn [trk hp sch updates with_trk].
  assert (Hc' : Tracking.consistent t') by (apply Tracking.consistent_foldl_depend, Hc).
  destruct (Tracking.foldl_depend_target ds (trk s)) as [Htg Hst].
  destruct (Tracking.foldl_depend_subscribes w ds (trk s) Hw) as [Hsub _].
  fold t' in Htg, Hst, Hsub.
  assert (Hin : forall d, d ∈ ds -> w ∈ Tracking.subs_of t' d).
  { intros d Hd. destruct Hc' as (_ & H2 & _). apply H2. right.
    apply Hsub. auto. }
  destruct (read_deps_head _ _ _ _ Hds) as [rest Hrest].
  split; [reflexivity|]. do 3 (split; [reflexivity|]).
  split; [exact Hc'|]. split; [congruence|]. split; [exact Hst|]. split.
  { exists rest. rewrite run_body_reads. unfold t'. rewrite Hrest.
    reflexivity. }
  split; [apply Hin; rewrite Hrest; apply elem_of_cons; auto|]. split.
  - intros c x Hch Hx. unfold read_deps in Hds. rewrite Hch, Hx in Hds.
    cbn [mbind option_bind] in Hds. fold value in Hds.
    destruct (array_elems (hp s) value) as [es|] eqn:Ha.
    + destruct (dependArray fuel (hp s) es) as [nested|] eqn:Hn;
        [|discriminate].
      simpl in Hds. injection Hds as <-. split.
      * apply Hin. rewrite !elem_of_cons. auto.
      * intros es' e d [= <-] He Hd. apply Hin. rewrite !elem_of_cons.
        right. right. apply (dependArray_spec _ _ _ _ Hn). eauto.
    + simpl in Hds. injection Hds as <-. split.
      * apply Hin. rewrite !elem_of_cons. auto.
      * intros es e d [=].
  - apply (foldl_depend_others w ds (trk s) Hw).
Qed.

(** Watcher 7 is being evaluated over the observed sample heap and reads
    [list] of the root data, an array whose first element is object 2. *)
Definition reading_world : World :=
  mkWorld (Tracking.pushTarget (Some 7) Tracking.empty_state)
          Scheduler.idle Observer.sample_observed [].

Lemma reactiveGetter_subscribes_witness :
  exists s',
    reactiveGetter 0 1 (Observer.KName "list") reading_world
    = Some (s', VRef 3) /\
    hp s' = hp reading_world /\
    7 ∈ Tracking.subs_of (trk s') 5 /\
    7 ∈ Tracking.subs_of (trk s') 6 /\
    7 ∈ Tracking.subs_of (trk s') 3.
Proof.
  destruct (reactiveGetter 0 1 (Observer.KName "list") reading_world)
    as [[s' v]|] eqn:E; [|vm_compute in E; discriminate].
  destruct (reactiveGetter_subscribes 0 1 (Observer.KName "list")
              (Observer.mkReactive 5 (VRef 3) (Some 3) false false None false)
              reading_world) as (_ & _ & H).
  - vm_compute. reflexivity.
  - eapply Tracking.consistent_same;
      [apply Tracking.same_tracking_pushTarget|apply Tracking.consistent_empty].
  - destruct (H 7 s' v eq_refl E)
      as (-> & Hh & _ & _ & _ & _ & _ & _ & H5 & Hch & _).
    destruct (Hch 3 (Observer.mkOb 6 0) eq_refl) as [H6 He];
      [vm_compute; reflexivity|].
    exists s'. split; [reflexivity|]. split; [exact Hh|].
    split; [exact H5|]. split; [exact H6|].
    apply (He [VRef 2; VNum (Fin 3)] (VRef 2) 3).
    + vm_compute. reflexivity.
    + apply in_here. apply elem_of_cons. auto.
    + vm_compute. apply elem_of_cons. auto.
Defined.

(** *** From a read to the write that follows *)

(** With enough fuel a write to a reactive property returns. *)
Lemma reactiveSetter_returns beh fuel r k rc newVal s :
  Observer.tracked_prop (hp s) r k = Some rc ->
  size (Observer.unobserved (hp s)) <= fuel ->
  is_Some (reactiveSetter beh fuel r k newVal s).
Proof.
  intros Ht Hn. unfold reactiveSetter. rewrite Ht. simpl.
  destruct (Observer.reactiveSetter_store_returns fuel r k rc newVal (hp s) Hn)
    as [[h1 d] Hst].
  rewrite Hst. simpl. destruct d; eauto.
Qed.

(** X25.  A write reaches exactly the watchers whose last run read the
    property.  Watcher [w] is evaluated ([get]) by a getter in which the
    data functions and hooks only read plain cells, and the property is
    then written with a changed value, with fuel for the objects that
    carry no Observer yet.  The write returns, and when no [update] has
    thrown, [update] has been called on [w] if and only if the getter read
    the property's dep in that run, and on no watcher twice.  A read at
    the top level of the getter is such a read.  When no subscriber is a
    sync watcher, every watcher called is then dirty, if lazy, or pending
    in the scheduler. *)
Theorem write_reaches_readers
    (beh : Behaviour) (fuel : nat) (r : nat) (k : Observer.key)
    (rc : Observer.Reactive) (newVal : value) (s : World)
    (w : nat) (g : Tracking.Getter) :
  Observer.tracked_prop (hp s) r k = Some rc ->
  Tracking.consistent (trk s) ->
  Tracking.newDepIds (Tracking.watcher_of (trk s) w) = ∅ ->
  Tracking.all_foreign w (Tracking.g_body g) = true ->
  Tracking.all_hook_safe (Tracking.g_body g) = true ->
  Observer.unchanged newVal (Observer.read_descriptor (Observer.Tracked rc))
  = false ->
  size (Observer.unobserved (hp s)) <= fuel ->
  let t1 := fst (Tracking.get w g (trk s)) in
  exists s2 out,
    reactiveSetter beh fuel r k newVal (with_trk t1 s) = Some (s2, out) /\
    (out <> Throw ->
     let called := drop (length (updates s)) (updates s2) in
     (w ∈ called <->
      Observer.r_dep rc ∈ Tracking.getter_reads w g (trk s)) /\
     NoDup called /\
     (Tracking.Depend (Observer.r_dep rc) ∈ Tracking.g_body g ->
      w ∈ called) /\
     ((forall x, x ∈ called ->
         Tracking.lazy (Tracking.watcher_of t1 x) = true \/
         Tracking.sync (Tracking.watcher_of t1 x) = false) ->
      forall x, x ∈ called ->
        if Tracking.lazy (Tracking.watcher_of t1 x)
        then Tracking.dirty (Tracking.watcher_of (trk s2) x) = true
        else x ∈ Scheduler.has (sch s2))).
Proof.
  intros Ht Hc Hn Hf Hh Hu Hfuel t1.
  destruct (reactiveSetter_returns beh fuel r k rc newVal (with_trk t1 s)
              Ht Hfuel) as [[s2 out] Hw].
  exists s2, out. split; [exact Hw|]. intros Hout called.
  unfold reactiveSetter in Hw. cbn [hp with_trk] in Hw. rewrite Ht in Hw.
  simpl in Hw.
  destruct (Observer.reactiveSetter_store fuel r k rc newVal (hp s))
    as [[h1 d]|] eqn:Hst; [|discriminate].
  destruct (Observer.reactiveSetter_store_changed _ _ _ _ _ _ _ _ Ht Hu Hst)
    as (-> & _).
  simpl in Hw. injection Hw as Hw.
  set (s1 := with_hp h1 (with_trk t1 s)) in *.
  set (subs := Tracking.subs_of t1 (Observer.r_dep rc)).
  unfold notify in Hw. change (trk s1) with t1 in Hw. fold subs in Hw.
  assert (Hs2 : s2 = fst (notify_loop beh subs s1))
    by (rewrite Hw; reflexivity).
  assert (Ho : out = snd (notify_loop beh subs s1))
    by (rewrite Hw; reflexivity).
  destruct (notify_loop_frame beh subs s1) as [_ Hup].
  rewrite <- Hs2, <- Ho in Hup. specialize (Hup Hout).
  change (updates s1) with (updates s) in Hup.
  assert (Hcalled : called = subs).
  { unfold called. rewrite Hup, drop_app_length. reflexivity. }
  destruct (Tracking.reads_after_get w g (trk s) t1 Hc Hn Hf Hh
              (Tracking.same_tracking_refl _)) as (Hnd & Hr & Htop & _).
  split; [rewrite Hcalled; apply Hr|]. split; [|split].
  - rewrite Hcalled. apply Hnd.
  - intros Hin. rewrite Hcalled. apply Htop, Hin.
  - rewrite Hcalled. intros Hk x Hx.
    destruct (notify_loop_marks beh subs s1 Hk) as (_ & _ & He).
    rewrite <- Hs2 in He. apply (He x Hx).
Qed.

(** Watcher 2 is an ordinary watcher, not yet evaluated, over the observed
    sample heap. *)
Definition fresh_world : World :=
  mkWorld (Tracking.set_watcher 2
             (Tracking.init_watcher (Tracking.mkOptions false false false false))
             Tracking.empty_state)
          Scheduler.idle Observer.sample_observed [].

Lemma write_reaches_readers_witness :
  let t1 := fst (Tracking.get 2 (reads_count (VNum (Fin 1))) (trk fresh_world)) in
  exists s2,
    reactiveSetter no_behaviour 2 1 (Observer.KName "count") (VNum (Fin 2))
      (with_trk t1 fresh_world) = Some (s2, Return VUndefined) /\
    Tracking.getter_reads 2 (reads_count (VNum (Fin 1))) (trk fresh_world)
    = [1] /\
    updates s2 = [2] /\
    2 ∈ Scheduler.has (sch s2).
Proof.
  intros t1.
  assert (H1 : Observer.tracked_prop (hp fresh_world) 1 (Observer.KName "count")
               = Some (Observer.mkReactive 1 (VNum (Fin 1)) None false false
                         None false)) by (vm_compute; reflexivity).
  assert (H2 : Tracking.consistent (trk fresh_world)).
  { eapply Tracking.consistent_same; [|apply Tracking.consistent_empty].
    split; intros; [reflexivity|]. unfold fresh_world. cbn [trk].
    rewrite Tracking.watcher_of_set_watcher.
    destruct (decide (2 = w)); repeat split; reflexivity. }
  assert (H3 : Tracking.newDepIds (Tracking.watcher_of (trk fresh_world) 2) = ∅)
    by (vm_compute; reflexivity).
  assert (H4 : size (Observer.unobserved (hp fresh_world)) <= 2)
    by (vm_compute; lia).
  destruct (write_reaches_readers no_behaviour 2 1 (Observer.KName "count")
              _ (VNum (Fin 2)) fresh_world 2 (reads_count (VNum (Fin 1)))
              H1 H2 H3 eq_refl eq_refl eq_refl H4)
    as (s2 & out & E & H).
  fold t1 in E.
  assert (Hout : out = Return VUndefined).
  { pose proof E as E'. vm_compute in E'. injection E' as _ <-. reflexivity. }
  subst out. exists s2. split; [exact E|].
  split; [vm_compute; reflexivity|].
  destruct H as (_ & _ & Hin & Hq); [discriminate|].
  assert (Hup : updates s2 = [2]).
  { pose proof E as E'. vm_compute in E'. injection E' as <-. reflexivity. }
  split; [exact Hup|].
  assert (Hc2 : 2 ∈ drop (length (updates fresh_world)) (updates s2)).
  { apply Hin. apply elem_of_cons. auto. }
  apply (Hq ltac:(intros x Hx; rewrite Hup in Hx;
                  apply list_elem_of_singleton in Hx; subst x;
                  right; reflexivity) 2 Hc2).
Defined.

(** *** Writes in one tick, and the flush that follows *)

















End Reactivity.
